(** * Request/reply coordination over the message bus

    A shallow embedding of the coordination layer of the invoicing
    services: the request exchanges of the gateway, invoice-svc and the
    reminder, the worker subscription loops of invoice-svc, email-svc and payment-svc, the
    shutdown handler, and the two invoice handlers the exchanges go through
    (handleCreateInvoice, handleSendInvoice).

    JavaScript values are an inductive type, thrown values are [Error]s,
    and code that publishes, subscribes or touches the data store runs in
    a small state-and-exception monad over the process state [World].
    A thrown exception keeps the effects made before it, as in JavaScript. *)

From Stdlib Require Import String Ascii List ZArith Bool Lia Floats DecimalString.
From Stdlib Require DecimalPos.
Import ListNotations.
Open Scope string_scope.
Set Warnings "-register-all,-inexact-float".

(* ================================================================== *)
(** ** JavaScript values *)
(* ================================================================== *)

Module JS.

(** The values that travel as JSON, plus [Undefined].  Numbers on the bus
    are request ids, counts and page numbers: integral, so [Num] carries a
    [Z].  (Invoice amounts are binary64 and are modelled apart, in
    [CreateInvoice].) *)
Inductive value : Type :=
| Undefined
| Null
| Bool (b : bool)
| Num (n : Z)
| Str (s : string)
| Arr (xs : list value)
| Obj (fields : list (string * value)).

(** Everything the modelled code throws is an [Error] instance
    ([new Error(..)], a TypeError, the codec's error), so
    [error instanceof Error ? error.message : String(error)] is [message]. *)
Record Error : Type := mkError { message : string }.

Inductive completion (A : Type) : Type :=
| Normal (a : A)
| Throw (e : Error).
Arguments Normal {A} a.
Arguments Throw {A} e.

(** [if (v)], [v || w], [v && w]. *)
Definition truthy (v : value) : bool :=
  match v with
  | Undefined | Null => false
  | Bool b => b
  | Num n => negb (n =? 0)%Z
  | Str s => negb (s =? "")
  | Arr _ | Obj _ => true
  end.

Definition or_else (v w : value) : value := if truthy v then v else w.

Fixpoint lookup (k : string) (fields : list (string * value)) : value :=
  match fields with
  | [] => Undefined
  | (k', v) :: rest => if k =? k' then v else lookup k rest
  end.

(** [{...fields, k: v}]: a later key replaces an earlier one in place. *)
Fixpoint set_field (k : string) (v : value) (fields : list (string * value))
  : list (string * value) :=
  match fields with
  | [] => [(k, v)]
  | (k', v') :: rest =>
      if k =? k' then (k, v) :: rest else (k', v') :: set_field k v rest
  end.

(** [v.k] on a value that is known not to be null or undefined. *)
Definition field (v : value) (k : string) : value :=
  match v with
  | Obj fields => lookup k fields
  | _ => Undefined
  end.

(** [v.k]: reading a property of [null] or [undefined] throws a TypeError. *)
Definition prop (v : value) (k : string) : completion value :=
  match v with
  | Undefined =>
      Throw (mkError ("Cannot read properties of undefined (reading '" ++ k ++ "')"))
  | Null =>
      Throw (mkError ("Cannot read properties of null (reading '" ++ k ++ "')"))
  | _ => Normal (field v k)
  end.

(** [v?.k] *)
Definition opt_prop (v : value) (k : string) : value :=
  match v with
  | Undefined | Null => Undefined
  | _ => field v k
  end.

(** [{...v}]: spreading a non-object contributes no named field. *)
Definition spread (v : value) : list (string * value) :=
  match v with
  | Obj fields => fields
  | _ => []
  end.

(** [n.toString()] and [`${n}`] for an integer [n]: its decimal numeral.
    A JavaScript number is the integer itself, and prints as that plain
    numeral, as long as [n] stays below 2^53 in absolute value; what is
    proved of a printed number that the code does not fix carries that
    bound. *)
Definition string_of_Z (n : Z) : string := NilZero.string_of_int (Z.to_int n).

(** [`${v}`] and [String(v)]. *)
Fixpoint to_string (v : value) : string :=
  match v with
  | Undefined => "undefined"
  | Null => "null"
  | Bool true => "true"
  | Bool false => "false"
  | Num n => string_of_Z n
  | Str s => s
  | Arr xs =>
      (fix join (l : list value) : string :=
         match l with
         | [] => ""
         | x :: rest =>
             (match x with
              | Undefined | Null => ""
              | _ => to_string x
              end)
             ++ (match rest with
                 | [] => ""
                 | _ :: _ => "," ++ join rest
                 end)
         end) xs
  | Obj _ => "[object Object]"
  end.

(** What [JSON.stringify] keeps of a value: an [undefined] field is
    dropped, an [undefined] array element or top-level value becomes
    [null]. *)
Fixpoint jsonify (v : value) : value :=
  match v with
  | Undefined => Null
  | Arr xs => Arr (map jsonify xs)
  | Obj fields =>
      Obj ((fix go (l : list (string * value)) : list (string * value) :=
              match l with
              | [] => []
              | (k, Undefined) :: rest => go rest
              | (k, x) :: rest => (k, jsonify x) :: go rest
              end) fields)
  | _ => v
  end.

End JS.
Export JS.

(* ================================================================== *)
(** ** Messages, codec and process state *)
(* ================================================================== *)

(** The bytes of a message: the JSON text of a value, or bytes that are
    not JSON.  [jsonCodec.encode] is [JSON.stringify] (with [undefined]
    sent as [null]); [jsonCodec.decode] is [JSON.parse] and throws on the
    second kind, with the codec's message. *)
Inductive wire : Type :=
| Json (v : value)
| Malformed (raw : string).

Definition encode (v : value) : wire := Json (jsonify v).

Definition decode (w : wire) : completion value :=
  match w with
  | Json v => Normal v
  | Malformed _ => Throw (mkError "Bad JSON")
  end.

Record Msg : Type := mkMsg {
  subject : string;
  data : wire;
  reply : option string
}.

(** [if (msg.reply)]: an empty reply subject counts as none. *)
Definition reply_to (m : Msg) : option string :=
  match reply m with
  | Some r => if r =? "" then None else Some r
  | None => None
  end.

(** Calls that leave the process, in program order. *)
Inductive Effect : Type :=
| ESubscribe (subj : string)
| EUnsubscribe (subj : string)
| EPublish (m : Msg)
| EClose
| EUpdateInvoice (invoice_id organization_id : value) (patch : list (string * value)).

(** The state of one service process: its bus client and its data store.
    - [client]: the gateway's module-level [natsClient] has been assigned;
    - [closed]: [close()] has been called on the connection;
    - [subs]: subjects of the subscriptions open on the connection;
    - [broken]: subjects on which the client's [publish] throws;
    - [log]: every bus and store-update call made so far, oldest first;
    - [invoices], [organizations]: rows of the data store, as the JSON
      objects the store client returns (an invoice row carries its joined
      [customers] object);
    - [update_error]: the error the store answers an update with, if any. *)
Record World : Type := mkWorld {
  client : bool;
  closed : bool;
  subs : list string;
  broken : list string;
  log : list Effect;
  invoices : list value;
  organizations : list value;
  update_error : option string
}.

Definition with_log (f : list Effect -> list Effect) (w : World) : World :=
  mkWorld (client w) (closed w) (subs w) (broken w) (f (log w))
          (invoices w) (organizations w) (update_error w).

Definition with_subs (f : list string -> list string) (w : World) : World :=
  mkWorld (client w) (closed w) (f (subs w)) (broken w) (log w)
          (invoices w) (organizations w) (update_error w).

Definition with_closed (b : bool) (w : World) : World :=
  mkWorld (client w) b (subs w) (broken w) (log w)
          (invoices w) (organizations w) (update_error w).

Definition with_invoices (f : list value -> list value) (w : World) : World :=
  mkWorld (client w) (closed w) (subs w) (broken w) (log w)
          (f (invoices w)) (organizations w) (update_error w).

Definition emit (e : Effect) : World -> World := with_log (fun l => (l ++ [e])%list).

Fixpoint remove_one (s : string) (l : list string) : list string :=
  match l with
  | [] => []
  | x :: rest => if s =? x then rest else x :: remove_one s rest
  end.

Definition mem (s : string) (l : list string) : bool := existsb (String.eqb s) l.

(** The messages handed to [publish], oldest first. *)
Fixpoint published (l : list Effect) : list Msg :=
  match l with
  | [] => []
  | EPublish m :: rest => m :: published rest
  | _ :: rest => published rest
  end.

(** The messages published on one subject. *)
Definition sent_to (subj : string) (l : list Effect) : list wire :=
  map data (filter (fun m => subject m =? subj) (published l)).

(** How many subscriptions are open on a subject. *)
Definition open_on (subj : string) (w : World) : nat :=
  length (filter (String.eqb subj) (subs w)).

(* ================================================================== *)
(** ** The monad of effectful code *)
(* ================================================================== *)

Definition M (A : Type) : Type := World -> completion A * World.

Definition ret {A} (a : A) : M A := fun w => (Normal a, w).

Definition bind {A B} (m : M A) (k : A -> M B) : M B :=
  fun w =>
    match m w with
    | (Normal a, w') => k a w'
    | (Throw e, w') => (Throw e, w')
    end.

Definition throw {A} (e : Error) : M A := fun w => (Throw e, w).

Definition try_catch {A} (body : M A) (handler : Error -> M A) : M A :=
  fun w =>
    match body w with
    | (Normal a, w') => (Normal a, w')
    | (Throw e, w') => handler e w'
    end.

(** A pure step that may throw. *)
Definition lift {A} (c : completion A) : M A := fun w => (c, w).

Declare Scope js_scope.
Delimit Scope js_scope with js.
Notation "x <- m ;; k" := (bind m (fun x => k))
  (at level 61, m at next level, right associativity) : js_scope.
Notation "m ;; k" := (bind m (fun _ => k))
  (at level 61, right associativity) : js_scope.
Open Scope js_scope.

Definition when (b : bool) (m : M unit) : M unit := if b then m else ret tt.

(** [natsClient.publish(subject, data)]: the message is handed to the
    client, with no reply address; on a subject of [broken] the call
    throws instead (the message text stands for the client's own). *)
Definition publish (subj : string) (d : wire) : M unit :=
  fun w =>
    if mem subj (broken w)
    then (Throw (mkError ("publish failed: " ++ subj)), w)
    else (Normal tt, emit (EPublish (mkMsg subj d None)) w).

(** [natsClient.subscribe(subject)] *)
Definition subscribe (subj : string) : M unit :=
  fun w => (Normal tt, emit (ESubscribe subj) (with_subs (fun l => (l ++ [subj])%list) w)).

(** [subscription.unsubscribe()] on a handle of [subj]. *)
Definition unsubscribe (subj : string) : World -> World :=
  fun w => emit (EUnsubscribe subj) (with_subs (remove_one subj) w).

(** [natsClient.close()]: the connection and every subscription on it end. *)
Definition close : World -> World :=
  fun w => emit EClose (with_closed true (with_subs (fun _ => []) w)).

(* ================================================================== *)
(** ** Worker subscription loops *)
(* ================================================================== *)

Module Worker.

(** A business handler: what it returns or throws for a decoded payload.
    The loops below are stated over any handler. *)
Definition Handler : Type := value -> M value.

Definition error_envelope (error : Error) : value :=
  Obj [("error", Str (message error))].


(** [natsClient.publish('invoice.created', jsonCodec.encode({ invoice_id:
    result.id, organization_id: data.organization_id }))] *)
Definition publish_invoice_created (data result : value) : M unit :=
  invoice_id <- lift (prop result "id") ;;
  organization_id <- lift (prop data "organization_id") ;;
  publish "invoice.created"
    (encode (Obj [("invoice_id", invoice_id);
                  ("organization_id", organization_id)])).

(** invoice-svc, [for await (const msg of createSub)]: one iteration
    (services/invoice-svc/src/index.ts, lines 65-94).  The reply and the
    event are published in the same try block. *)
Definition invoice_create (handleCreateInvoice : Handler) (msg : Msg) : M unit :=
  try_catch
    (data <- lift (decode (data msg)) ;;
     result <- handleCreateInvoice data ;;
     (match reply_to msg with
      | Some r => publish r (encode result)
      | None => ret tt
      end) ;;
     publish_invoice_created data result)
    (fun error =>
       match reply_to msg with
       | Some r => publish r (encode (error_envelope error))
       | None => ret tt
       end).

(** invoice-svc, [for await (const msg of getSub)]: one iteration
    (services/invoice-svc/src/index.ts, lines 101-137). *)
Definition invoice_get_request (handleGetInvoice : Handler) (msg : Msg) : M unit :=
  try_catch
    (data <- lift (decode (data msg)) ;;
     result <- handleGetInvoice data ;;
     match reply_to msg with
     | Some r => publish r (encode result)
     | None =>
         requestId <- lift (prop data "requestId") ;;
         when (truthy requestId)
           (publish ("invoice.get.response." ++ to_string requestId) (encode result))
     end)
    (fun error =>
       match reply_to msg with
       | Some r => publish r (encode (error_envelope error))
       | None =>
           try_catch
             (reqData <- lift (decode (data msg)) ;;
              when (truthy reqData && truthy (field reqData "requestId"))
                (publish ("invoice.get.response." ++ to_string (field reqData "requestId"))
                   (encode (error_envelope error))))
             (fun decodeErr => ret tt)
       end).

(** email-svc, [for await (const msg of sendEmailSub)]: one iteration
    (services/email-svc/src/handlers/sendEmail.ts, lines 174-217).  The
    catch block decodes the payload again, outside any try. *)
Definition email_send_request (handleSendEmail : Handler) (msg : Msg) : M unit :=
  try_catch
    (data <- lift (decode (data msg)) ;;
     _ <- lift (prop data "to") ;;
     _ <- lift (prop data "subject") ;;
     _ <- lift (prop data "template") ;;
     result <- handleSendEmail data ;;
     (match reply_to msg with
      | Some r => publish r (encode result)
      | None =>
          when (truthy (field data "requestId"))
            (publish ("email.send.response." ++ to_string (field data "requestId"))
               (encode result))
      end) ;;
     messageId <- lift (prop result "messageId") ;;
     publish "email.sent"
       (encode (Obj [("to", field data "to");
                     ("messageId", messageId);
                     ("template", field data "template")])))
    (fun error =>
       data <- lift (decode (data msg)) ;;
       let errorResponse := error_envelope error in
       match reply_to msg with
       | Some r => publish r (encode errorResponse)
       | None =>
           when (truthy data && truthy (field data "requestId"))
             (publish ("email.send.response." ++ to_string (field data "requestId"))
                (encode errorResponse))
       end).

(** payment-svc, [for await (const msg of createPaymentSub)]: one
    iteration (services/payment-svc/src/index.ts, lines 78-101). *)
Definition payment_create_request (handleCreatePayment : Handler) (msg : Msg) : M unit :=
  try_catch
    (data <- lift (decode (data msg)) ;;
     _ <- lift (prop data "invoice_id") ;;
     result <- handleCreatePayment data ;;
     match reply_to msg with
     | Some r => publish r (encode result)
     | None => ret tt
     end)
    (fun error =>
       match reply_to msg with
       | Some r => publish r (encode (error_envelope error))
       | None => ret tt
       end).

(** invoice-svc, [for await (const msg of sendSub)]: one iteration
    (services/invoice-svc/src/index.ts, lines 220-258). *)
Definition invoice_send (handleGeneratePdf handleSendInvoice : Handler) (msg : Msg)
  : M unit :=
  try_catch
    (data <- lift (decode (data msg)) ;;
     pdfResult <- handleGeneratePdf data ;;
     pdf_url <- lift (prop pdfResult "pdf_url") ;;
     result <- handleSendInvoice (Obj (set_field "pdf_url" pdf_url (spread data))) ;;
     (match reply_to msg with
      | Some r => publish r (encode result)
      | None => ret tt
      end) ;;
     invoice_id <- lift (prop data "invoice_id") ;;
     email <- lift (prop result "email") ;;
     publish "invoice.sent"
       (encode (Obj [("invoice_id", invoice_id);
                     ("organization_id", field data "organization_id");
                     ("pdf_url", pdf_url);
                     ("email", email)])))
    (fun error =>
       match reply_to msg with
       | Some r => publish r (encode (error_envelope error))
       | None => ret tt
       end).

(** Where a subscription loop stands once the messages delivered so far
    have been consumed: waiting for the next one, or ended by an exception
    that left an iteration (the async function rejects, nothing consumes
    the subscription any more). *)
Inductive LoopState : Type :=
| Waiting
| Ended (e : Error) (unprocessed : list Msg).

(** [for await (const msg of sub) { body }] over the messages delivered. *)
Fixpoint for_await (body : Msg -> M unit) (msgs : list Msg) (w : World)
  : LoopState * World :=
  match msgs with
  | [] => (Waiting, w)
  | msg :: rest =>
      match body msg w with
      | (Normal _, w') => for_await body rest w'
      | (Throw e, w') => (Ended e rest, w')
      end
  end.

End Worker.

(* ================================================================== *)
(** ** Request exchanges (correlation layer) *)
(* ================================================================== *)

Module Correlation.

(** The timer of [setTimeout]: armed, cancelled by [clearTimeout], or
    fired (its callback has run). *)
Inductive Timer : Type := Armed | Cleared | Fired.

Inductive Outcome : Type :=
| Resolved (v : value)
| Rejected (e : Error).

(** The reply subscription of an exchange: none (the call that makes it
    threw), open, or released by [unsubscribe()]. *)
Inductive Handle : Type := NoHandle | Open | Released.

(** What one [new Promise((resolve, reject) => ...)] exchange owns: its
    timer, its reply subscription handle, and the promise ([None] while
    pending). *)
Record Pending : Type := mkPending {
  timer : Timer;
  handle : Handle;
  promise : option Outcome
}.

(** The handle is live: the connection delivers to it. *)
Definition sub_open (p : Pending) : bool :=
  match handle p with
  | Open => true
  | _ => false
  end.

(** [resolve(..)] / [reject(..)]: only the first call settles a promise. *)
Definition settle (o : Outcome) (p : Pending) : Pending :=
  match promise p with
  | None => mkPending (timer p) (handle p) (Some o)
  | Some _ => p
  end.

Definition clearTimeout (p : Pending) : Pending :=
  match timer p with
  | Armed => mkPending Cleared (handle p) (promise p)
  | _ => p
  end.

Definition fire (p : Pending) : Pending := mkPending Fired (handle p) (promise p).

(** While the promise is pending the timer is armed. *)
Definition timer_covers (p : Pending) : Prop := promise p = None -> timer p = Armed.

(** [subscription.unsubscribe()] on the exchange's reply handle.  On a
    handle already released the call is made again and the connection
    stays as it is. *)
Definition release (subj : string) (st : World * Pending) : World * Pending :=
  let (w, p) := st in
  match handle p with
  | Open => (unsubscribe subj w, mkPending (timer p) Released (promise p))
  | Released => (emit (EUnsubscribe subj) w, p)
  | NoHandle => st
  end.

(** What the environment does to a running exchange: the reply
    subscription hands over a message, or the deadline passes.

    The exchanges consume their subscription in the two ways the client
    offers.  The gateway iterates over it ([for await], in
    [subscribeToSubject]): the iterator yields every message that reached
    the client while the handle was open, also those still buffered when
    [unsubscribe()] is called, so a [Reply] can follow the release of the
    handle.  The reminder iterates too, and leaves its loop after the
    first message.  handleSendInvoice passes a callback: the client calls
    it when a message arrives on an open handle, and never after
    [unsubscribe()]. *)
Inductive Event : Type :=
| Reply (d : wire)
| Timeout.

(** The replies among [evs] that decode: the messages the gateway's
    callback is called with. *)
Definition decodable (evs : list Event) : list value :=
  flat_map (fun ev =>
              match ev with
              | Reply d => match decode d with
                           | Normal msg => [msg]
                           | Throw _ => []
                           end
              | Timeout => []
              end) evs.

(** *** api-gateway: nats.ts (lines 54-97) *)

Definition publishMessage (subj : string) (d : value) : M unit :=
  fun w =>
    if client w
    then publish subj (encode d) w
    else (Throw (mkError "NATS client not initialized"), w).

Definition subscribeToSubject (subj : string) : M unit :=
  fun w =>
    if client w
    then subscribe subj w
    else (Throw (mkError "NATS client not initialized"), w).

(** *** api-gateway: GET /api/invoices, the [responsePromise]
    (services/api-gateway/src/routes/invoice.routes.ts, lines 62-85) *)

Definition invoice_get_reply_subject (requestId : string) : string :=
  "invoice.get.response." ++ requestId.

Definition invoice_get_payload (requestId : string) (orgId status page limit : value)
  : value :=
  Obj [("requestId", Str requestId);
       ("orgId", orgId);
       ("filters", Obj [("status", status)]);
       ("pagination", Obj [("page", page); ("limit", limit)])].

Definition gateway_timeout_error : Error := mkError "Request to invoice-svc timed out".

(** The promise executor: timer, then subscription, then publish.  An
    exception leaving the executor rejects the promise. *)
Definition gateway_request (requestId : string) (payload : value) (w : World)
  : World * Pending :=
  match subscribeToSubject (invoice_get_reply_subject requestId) w with
  | (Throw e, w1) => (w1, mkPending Armed NoHandle (Some (Rejected e)))
  | (Normal _, w1) =>
      match publishMessage "invoice.get.request" payload w1 with
      | (Throw e, w2) => (w2, mkPending Armed Open (Some (Rejected e)))
      | (Normal _, w2) => (w2, mkPending Armed Open None)
      end
  end.

(** The callback given to [subscribeToSubject]. *)
Definition gateway_callback (requestId : string) (msg : value) (st : World * Pending)
  : World * Pending :=
  let (w, p) := st in
  let st1 := release (invoice_get_reply_subject requestId) (w, clearTimeout p) in
  (fst st1, settle (Resolved msg) (snd st1)).

(** One event.  For every message its iterator yields,
    [subscribeToSubject] decodes inside its own try and only then calls
    the callback; an undecodable message is logged and skipped.  Neither
    the loop nor the callback looks at whether the exchange is over.
    Where [subscribeToSubject] threw there is no loop. *)
Definition gateway_step (requestId : string) (st : World * Pending) (ev : Event)
  : World * Pending :=
  match ev with
  | Reply d =>
      match handle (snd st) with
      | NoHandle => st
      | _ =>
          match decode d with
          | Normal msg => gateway_callback requestId msg st
          | Throw _ => st
          end
      end
  | Timeout =>
      match timer (snd st) with
      | Armed => (fst st, settle (Rejected gateway_timeout_error) (fire (snd st)))
      | _ => st
      end
  end.

Definition gateway_run (requestId : string) (evs : list Event) (st : World * Pending)
  : World * Pending :=
  fold_left (gateway_step requestId) evs st.

(** *** invoice-svc: handleSendInvoice, the [responsePromise]
    (services/invoice-svc/src/handlers/sendInvoice.ts, lines 111-146) *)

Definition email_reply_subject (requestId : string) : string :=
  "email.send.response." ++ requestId.

Definition email_timeout_error : Error := mkError "Request to email service timed out".

Definition email_request (requestId : string) (emailData : value) (w : World)
  : World * Pending :=
  let (_, w1) := subscribe (email_reply_subject requestId) w in
  match publish "email.send.request"
          (encode (Obj (set_field "requestId" (Str requestId) (spread emailData)))) w1 with
  | (Throw e, w2) => (w2, mkPending Armed Open (Some (Rejected e)))
  | (Normal _, w2) => (w2, mkPending Armed Open None)
  end.

(** An argument of a subscription callback: [null], or a message with
    its [data]. *)
Inductive Argument : Type :=
| NoValue
| Message (d : wire).

(** [msg.data]: reading a property of [null] throws a TypeError. *)
Definition data_of (msg : Argument) : completion wire :=
  match msg with
  | Message d => Normal d
  | NoValue => Throw (mkError "Cannot read properties of null (reading 'data')")
  end.

(** The arguments the client (nats 2.x) calls a subscription callback
    with: [callback(err, msg)], [err] being [null] when a message is
    delivered. *)
Definition callback_arguments (d : wire) : Argument * Argument :=
  (NoValue, Message d).

(** How the subscription callback settles from its parameter [msg]:
    [try { response = decode(msg.data); if (response.error) reject(..)
    else resolve(response) } catch (error) { reject(error) }]. *)
Definition email_outcome (msg : Argument) : Outcome :=
  match data_of msg with
  | Throw error => Rejected error
  | Normal d =>
      match decode d with
      | Throw error => Rejected error
      | Normal response =>
          match prop response "error" with
          | Throw error => Rejected error
          | Normal err =>
              if truthy err then Rejected (mkError (to_string err)) else Resolved response
          end
      end
  end.

(** [callback: (msg: any) => { clearTimeout(timeout);
    subscription.unsubscribe(); try { ... } catch (error) { ... } }]
    (sendInvoice.ts, lines 122-136), a function of one parameter. *)
Definition email_callback (requestId : string) (msg : Argument) (st : World * Pending)
  : World * Pending :=
  let (w, p) := st in
  let st1 := release (email_reply_subject requestId) (w, clearTimeout p) in
  (fst st1, settle (email_outcome msg) (snd st1)).

(** One event.  The callback names one parameter, so it is bound to the
    first of the client's two arguments. *)
Definition email_step (requestId : string) (st : World * Pending) (ev : Event)
  : World * Pending :=
  match ev with
  | Reply d =>
      if sub_open (snd st)
      then email_callback requestId (fst (callback_arguments d)) st
      else st
  | Timeout =>
      match timer (snd st) with
      | Armed => (fst st, settle (Rejected email_timeout_error) (fire (snd st)))
      | _ => st
      end
  end.

Definition email_run (requestId : string) (evs : list Event) (st : World * Pending)
  : World * Pending :=
  fold_left (email_step requestId) evs st.

(** *** reminder-svc: checkOverdueInvoices, the [emailPromise]
    (services/api-gateway/dist/index.js, lines 299-331).  The third
    exchange of the services asks email-svc as handleSendInvoice does,
    on the same subjects, and reads the reply in a loop of its own. *)

(** The executor: timer, subscription, the loop over it started, then
    the publish; [emailData] holds the [requestId] already. *)
Definition reminder_request (requestId : string) (emailData : value) (w : World)
  : World * Pending :=
  let (_, w1) := subscribe (email_reply_subject requestId) w in
  match publish "email.send.request" (encode emailData) w1 with
  | (Throw e, w2) => (w2, mkPending Armed Open (Some (Rejected e)))
  | (Normal _, w2) => (w2, mkPending Armed Open None)
  end.

(** The body of [for await (const msg of subscription) { ...; break }]:
    the statements of handleSendInvoice's callback, on the message the
    iterator yields. *)
Definition reminder_body (requestId : string) (msg : Argument) (st : World * Pending)
  : World * Pending :=
  let (w, p) := st in
  let st1 := release (email_reply_subject requestId) (w, clearTimeout p) in
  (fst st1, settle (email_outcome msg) (snd st1)).

(** One event.  The loop ends with [break] after its first message, the
    one on which it releases the handle: it is running as long as the
    handle is open. *)
Definition reminder_step (requestId : string) (st : World * Pending) (ev : Event)
  : World * Pending :=
  match ev with
  | Reply d => if sub_open (snd st) then reminder_body requestId (Message d) st else st
  | Timeout =>
      match timer (snd st) with
      | Armed => (fst st, settle (Rejected email_timeout_error) (fire (snd st)))
      | _ => st
      end
  end.

Definition reminder_run (requestId : string) (evs : list Event) (st : World * Pending)
  : World * Pending :=
  fold_left (reminder_step requestId) evs st.

End Correlation.

(* ================================================================== *)
(** ** Environment of a handler run *)
(* ================================================================== *)

(** What a handler reads from outside the bus and the store:
    [process.env.NODE_ENV], the clock, and the request id drawn from
    [Date.now()] and [Math.random()]; the last three fields feed the
    gateway's mock invoice list. *)
Record Env : Type := mkEnv {
  NODE_ENV : option string;
  now_iso : string;
  fresh_request_id : string;
  mock_amount : nat -> value;
  mock_issue_date : nat -> string;
  mock_due_date : nat -> string
}.

(** [process.env.NODE_ENV !== 'production'] *)
Definition not_production (env : Env) : bool :=
  match NODE_ENV env with
  | Some s => negb (s =? "production")
  | None => true
  end.

(* ================================================================== *)
(** ** invoice-svc: handleSendInvoice *)
(* ================================================================== *)

Module SendInvoice.
Import Correlation.

(** [.eq(column, v)] *)
Definition eq_column (column : string) (v : value) (row : value) : bool :=
  match field row column, v with
  | Str a, Str b => a =? b
  | _, _ => false
  end.

(** [.single()]: the row when exactly one matches, an error otherwise.
    The pair is [{ data, error }], the error given by its message. *)
Definition single (rows : list value) : value * option string :=
  match rows with
  | [row] => (row, None)
  | _ => (Null, Some "JSON object requested, multiple (or no) rows returned")
  end.

Definition select_invoice (invoice_id organization_id : value)
  : M (value * option string) :=
  fun w =>
    (Normal (single (filter (fun row => eq_column "id" invoice_id row
                                        && eq_column "organization_id" organization_id row)
                            (invoices w))), w).

Definition select_organization (organization_id : value) : M (value * option string) :=
  fun w =>
    (Normal
       (match single (filter (eq_column "id" organization_id) (organizations w)) with
        | (row, None) => (Obj [("name", field row "name"); ("email", field row "email")], None)
        | r => r
        end), w).

Definition apply_patch (patch : list (string * value)) (row : value) : value :=
  Obj (fold_left (fun fields kv => set_field (fst kv) (snd kv) fields) patch (spread row)).

(** [.update(patch).eq('id', ..).eq('organization_id', ..)]: answers with
    its error, if any. *)
Definition update_invoice (patch : list (string * value))
    (invoice_id organization_id : value) : M (option string) :=
  fun w =>
    let w1 := emit (EUpdateInvoice invoice_id organization_id patch) w in
    match update_error w with
    | Some err => (Normal (Some err), w1)
    | None =>
        (Normal None,
         with_invoices
           (map (fun row =>
                   if eq_column "id" invoice_id row
                      && eq_column "organization_id" organization_id row
                   then apply_patch patch row else row)) w1)
    end.

Definition emailData (invoice organization email_template pdfUrl : value) : value :=
  Obj [("to", field (field invoice "customers") "email");
       ("subject",
        Str ("Facture " ++ to_string (field invoice "number") ++ " de "
             ++ to_string (or_else (opt_prop organization "name") (Str "AutoInvoice"))));
       ("template", email_template);
       ("data",
        Obj [("invoice",
              Obj [("id", field invoice "id");
                   ("number", field invoice "number");
                   ("issue_date", field invoice "issue_date");
                   ("due_date", field invoice "due_date");
                   ("subtotal", field invoice "subtotal");
                   ("tax_amount", field invoice "tax_amount");
                   ("total_amount", field invoice "total_amount");
                   ("currency", field invoice "currency");
                   ("notes", field invoice "notes")]);
             ("customer", field invoice "customers");
             ("organization",
              or_else organization
                (Obj [("name", Str "AutoInvoice");
                      ("email", Str "contact@autoinvoice.com")]));
             ("pdf_url", pdfUrl)])].

(** [await responsePromise]: the events [evs] reach the exchange in
    order, and the deadline passes after the last of them (which changes
    nothing when the timer is no longer armed).  The promise is then
    settled (lemma [email_await_settled]); the pending case cannot occur. *)
Definition await_email (requestId : string) (data : value) (evs : list Event)
  : M value :=
  fun w =>
    let st := email_run requestId (evs ++ [Timeout])%list (email_request requestId data w) in
    match promise (snd st) with
    | Some (Resolved response) => (Normal response, fst st)
    | Some (Rejected error) => (Throw error, fst st)
    | None => (Throw email_timeout_error, fst st)
    end.

(** The email exchange and the inner [try { await responsePromise ... }
    catch (error) { ... }] of handleSendInvoice, with its development
    fallback. *)
Definition send_email (env : Env) (evs : list Event) (invoice data : value) : M value :=
  let requestId := fresh_request_id env in
  try_catch
    (response <- await_email requestId data evs ;;
     ret (Obj [("success", Bool true);
               ("email", field (field invoice "customers") "email");
               ("message_id", field response "messageId")]))
    (fun error =>
       if not_production env
       then ret (Obj [("success", Bool true);
                      ("email", field (field invoice "customers") "email");
                      ("message_id", Str ("mock-" ++ requestId));
                      ("mock", Bool true)])
       else throw error).

(** [email_template = 'default'] in the destructuring of the request. *)
Definition email_template_of (request : value) : value :=
  match field request "email_template" with
  | Undefined => Str "default"
  | t => t
  end.

(** [{ status: 'sent', sent_at: new Date().toISOString() }] *)
Definition sent_patch (env : Env) : list (string * value) :=
  [("status", Str "sent"); ("sent_at", Str (now_iso env))].

(** services/invoice-svc/src/handlers/sendInvoice.ts, lines 15-179.
    [evs] is what reaches the email exchange before its deadline. *)
Definition handleSendInvoice (env : Env) (evs : list Event) (request : value) : M value :=
  try_catch
    (invoice_id <- lift (prop request "invoice_id") ;;
     let organization_id := field request "organization_id" in
     let pdf_url := field request "pdf_url" in
     let email_template := email_template_of request in
     fetched <- select_invoice invoice_id organization_id ;;
     let invoice := fst fetched in
     match snd fetched with
     | Some fetchError => throw (mkError ("Failed to retrieve invoice: " ++ fetchError))
     | None =>
     if negb (truthy invoice)
     then throw (mkError ("Invoice " ++ to_string invoice_id
                          ++ " not found or does not belong to organization "
                          ++ to_string organization_id))
     else
     let pdfUrl := or_else pdf_url (field invoice "pdf_url") in
     if negb (truthy pdfUrl)
     then throw (mkError "PDF URL is required to send the invoice")
     else
     if negb (truthy (opt_prop (field invoice "customers") "email"))
     then throw (mkError "Customer email is required to send the invoice")
     else
     org <- select_organization organization_id ;;
     let organization := fst org in
     match snd org with
     | Some orgError => throw (mkError ("Failed to retrieve organization: " ++ orgError))
     | None =>
     updateError <- update_invoice (sent_patch env) invoice_id organization_id ;;
     match updateError with
     | Some err => throw (mkError ("Failed to update invoice status: " ++ err))
     | None =>
     send_email env evs invoice (emailData invoice organization email_template pdfUrl)
     end end end)
    (fun error => throw error).

(** The requests handleSendInvoice takes as far as the email exchange:
    the request is an object, exactly one invoice row matches and it has a
    PDF URL (its own or the request's) and a customer email, exactly one
    organization row matches, and the store accepts the update. *)
Definition sendable (request : value) (w : World) (invoice organization : value) : Prop :=
  prop request "invoice_id" = Normal (field request "invoice_id")
  /\ filter (fun row => eq_column "id" (field request "invoice_id") row
                        && eq_column "organization_id" (field request "organization_id") row)
            (invoices w) = [invoice]
  /\ truthy invoice = true
  /\ truthy (or_else (field request "pdf_url") (field invoice "pdf_url")) = true
  /\ truthy (opt_prop (field invoice "customers") "email") = true
  /\ (exists row,
         filter (eq_column "id" (field request "organization_id")) (organizations w) = [row]
         /\ organization = Obj [("name", field row "name"); ("email", field row "email")])
  /\ update_error w = None.

(** The invoice rows once the update of [request]'s invoice has applied. *)
Definition marked_sent (env : Env) (request : value) (rows : list value) : list value :=
  map (fun row =>
         if eq_column "id" (field request "invoice_id") row
            && eq_column "organization_id" (field request "organization_id") row
         then apply_patch (sent_patch env) row else row) rows.

End SendInvoice.

(* ================================================================== *)
(** ** api-gateway: invoice routes *)
(* ================================================================== *)

Module Gateway.
Import Correlation.

Record Response : Type := mkResponse {
  statusCode : Z;
  body : value
}.

Definition error_body (code : Z) (error msg : string) : value :=
  Obj [("statusCode", Num code); ("error", Str error); ("message", Str msg)].

Definition bad_request : Response :=
  mkResponse 400 (error_body 400 "Bad Request" "Organization ID is required").

Definition internal_error (msg : string) : Response :=
  mkResponse 500 (error_body 500 "Internal Server Error" msg).

(** The result of [parseInt]: an integer or [NaN]; [NaN] and the
    infinities leave the process as JSON [null]. *)
Definition number (n : option Z) : value :=
  match n with
  | Some z => Num z
  | None => Null
  end.

(** [Math.ceil(15 / parseInt(limit))] *)
Definition pages (limit : option Z) : value :=
  match limit with
  | Some l => if (l =? 0)%Z then Null else Num (- ((- 15) / l))%Z
  | None => Null
  end.

Definition mock_invoice (env : Env) (i : nat) : value :=
  Obj [("id", Str ("inv-" ++ string_of_Z (Z.of_nat i + 1)));
       ("number", Str ("INV-" ++ string_of_Z (2023000 + Z.of_nat i + 1)));
       ("customer_id", Str ("cus-" ++ string_of_Z (Z.of_nat i mod 3 + 1)));
       ("customer_name", Str ("Client " ++ string_of_Z (Z.of_nat i mod 3 + 1)));
       ("amount", mock_amount env i);
       ("issue_date", Str (mock_issue_date env i));
       ("due_date", Str (mock_due_date env i));
       ("status", Str (nth (i mod 4) ["draft"; "sent"; "paid"; "overdue"] ""));
       ("currency", Str "EUR")].

Definition mock_invoices (env : Env) (page limit : option Z) : value :=
  Obj [("invoices", Arr (map (mock_invoice env) (seq 0 10)));
       ("total", Num 15);
       ("page", number page);
       ("limit", number limit);
       ("pages", pages limit)].

(** [await responsePromise], as in [SendInvoice.await_email]: the events
    [evs], then the deadline. *)
Definition await_invoices (requestId : string) (payload : value) (evs : list Event)
  : M value :=
  fun w =>
    let st := gateway_run requestId (evs ++ [Timeout])%list
                (gateway_request requestId payload w) in
    match promise (snd st) with
    | Some (Resolved response) => (Normal response, fst st)
    | Some (Rejected error) => (Throw error, fst st)
    | None => (Throw gateway_timeout_error, fst st)
    end.

(** [fastify.get('/', ...)] (invoice.routes.ts, lines 48-126): [user] is
    [request.user], [status], [page] and [limit] come from
    [request.query], the last two through [parseInt]. *)
Definition get_invoices (env : Env) (user status : value) (page limit : option Z)
    (evs : list Event) : World -> Response * World :=
  fun w =>
    match
      try_catch
        (orgId <- lift (prop user "org_id") ;;
         if negb (truthy orgId)
         then ret bad_request
         else
           let requestId := fresh_request_id env in
           try_catch
             (response <- await_invoices requestId
                            (invoice_get_payload requestId orgId status
                               (number page) (number limit)) evs ;;
              ret (mkResponse 200 response))
             (fun error =>
                if not_production env
                then ret (mkResponse 200 (mock_invoices env page limit))
                else throw error))
        (fun err => ret (internal_error "An error occurred while fetching invoices"))
        w
    with
    | (Normal r, w') => (r, w')
    | (Throw _, w') => (internal_error "An error occurred while fetching invoices", w')
    end.

(** [fastify.post('/:id/send', ...)] (invoice.routes.ts, lines 332-362):
    publishes and answers at once. *)
Definition post_send (user : value) (id : string) : World -> Response * World :=
  fun w =>
    match
      try_catch
        (orgId <- lift (prop user "org_id") ;;
         if negb (truthy orgId)
         then ret bad_request
         else
           publishMessage "invoice.send"
             (Obj [("invoice_id", Str id); ("organization_id", orgId)]) ;;
           ret (mkResponse 200
                  (Obj [("message", Str ("Invoice " ++ id ++ " has been queued for sending"))])))
        (fun err => ret (internal_error "An error occurred while sending invoice"))
        w
    with
    | (Normal r, w') => (r, w')
    | (Throw _, w') => (internal_error "An error occurred while sending invoice", w')
    end.

End Gateway.

(* ================================================================== *)
(** ** Text *)
(* ================================================================== *)

(** A [string] stands for a JavaScript string whose code units are all
    below 256, one character per code unit. *)
Module Text.

(** The characters [\s] matches and [trim] and [parseInt] skip, among
    the code units below 256: TAB, LF, VT, FF, CR, SPACE and NBSP. *)
Definition is_space (c : ascii) : bool :=
  let n := N_of_ascii c in
  ((9 <=? n) && (n <=? 13) || (n =? 32) || (n =? 160))%N.

Definition space : ascii := " "%char.

Fixpoint contains (c : ascii) (s : string) : bool :=
  match s with
  | EmptyString => false
  | String x rest => Ascii.eqb x c || contains c rest
  end.

(** [s.replace(/\s+/g, r)]: every maximal run of whitespace becomes one
    [r].  [in_run] tells that the character before was whitespace. *)
Fixpoint replace_runs (r : ascii) (in_run : bool) (s : string) : string :=
  match s with
  | EmptyString => EmptyString
  | String c rest =>
      if is_space c
      then if in_run then replace_runs r true rest
           else String r (replace_runs r true rest)
      else String c (replace_runs r false rest)
  end.

(** [s.replace(/<[^>]*>/g, ' ')]: a ["<"] with a [">"] somewhere after it
    is replaced, up to the first such [">"], by a space; a ["<"] with no
    [">"] after it stays.  [in_tag] tells that a match is being skipped. *)
Fixpoint replace_tags (in_tag : bool) (s : string) : string :=
  match s with
  | EmptyString => EmptyString
  | String c rest =>
      if in_tag
      then if Ascii.eqb c ">"%char
           then String space (replace_tags false rest)
           else replace_tags true rest
      else if Ascii.eqb c "<"%char && contains ">"%char rest
           then replace_tags true rest
           else String c (replace_tags false rest)
  end.

Fixpoint trim_start (s : string) : string :=
  match s with
  | EmptyString => EmptyString
  | String c rest => if is_space c then trim_start rest else s
  end.

Fixpoint trim_end (s : string) : string :=
  match s with
  | EmptyString => EmptyString
  | String c rest =>
      match trim_end rest with
      | EmptyString => if is_space c then EmptyString else String c EmptyString
      | kept => String c kept
      end
  end.

(** [s.trim()] *)
Definition trim (s : string) : string := trim_end (trim_start s).

(** email-svc, [stripHtml] (services/email-svc/src/handlers/sendEmail.ts,
    lines 113-118). *)
Definition stripHtml (html : string) : string :=
  trim (replace_runs space false (replace_tags false html)).

(** No ["<"] of [s] has a [">"] after it: nothing in [s] matches
    [/<[^>]*>/]. *)
Fixpoint tag_free (s : string) : bool :=
  match s with
  | EmptyString => true
  | String c rest =>
      negb (Ascii.eqb c "<"%char && contains ">"%char rest) && tag_free rest
  end.

(** [s] does not begin with whitespace. *)
Definition starts_clean (s : string) : bool :=
  match s with
  | EmptyString => true
  | String c _ => negb (is_space c)
  end.

(** [s] does not end with whitespace. *)
Fixpoint ends_clean (s : string) : bool :=
  match s with
  | EmptyString => true
  | String c EmptyString => negb (is_space c)
  | String _ rest => ends_clean rest
  end.

(** Every whitespace character of [s] is a space, and the character
    after it, if any, is not whitespace. *)
Fixpoint single_spaced (s : string) : bool :=
  match s with
  | EmptyString => true
  | String c rest =>
      (if is_space c then Ascii.eqb c space && starts_clean rest else true)
      && single_spaced rest
  end.

End Text.

(* ================================================================== *)
(** ** invoice-svc: the invoice number *)
(* ================================================================== *)

(** services/invoice-svc/src/handlers/createInvoice.ts, lines 32-55.
    Numbers are integers here; a JavaScript number is the same integer
    as long as it stays below 2^53, and the theorems are stated below
    that bound. *)
Module InvoiceNumber.
Import Text.

(** The value of a digit in a radix up to 16. *)
Definition digit_of (radix : Z) (c : ascii) : option Z :=
  let n := Z.of_N (N_of_ascii c) in
  let d := (if (48 <=? n) && (n <=? 57) then Some (n - 48)
            else if (97 <=? n) && (n <=? 102) then Some (n - 87)
            else if (65 <=? n) && (n <=? 70) then Some (n - 55)
            else None)%Z in
  match d with
  | Some v => if (v <? radix)%Z then Some v else None
  | None => None
  end.

(** The value of the longest prefix of [s] made of digits, read after
    [acc]. *)
Fixpoint digits (radix acc : Z) (s : string) : Z :=
  match s with
  | EmptyString => acc
  | String c rest =>
      match digit_of radix c with
      | Some d => digits radix (acc * radix + d)%Z rest
      | None => acc
      end
  end.

Definition starts_with_digit (radix : Z) (s : string) : bool :=
  match s with
  | String c _ => match digit_of radix c with Some _ => true | None => false end
  | EmptyString => false
  end.

(** [parseInt(s)], [None] for [NaN]: leading whitespace, a sign, the
    prefix [0x] or [0X] for radix 16, then the digits. *)
Definition parseInt (s : string) : option Z :=
  let s1 := trim_start s in
  let '(sign, s2) :=
    match s1 with
    | String "-" rest => ((-1)%Z, rest)
    | String "+" rest => (1%Z, rest)
    | _ => (1%Z, s1)
    end in
  let '(radix, s3) :=
    match s2 with
    | String "0" (String "x" rest) => (16%Z, rest)
    | String "0" (String "X" rest) => (16%Z, rest)
    | _ => (10%Z, s2)
    end in
  if starts_with_digit radix s3 then Some (sign * digits radix 0 s3)%Z else None.

(** [s.split(sep)] for a separator of one character. *)
Fixpoint split (sep : ascii) (s : string) : list string :=
  match s with
  | EmptyString => [EmptyString]
  | String c rest =>
      if Ascii.eqb c sep then EmptyString :: split sep rest
      else match split sep rest with
           | segment :: more => String c segment :: more
           | [] => [String c EmptyString]
           end
  end.

Fixpoint repeat_char (c : ascii) (n : nat) : string :=
  match n with
  | O => EmptyString
  | S k => String c (repeat_char c k)
  end.

(** [s.padStart(n, c)] *)
Definition padStart (n : nat) (c : ascii) (s : string) : string :=
  repeat_char c (n - String.length s) ++ s.

(** [nextNumber], from the store's answer [{ data: lastInvoice, error:
    countError }] to the query for the organization's latest invoice. *)
Definition nextNumber (countError : option string) (lastInvoice : value) : completion Z :=
  match countError, lastInvoice with
  | None, Arr (row :: _) =>
      match prop row "number" with
      | Throw e => Throw e
      | Normal lastNumber =>
          if negb (truthy lastNumber) then Normal 1%Z
          else
            match lastNumber with
            | Str s =>
                if contains "-" s
                then match parseInt (nth 1 (split "-" s) EmptyString) with
                     | Some numberPart => Normal (numberPart + 1)%Z
                     | None => Normal 1%Z
                     end
                else Normal 1%Z
            | Arr xs =>
                if existsb (fun x => match x with Str "-" => true | _ => false end) xs
                then Throw (mkError "lastNumber.split is not a function")
                else Normal 1%Z
            | _ => Throw (mkError "lastNumber.includes is not a function")
            end
      end
  | _, _ => Normal 1%Z
  end.

(** [`INV-${currentYear}${nextNumber.toString().padStart(4, '0')}`] *)
Definition invoiceNumber (currentYear nextNumber : Z) : string :=
  "INV-" ++ string_of_Z currentYear ++ padStart 4 "0" (string_of_Z nextNumber).

(** A decimal digit, and a string made of decimal digits only. *)
Definition is_digit (c : ascii) : bool :=
  let n := N_of_ascii c in ((48 <=? n) && (n <=? 57))%N.

Fixpoint all_digits (s : string) : bool :=
  match s with
  | EmptyString => true
  | String c rest => is_digit c && all_digits rest
  end.

(** The number a decimal numeral denotes when read after [acc]. *)
Fixpoint uint_value (d : Decimal.uint) (acc : Z) : Z :=
  match d with
  | Decimal.Nil => acc
  | Decimal.D0 l => uint_value l (acc * 10 + 0)%Z
  | Decimal.D1 l => uint_value l (acc * 10 + 1)%Z
  | Decimal.D2 l => uint_value l (acc * 10 + 2)%Z
  | Decimal.D3 l => uint_value l (acc * 10 + 3)%Z
  | Decimal.D4 l => uint_value l (acc * 10 + 4)%Z
  | Decimal.D5 l => uint_value l (acc * 10 + 5)%Z
  | Decimal.D6 l => uint_value l (acc * 10 + 6)%Z
  | Decimal.D7 l => uint_value l (acc * 10 + 7)%Z
  | Decimal.D8 l => uint_value l (acc * 10 + 8)%Z
  | Decimal.D9 l => uint_value l (acc * 10 + 9)%Z
  end.

End InvoiceNumber.

(* ================================================================== *)
(** ** invoice-svc: handleCreateInvoice *)
(* ================================================================== *)

Module CreateInvoice.

(** [interface InvoiceItem]; quantities and prices are JavaScript
    numbers, that is binary64 floats. *)
Record InvoiceItem : Type := mkItem {
  description : string;
  quantity : float;
  unit_price : float;
  amount : option float
}.

(** [interface InvoiceData] *)
Record InvoiceData : Type := mkData {
  customer_id : string;
  organization_id : string;
  issue_date : option string;
  due_date : option string;
  items : list InvoiceItem;
  notes : option string;
  currency : option string
}.

(** The [invoice] object handed to the store. *)
Record Invoice : Type := mkInvoice {
  inv_id : string;
  inv_number : string;
  inv_customer_id : string;
  inv_organization_id : string;
  inv_issue_date : string;
  inv_due_date : string;
  inv_items : list InvoiceItem;
  subtotal : float;
  tax_rate : float;
  tax_amount : float;
  total_amount : float;
  inv_status : string;
  inv_notes : string;
  inv_currency : string;
  created_at : string
}.

(** What the handler takes from outside the payload and the store: the
    uuid, the clock (the year, the date and the time stamp of
    [new Date()]), and the Date arithmetic of the default due date:
    [thirty_days_after d] is [new Date(d)] moved on by thirty days with
    [setDate] and printed with [toISOString().split('T')[0]], [None] when
    that date is an invalid one. *)
Record Context : Type := mkContext {
  uuid : string;
  currentYear : Z;
  today : string;
  thirty_days_after : string -> option string;
  now : string
}.

(** [s || d] on an optional string. *)
Definition default (s : option string) (d : string) : string :=
  match s with
  | Some x => if x =? "" then d else x
  | None => d
  end.

(** [data.items.map(item => { const amount = ...; subtotal += amount;
    return {...item, amount} })], threading the mutable [subtotal]. *)
Fixpoint map_items (items : list InvoiceItem) (subtotal : float)
  : list InvoiceItem * float :=
  match items with
  | [] => ([], subtotal)
  | item :: rest =>
      let amount := (quantity item * unit_price item)%float in
      let subtotal := (subtotal + amount)%float in
      let (rest', subtotal') := map_items rest subtotal in
      (mkItem (description item) (quantity item) (unit_price item) (Some amount) :: rest',
       subtotal')
  end.

Definition taxRate : float := 0.20%float.


(** [let dueDate = data.due_date; if (!dueDate) { const due = new
    Date(issueDate); due.setDate(due.getDate() + 30); dueDate =
    due.toISOString().split('T')[0] }]: on an invalid date [toISOString]
    throws a RangeError. *)
Definition dueDate (ctx : Context) (data : InvoiceData) (issueDate : string)
  : completion string :=
  let computed :=
    match thirty_days_after ctx issueDate with
    | Some due => Normal due
    | None => Throw (mkError "Invalid time value")
    end in
  match due_date data with
  | Some d => if d =? "" then computed else Normal d
  | None => computed
  end.

(** The [invoice] object of lines 69-102. *)
Definition build_invoice (ctx : Context) (invoiceNumber issueDate dueDate : string)
    (data : InvoiceData) : Invoice :=
  let invoiceId := "inv-" ++ uuid ctx in
  let (items, subtotal) := map_items (items data) 0%float in
  let taxAmount := (subtotal * taxRate)%float in
  let totalAmount := (subtotal + taxAmount)%float in
  mkInvoice invoiceId invoiceNumber (customer_id data) (organization_id data)
            issueDate dueDate items subtotal taxRate taxAmount totalAmount
            "draft" (default (notes data) "") (default (currency data) "EUR") (now ctx).

(** services/invoice-svc/src/handlers/createInvoice.ts, lines 25-122,
    on a payload that has the fields of [InvoiceData].
    [countError] and [lastInvoice] are the store's answer to the query
    for the organization's latest invoice number; [insert] is its answer
    to [.insert(invoice).select().single()]: the saved row, or an error
    message.  The numbering and the default due date come before the
    totals and can throw. *)
Definition handleCreateInvoice (ctx : Context) (countError : option string)
    (lastInvoice : value) (insert : Invoice -> Invoice + string) (data : InvoiceData)
  : completion Invoice :=
  match InvoiceNumber.nextNumber countError lastInvoice with
  | Throw error => Throw error
  | Normal nextNumber =>
      let invoiceNumber := InvoiceNumber.invoiceNumber (currentYear ctx) nextNumber in
      let issueDate := default (issue_date data) (today ctx) in
      match dueDate ctx data issueDate with
      | Throw error => Throw error
      | Normal dueDate =>
          match insert (build_invoice ctx invoiceNumber issueDate dueDate data) with
          | inl savedInvoice => Normal savedInvoice
          | inr error => Throw (mkError ("Failed to create invoice: " ++ error))
          end
      end
  end.

End CreateInvoice.

(* ================================================================== *)
(** ** Shutdown *)
(* ================================================================== *)

Module Lifecycle.

Inductive Process : Type :=
| Running
| Exited (code : Z).

(** A service process: its bus state, how many [shutdown] calls are
    suspended at [await natsClient.close()], and whether it has exited. *)
Record Service : Type := mkService {
  world : World;
  closing : nat;
  process : Process
}.

(** [shutdown] up to its [await] (services/invoice-svc/src/index.ts,
    lines 270-279; the other services have the same body): every tracked
    subscription is unsubscribed, then [close()] is called.  Neither call
    throws, on a live handle or on one already released. *)
Definition shutdown_begin (subscriptions : list string) (w : World) : World :=
  close (fold_left (fun w sub => unsubscribe sub w) subscriptions w).

Inductive Step : Type :=
| Signal          (* SIGINT or SIGTERM: the handler runs [shutdown] *)
| CloseSettled.   (* a pending [close()] promise resolves: [process.exit(0)] *)

Definition step (subscriptions : list string) (s : Service) (st : Step) : Service :=
  match process s with
  | Exited _ => s
  | Running =>
      match st with
      | Signal => mkService (shutdown_begin subscriptions (world s)) (S (closing s)) Running
      | CloseSettled =>
          match closing s with
          | O => s
          | S n => mkService (world s) n (Exited 0)
          end
      end
  end.

Definition run (subscriptions : list string) (steps : list Step) (s : Service) : Service :=
  fold_left (step subscriptions) steps s.

(** The [subscriptions] array of invoice-svc once [setupSubscriptions]
    has run. *)
Definition invoice_svc_subscriptions : list string :=
  ["invoice.create"; "invoice.get.request"; "invoice.generate.pdf";
   "invoice.delete"; "invoice.send"].

(** How often [unsubscribe()] was called on the handle of [subj], and how
    often [close()] was called. *)
Definition unsubscribe_calls (subj : string) (l : list Effect) : nat :=
  length (filter (fun e => match e with EUnsubscribe s => s =? subj | _ => false end) l).

Definition close_calls (l : list Effect) : nat :=
  length (filter (fun e => match e with EClose => true | _ => false end) l).

End Lifecycle.

(* ================================================================== *)
(** ** Sample states *)
(* ================================================================== *)

Module Sample.
Import Worker Correlation Gateway.

(** A connected process with nothing subscribed, published or stored. *)
Definition idle : World := mkWorld true false [] [] [] [] [] None.

Definition production : Env :=
  mkEnv (Some "production") "2025-06-11T09:00:00.000Z" "req_1718096400000_k3x9q2a"
        (fun _ => Num 120) (fun _ => "2025-06-11") (fun _ => "2025-07-11").

Definition development : Env :=
  mkEnv (Some "development") "2025-06-11T09:00:00.000Z" "req_1718096400000_k3x9q2a"
        (fun _ => Num 120) (fun _ => "2025-06-11") (fun _ => "2025-07-11").

Definition user : value := Obj [("org_id", Str "org-1")].

Definition invoice_row : value :=
  Obj [("id", Str "inv-1");
       ("organization_id", Str "org-1");
       ("number", Str "INV-20250001");
       ("status", Str "draft");
       ("pdf_url", Str "https://files.example/inv-1.pdf");
       ("customers", Obj [("id", Str "cus-1"); ("email", Str "billing@acme.com")])].

Definition organization_row : value :=
  Obj [("id", Str "org-1"); ("name", Str "Studio"); ("email", Str "hello@studio.example")].

(** invoice-svc with one draft invoice, subscribed to [invoice.send]. *)
Definition invoice_svc : World :=
  mkWorld true false ["invoice.send"] [] [] [invoice_row] [organization_row] None.

Definition send_request : value :=
  Obj [("invoice_id", Str "inv-1"); ("organization_id", Str "org-1")].

(** What handleGeneratePdf returns for that invoice. *)
Definition pdf_result : value :=
  Obj [("pdf_url", Str "https://files.example/inv-1.pdf")].

(** A handler that answers every payload with the same result. *)
Definition answering (result : value) : Handler := fun _ => ret result.

(** invoice-svc on 11 June 2025: thirty days after that day is 11 July,
    and a string that is not a date has no day after it. *)
Definition context : CreateInvoice.Context :=
  CreateInvoice.mkContext "7f3c2a10" 2025 "2025-06-11"
    (fun d => if d =? "2025-06-11" then Some "2025-07-11" else None)
    "2025-06-11T09:00:00.000Z".


End Sample.

(* ================================================================== *)
(** ** The other subscription loops *)
(* ================================================================== *)

Module Loops.
Import Worker.

(** invoice-svc, [for await (const msg of generatePdfSub)]: one iteration
    (services/invoice-svc/src/index.ts, lines 144-174). *)
Definition invoice_generate_pdf (handleGeneratePdf : Handler) (msg : Msg) : M unit :=
  try_catch
    (data <- lift (decode (data msg)) ;;
     result <- handleGeneratePdf data ;;
     (match reply_to msg with
      | Some r => publish r (encode result)
      | None => ret tt
      end) ;;
     invoice_id <- lift (prop data "invoice_id") ;;
     pdf_url <- lift (prop result "pdf_url") ;;
     publish "invoice.pdf.generated"
       (encode (Obj [("invoice_id", invoice_id);
                     ("organization_id", field data "organization_id");
                     ("pdf_url", pdf_url)])))
    (fun error =>
       match reply_to msg with
       | Some r => publish r (encode (error_envelope error))
       | None => ret tt
       end).

(** invoice-svc, [for await (const msg of deleteSub)]: one iteration
    (services/invoice-svc/src/index.ts, lines 181-213). *)
Definition invoice_delete (handleDeleteInvoice : Handler) (msg : Msg) : M unit :=
  try_catch
    (data <- lift (decode (data msg)) ;;
     _ <- handleDeleteInvoice data ;;
     (match reply_to msg with
      | Some r =>
          invoice_id <- lift (prop data "invoice_id") ;;
          publish r (encode (Obj [("success", Bool true); ("invoice_id", invoice_id)]))
      | None => ret tt
      end) ;;
     invoice_id <- lift (prop data "invoice_id") ;;
     publish "invoice.deleted"
       (encode (Obj [("invoice_id", invoice_id);
                     ("organization_id", field data "organization_id")])))
    (fun error =>
       match reply_to msg with
       | Some r => publish r (encode (error_envelope error))
       | None => ret tt
       end).

(** payment-svc, [for await (const msg of getPaymentSub)]: one iteration
    (services/payment-svc/src/index.ts, lines 108-164).  [by_id] and
    [by_invoice] are the store's answers [{ data, error }] to the two
    queries on [payments], the error given by its message. *)
Definition payment_get_request (by_id by_invoice : value -> value * option string)
    (msg : Msg) : M unit :=
  try_catch
    (data <- lift (decode (data msg)) ;;
     payment_id <- lift (prop data "payment_id") ;;
     if negb (truthy payment_id) && negb (truthy (field data "invoice_id"))
     then throw (mkError "Either payment_id or invoice_id must be provided")
     else if truthy payment_id
     then
       match by_id payment_id with
       | (_, Some error) => throw (mkError ("Failed to retrieve payment: " ++ error))
       | (payment, None) =>
           match reply_to msg with
           | Some r => publish r (encode payment)
           | None => ret tt
           end
       end
     else
       match by_invoice (field data "invoice_id") with
       | (_, Some error) => throw (mkError ("Failed to retrieve payments: " ++ error))
       | (payments, None) =>
           match reply_to msg with
           | Some r => publish r (encode payments)
           | None => ret tt
           end
       end)
    (fun error =>
       match reply_to msg with
       | Some r => publish r (encode (error_envelope error))
       | None => ret tt
       end).

(** payment-svc, [for await (const msg of webhookSub)]: one iteration
    (services/payment-svc/src/index.ts, lines 171-201). *)
Definition payment_webhook_event (handleWebhookEvent : value -> value -> M value)
    (msg : Msg) : M unit :=
  try_catch
    (data <- lift (decode (data msg)) ;;
     payload <- lift (prop data "payload") ;;
     result <- handleWebhookEvent payload (field data "signature") ;;
     match reply_to msg with
     | Some r => publish r (encode result)
     | None => ret tt
     end)
    (fun error =>
       match reply_to msg with
       | Some r => publish r (encode (error_envelope error))
       | None => ret tt
       end).

(** reminder-svc, [for await (const msg of checkOverdueSub)]: one
    iteration (services/reminder-svc/src/index.ts, lines 85-103).  The
    payload is not read. *)
Definition reminder_check_request (checkOverdueInvoices : M value) (msg : Msg) : M unit :=
  try_catch
    (result <- checkOverdueInvoices ;;
     match reply_to msg with
     | Some r => publish r (encode result)
     | None => ret tt
     end)
    (fun error =>
       match reply_to msg with
       | Some r => publish r (encode (error_envelope error))
       | None => ret tt
       end).

(** api-gateway, the consumer loop [subscribeToSubject] starts
    (node_modules/api-gateway/src/nats.ts, lines 81-90): decoding and the
    callback run inside one try, whose catch only logs. *)
Definition subscription_iteration (callback : value -> M unit) (message : Msg) : M unit :=
  try_catch
    (data <- lift (decode (data message)) ;;
     callback data)
    (fun error => ret tt).

(** A handler that leaves the connection able to publish. *)
Definition keeps_connection {A} (m : M A) : Prop :=
  forall w, broken w = [] -> broken (snd (m w)) = [].

(** An iteration that completes and leaves the connection able to
    publish. *)
Definition completes (m : M unit) : Prop :=
  forall w, broken w = [] -> exists w', m w = (Normal tt, w') /\ broken w' = [].

End Loops.

(* ================================================================== *)
(** ** api-gateway: the other invoice routes and the customer routes *)
(* ================================================================== *)

Module Routes.
Import Correlation Gateway.

(** The fields [{...v}] copies: those of an object, the elements of an
    array under their indices, the characters of a string under theirs. *)
Fixpoint indexed (i : nat) (xs : list value) : list (string * value) :=
  match xs with
  | [] => []
  | x :: rest => (string_of_Z (Z.of_nat i), x) :: indexed (S i) rest
  end.

Fixpoint characters (s : string) : list value :=
  match s with
  | EmptyString => []
  | String c rest => Str (String c EmptyString) :: characters rest
  end.

Definition own_fields (v : value) : list (string * value) :=
  match v with
  | Obj fields => fields
  | Arr xs => indexed 0 xs
  | Str s => indexed 0 (characters s)
  | _ => []
  end.

(** [{ ...base, ...extra }]: the fields of [extra] are set one by one. *)
Definition assign_fields (base extra : list (string * value)) : list (string * value) :=
  fold_left (fun fields kv => set_field (fst kv) (snd kv) fields) extra base.

(** [body.organization_id = orgId] in strict mode.  It throws on [null],
    [undefined] and the primitives.  The result is the body as
    [JSON.stringify] will see it, and the fields a later spread copies
    (an array keeps the property, but its JSON does not show it). *)
Definition set_organization (body orgId : value)
  : completion (value * list (string * value)) :=
  match body with
  | Obj fields =>
      let fields' := set_field "organization_id" orgId fields in
      Normal (Obj fields', fields')
  | Arr xs => Normal (Arr xs, (indexed 0 xs ++ [("organization_id", orgId)])%list)
  | Undefined =>
      Throw (mkError "Cannot set properties of undefined (setting 'organization_id')")
  | Null => Throw (mkError "Cannot set properties of null (setting 'organization_id')")
  | _ => Throw (mkError ("Cannot create property 'organization_id' on " ++ to_string body))
  end.

(** What a route handler answers: its own reply when the body runs to
    the end, the route's 500 when an exception reaches the outer catch. *)
Definition answer (failure : string) (body : M Response) : World -> Response * World :=
  fun w =>
    match body w with
    | (Normal r, w') => (r, w')
    | (Throw _, w') => (internal_error failure, w')
    end.

(** [fastify.get('/:id', ...)] of the invoice routes (invoice.routes.ts,
    lines 152-212).  [mock] is the object the development branch builds
    for an id (its amounts are decimal numbers). *)
Definition get_invoice (env : Env) (mock : string -> value) (user : value) (id : string)
  : World -> Response * World :=
  answer "An error occurred while fetching invoice"
    (orgId <- lift (prop user "org_id") ;;
     if negb (truthy orgId)
     then ret bad_request
     else if not_production env
     then ret (mkResponse 200 (mock id))
     else ret (mkResponse 404
                 (error_body 404 "Not Found" ("Invoice with ID " ++ id ++ " not found")))).

(** [fastify.post('/', ...)] of the invoice routes (invoice.routes.ts,
    lines 264-306).  [now] is [Date.now()]. *)
Definition post_invoice (env : Env) (now : Z) (user body : value)
  : World -> Response * World :=
  answer "An error occurred while creating invoice"
    (orgId <- lift (prop user "org_id") ;;
     if negb (truthy orgId)
     then ret bad_request
     else
       invoice <- lift (set_organization body orgId) ;;
       publishMessage "invoice.create" (fst invoice) ;;
       if not_production env
       then ret (mkResponse 201
                   (Obj (assign_fields
                           (assign_fields [("id", Str ("inv-" ++ string_of_Z now))]
                              (snd invoice))
                           [("status", Str "draft"); ("created_at", Str (now_iso env))])))
       else ret (mkResponse 201 (Obj [("message", Str "Invoice creation in progress")]))).

(** [fastify.delete('/:id', ...)] of the invoice routes (invoice.routes.ts,
    lines 388-418). *)
Definition delete_invoice (user : value) (id : string) : World -> Response * World :=
  answer "An error occurred while deleting invoice"
    (orgId <- lift (prop user "org_id") ;;
     if negb (truthy orgId)
     then ret bad_request
     else
       publishMessage "invoice.delete"
         (Obj [("invoice_id", Str id); ("organization_id", orgId)]) ;;
       ret (mkResponse 200
              (Obj [("message", Str ("Invoice " ++ id ++ " has been deleted"))]))).

(** [fastify.post('/', ...)] of the customer routes (customer.routes.ts,
    lines 197-236). *)
Definition post_customer (env : Env) (now : Z) (user body : value)
  : World -> Response * World :=
  answer "An error occurred while creating customer"
    (orgId <- lift (prop user "org_id") ;;
     if negb (truthy orgId)
     then ret bad_request
     else
       customer <- lift (set_organization body orgId) ;;
       publishMessage "customer.create" (fst customer) ;;
       if not_production env
       then ret (mkResponse 201
                   (Obj (assign_fields
                           (assign_fields [("id", Str ("cus-" ++ string_of_Z now))]
                              (snd customer))
                           [("created_at", Str (now_iso env));
                            ("updated_at", Str (now_iso env))])))
       else ret (mkResponse 201 (Obj [("message", Str "Customer creation in progress")]))).

(** The message [fastify.put('/:id', ...)] publishes:
    [{ id, organization_id: orgId, ...customer }]. *)
Definition customer_update (id : string) (orgId customer : value) : value :=
  Obj (assign_fields [("id", Str id); ("organization_id", orgId)] (own_fields customer)).

(** [fastify.put('/:id', ...)] of the customer routes (customer.routes.ts,
    lines 282-329). *)
Definition put_customer (env : Env) (user : value) (id : string) (customer : value)
  : World -> Response * World :=
  answer "An error occurred while updating customer"
    (orgId <- lift (prop user "org_id") ;;
     if negb (truthy orgId)
     then ret bad_request
     else
       publishMessage "customer.update" (customer_update id orgId customer) ;;
       if not_production env
       then ret (mkResponse 200
                   (Obj (assign_fields
                           (assign_fields [("id", Str id)] (own_fields customer))
                           [("organization_id", orgId);
                            ("updated_at", Str (now_iso env))])))
       else ret (mkResponse 200
                   (Obj [("message", Str ("Customer " ++ id ++ " has been updated"))]))).

(** [fastify.delete('/:id', ...)] of the customer routes
    (customer.routes.ts, lines 352-382). *)
Definition delete_customer (user : value) (id : string) : World -> Response * World :=
  answer "An error occurred while deleting customer"
    (orgId <- lift (prop user "org_id") ;;
     if negb (truthy orgId)
     then ret bad_request
     else
       publishMessage "customer.delete"
         (Obj [("id", Str id); ("organization_id", orgId)]) ;;
       ret (mkResponse 200
              (Obj [("message", Str ("Customer " ++ id ++ " has been deleted"))]))).

(** Whether an object has a key. *)
Definition has_key (k : string) (fields : list (string * value)) : bool :=
  existsb (fun kv => k =? fst kv) fields.

End Routes.


(* ================================================================== *)
(** ** invoice-svc: handleDeleteInvoice and the stored PDF *)
(* ================================================================== *)

Module DeleteInvoice.
Import SendInvoice.

(** The storage client and its configuration: [process.env]'s two
    variables and what [storage.from(bucket).remove(paths)] does, which
    may be to throw. *)
Record Storage : Type := mkStorage {
  PDF_STORAGE_BUCKET : option string;
  PDF_STORAGE_PATH : option string;
  remove : string -> list string -> M unit
}.

(** [.eq('id', invoice_id).eq('organization_id', organization_id)] *)
Definition matches (invoice_id organization_id : value) (row : value) : bool :=
  eq_column "id" invoice_id row && eq_column "organization_id" organization_id row.

(** [.select('id, status') ... .single()] *)
Definition select_id_status (invoice_id organization_id : value)
  : M (value * option string) :=
  fun w =>
    (Normal
       (match single (filter (matches invoice_id organization_id) (invoices w)) with
        | (row, None) => (Obj [("id", field row "id"); ("status", field row "status")], None)
        | r => r
        end), w).

(** [.delete().eq('id', ..).eq('organization_id', ..)]: [deleteError] is
    the error the store answers with, if any. *)
Definition delete_rows (deleteError : option string) (invoice_id organization_id : value)
  : M (option string) :=
  fun w =>
    match deleteError with
    | Some err => (Normal (Some err), w)
    | None =>
        (Normal None,
         with_invoices (filter (fun row => negb (matches invoice_id organization_id row))) w)
    end.

(** [v === 'literal'] *)
Definition is_string (v : value) (literal : string) : bool :=
  match v with
  | Str s => s =? literal
  | _ => false
  end.

(** [`${organization_id}/${storagePath}/${invoice_id}.pdf`] *)
Definition filePath (organization_id : value) (storagePath : string) (invoice_id : value)
  : string :=
  to_string organization_id ++ "/" ++ storagePath ++ "/" ++ to_string invoice_id ++ ".pdf".

(** services/invoice-svc/src/handlers/deleteInvoice.ts, lines 12-79. *)
Definition handleDeleteInvoice (storage : Storage) (deleteError : option string)
    (request : value) : M value :=
  try_catch
    (invoice_id <- lift (prop request "invoice_id") ;;
     let organization_id := field request "organization_id" in
     fetched <- select_id_status invoice_id organization_id ;;
     let invoice := fst fetched in
     match snd fetched with
     | Some fetchError => throw (mkError ("Failed to verify invoice: " ++ fetchError))
     | None =>
     if negb (truthy invoice)
     then throw (mkError ("Invoice " ++ to_string invoice_id
                          ++ " not found or does not belong to organization "
                          ++ to_string organization_id))
     else
     if negb (is_string (field invoice "status") "draft")
        && negb (is_string (field invoice "status") "cancelled")
     then throw (mkError ("Cannot delete invoice with status "
                          ++ to_string (field invoice "status")
                          ++ ". Only draft or cancelled invoices can be deleted."))
     else
     deleted <- delete_rows deleteError invoice_id organization_id ;;
     match deleted with
     | Some err => throw (mkError ("Failed to delete invoice: " ++ err))
     | None =>
         try_catch
           (let bucketName := CreateInvoice.default (PDF_STORAGE_BUCKET storage) "invoices" in
            let storagePath := CreateInvoice.default (PDF_STORAGE_PATH storage) "pdfs" in
            remove storage bucketName [filePath organization_id storagePath invoice_id])
           (fun storageError => ret tt) ;;
         ret (Obj [("success", Bool true)])
     end end)
    (fun error => throw error).

(** A row that the handler accepts to delete. *)
Definition deletable (row : value) : bool :=
  is_string (field row "status") "draft" || is_string (field row "status") "cancelled".

End DeleteInvoice.

Module GeneratePdf.

(** [`${invoice.number.replace(/\s+/g, '_')}.pdf`]
    (services/invoice-svc/src/handlers/generatePdf.ts, line 120). *)
Definition pdfFilename (number : string) : string :=
  Text.replace_runs "_"%char false number ++ ".pdf".

(** [`${organization_id}/${storagePath}/${pdfFilename}`], the path the
    PDF is uploaded to (generatePdf.ts, line 152). *)
Definition filePath (organization_id : value) (storagePath : string) (pdfFilename : string)
  : string :=
  to_string organization_id ++ "/" ++ storagePath ++ "/" ++ pdfFilename.

End GeneratePdf.
(* ================================================================== *)
(** ** payment-svc: invoice usage of a subscription *)
(* ================================================================== *)

Module Usage.

(** A row of [subscriptions], with its columns typed as the table has
    them: the usage is an integer, the limit an integer or [null]. *)
Record Subscription : Type := mkSubscription {
  id : string;
  organization_id : string;
  status : string;
  invoice_usage : Z;
  invoice_limit : option Z
}.

(** What incrementInvoiceUsage returns. *)
Record Incremented : Type := mkIncremented {
  success : bool;
  new_usage : Z;
  limit : option Z
}.

Definition is_hex (c : ascii) : bool :=
  let n := N_of_ascii c in
  ((48 <=? n) && (n <=? 57) || (97 <=? n) && (n <=? 102) || (65 <=? n) && (n <=? 70))%N.

Definition one_of (chars : string) (c : ascii) : bool := Text.contains c chars.

(** A string that is, character by character, in the given classes,
    from its start to its end. *)
Fixpoint in_classes (classes : list (ascii -> bool)) (s : string) : bool :=
  match classes, s with
  | [], EmptyString => true
  | class :: rest, String c s' => class c && in_classes rest s'
  | _, _ => false
  end.

(** [/^[0-9a-f]{8}-[0-9a-f]{4}-[1-5][0-9a-f]{3}-[89ab][0-9a-f]{3}-[0-9a-f]{12}$/i]
    (subscription-service.js, lines 11-14). *)
Definition isValidUUID (str : string) : bool :=
  in_classes
    (repeat is_hex 8 ++ [one_of "-"] ++ repeat is_hex 4 ++ [one_of "-"]
     ++ [one_of "12345"] ++ repeat is_hex 3 ++ [one_of "-"]
     ++ [one_of "89abAB"] ++ repeat is_hex 3 ++ [one_of "-"]
     ++ repeat is_hex 12)%list
    str.

(** [.eq('organization_id', ..).eq('status', 'active').order('created_at',
    { ascending: false }).limit(1).single()] over the rows in the order
    of their creation: the last active row of the organization. *)
Definition latest_active (organizationId : string) (rows : list Subscription)
  : option Subscription :=
  fold_left
    (fun found row =>
       if (organization_id row =? organizationId) && (status row =? "active")
       then Some row else found)
    rows None.

(** [.update({ invoice_usage }).eq('id', subscription.id)] *)
Definition update_usage (subscription_id : string) (usage : Z) (rows : list Subscription)
  : list Subscription :=
  map (fun row =>
         if id row =? subscription_id
         then mkSubscription (id row) (organization_id row) (status row) usage
                (invoice_limit row)
         else row) rows.

(** subscription-service.js, lines 422-463.  [queryError] and
    [updateError] are the errors the store answers the two calls with,
    if any. *)
Definition incrementInvoiceUsage (queryError updateError : option string)
    (organizationId : string) (count : Z) (rows : list Subscription)
  : completion Incremented * list Subscription :=
  if negb (isValidUUID organizationId)
  then (Throw (mkError ("L'identifiant organisation " ++ organizationId
                        ++ " n'est pas un UUID valide")), rows)
  else
    match queryError, latest_active organizationId rows with
    | None, Some subscription =>
        if match invoice_limit subscription with
           | Some l => (invoice_usage subscription + count >? l)%Z
           | None => false
           end
        then (Throw (mkError
                       ("Limite de factures atteinte ("
                        ++ string_of_Z (invoice_usage subscription) ++ "/"
                        ++ match invoice_limit subscription with
                           | Some l => string_of_Z l
                           | None => "null"
                           end ++ ")")), rows)
        else
          match updateError with
          | Some err =>
              (Throw (mkError ("Erreur lors de la mise " ++ String "224" "" 
                               ++ " jour de l'utilisation des factures: " ++ err)), rows)
          | None =>
              (Normal (mkIncremented true (invoice_usage subscription + count)%Z
                         (invoice_limit subscription)),
               update_usage (id subscription) (invoice_usage subscription + count)%Z rows)
          end
    | _, _ =>
        (Throw (mkError ("Abonnement non trouv" ++ String "233" ""
                         ++ " pour l'organisation: " ++ organizationId)), rows)
    end.

(** One call of incrementInvoiceUsage, with what the store answers. *)
Record Call : Type := mkCall {
  queryError : option string;
  updateError : option string;
  organizationId : string;
  count : Z
}.

(** The rows after a series of calls. *)
Definition increments (calls : list Call) (rows : list Subscription) : list Subscription :=
  fold_left
    (fun rows call =>
       snd (incrementInvoiceUsage (queryError call) (updateError call)
              (organizationId call) (count call) rows))
    calls rows.

(** Every subscription with a limit is within it. *)
Definition within_limits (rows : list Subscription) : bool :=
  forallb (fun row =>
             match invoice_limit row with
             | Some l => (invoice_usage row <=? l)%Z
             | None => true
             end) rows.

(** [s.includes(needle)] *)
Fixpoint starts_with (needle s : string) : bool :=
  match needle, s with
  | EmptyString, _ => true
  | String a needle', String b s' => Ascii.eqb a b && starts_with needle' s'
  | _, _ => false
  end.

Fixpoint includes (needle s : string) : bool :=
  starts_with needle s
  || match s with
     | EmptyString => false
     | String _ rest => includes needle rest
     end.

(** payment-svc, [for await (const msg of incrementUsageSub)]: one
    iteration.  The error envelope carries [limitReached], read off the
    error's message. *)
Definition subscription_invoice_increment
    (incrementInvoiceUsage : value -> value -> M value) (msg : Msg) : M unit :=
  try_catch
    (data <- lift (decode (data msg)) ;;
     organizationId <- lift (prop data "organizationId") ;;
     result <- incrementInvoiceUsage organizationId (or_else (field data "count") (Num 1)) ;;
     match reply_to msg with
     | Some r => publish r (encode result)
     | None => ret tt
     end)
    (fun error =>
       match reply_to msg with
       | Some r =>
           publish r
             (encode (Obj [("error", Str (message error));
                           ("limitReached",
                            Bool (includes "Limite de factures atteinte" (message error)))]))
       | None => ret tt
       end).

(** The JSON of what incrementInvoiceUsage returned, or its exception. *)
Definition answer_of (outcome : completion Incremented) : M value :=
  match outcome with
  | Normal r =>
      ret (Obj [("success", Bool (success r));
                ("new_usage", Num (new_usage r));
                ("limit", match limit r with Some l => Num l | None => Null end)])
  | Throw e => throw e
  end.

End Usage.
(* ================================================================== *)
(** ** payment-svc: handleCreatePayment and handleWebhookEvent *)
(* ================================================================== *)

Module Payments.
Import SendInvoice.

(** [interface PaymentProvider]: what the provider's three calls do,
    which may be to throw. *)
Module Provider.
Record t : Type := mk {
  createCheckoutSession : value -> M value;
  retrievePayment : value -> M value;
  handleWebhookEvent : value -> value -> M value
}.
End Provider.

(** The process state of payment-svc: the bus and the invoices as in
    [World], and the rows of [payments]. *)
Record Store : Type := mkStore {
  bus : World;
  payments : list value
}.

(** The state-and-exception monad over [Store]; a thrown exception keeps
    the effects made before it. *)
Definition MP (A : Type) : Type := Store -> completion A * Store.

Definition pret {A} (a : A) : MP A := fun s => (Normal a, s).

Definition pbind {A B} (m : MP A) (k : A -> MP B) : MP B :=
  fun s =>
    match m s with
    | (Normal a, s') => k a s'
    | (Throw e, s') => (Throw e, s')
    end.

Definition pthrow {A} (e : Error) : MP A := fun s => (Throw e, s).

Definition ptry {A} (body : MP A) (handler : Error -> MP A) : MP A :=
  fun s =>
    match body s with
    | (Normal a, s') => (Normal a, s')
    | (Throw e, s') => handler e s'
    end.

Definition plift {A} (c : completion A) : MP A := fun s => (c, s).

(** A computation on the bus and the invoices. *)
Definition on_bus {A} (m : M A) : MP A :=
  fun s => let (r, w) := m (bus s) in (r, mkStore w (payments s)).

Declare Scope pay_scope.
Delimit Scope pay_scope with pay.
Notation "x <- m ;; k" := (pbind m (fun x => k))
  (at level 61, m at next level, right associativity) : pay_scope.
Notation "m ;; k" := (pbind m (fun _ => k))
  (at level 61, right associativity) : pay_scope.
Local Open Scope pay_scope.

(** [.select(columns)]: the row cut down to the columns asked for. *)
Definition columns (names : list string) (row : value) : value :=
  Obj (map (fun name => (name, field row name)) names).

(** [from('invoices').select('id, status, customer_id, total_amount,
    currency').eq('id', ..).eq('organization_id', ..).single()] *)
Definition select_invoice_to_pay (invoice_id organization_id : value)
  : M (value * option string) :=
  fun w =>
    (Normal
       (match single (filter (DeleteInvoice.matches invoice_id organization_id)
                        (invoices w)) with
        | (row, None) =>
            (columns ["id"; "status"; "customer_id"; "total_amount"; "currency"] row, None)
        | r => r
        end), w).

(** [from('payments').insert(row)]: [insertError] is the error the store
    answers with, if any. *)
Definition insert_payment (insertError : option string) (row : value)
  : MP (option string) :=
  fun s =>
    match insertError with
    | Some err => (Normal (Some err), s)
    | None => (Normal None, mkStore (bus s) (payments s ++ [jsonify row]))
    end.

(** The parameters handed to [paymentProvider.createCheckoutSession]
    (createPayment.ts, lines 60-72). *)
Definition checkout_params (payment_id : string) (request : value) : value :=
  Obj [("invoice_id", field request "invoice_id");
       ("organization_id", field request "organization_id");
       ("customer_id", field request "customer_id");
       ("amount", field request "amount");
       ("currency", field request "currency");
       ("description", field request "description");
       ("customer_email", field request "customer_email");
       ("metadata",
        Obj (set_field "payment_id" (Str payment_id)
               (Routes.own_fields (field request "metadata"))))].

(** The row inserted into [payments] (createPayment.ts, lines 77-93). *)
Definition payment_row (payment_id : string) (request checkoutSession expires_at : value)
  : value :=
  Obj [("id", Str payment_id);
       ("invoice_id", field request "invoice_id");
       ("organization_id", field request "organization_id");
       ("customer_id", field request "customer_id");
       ("amount", field request "amount");
       ("currency", field request "currency");
       ("status", Str "pending");
       ("provider", field checkoutSession "provider");
       ("provider_payment_id", field checkoutSession "sessionId");
       ("provider_checkout_url", field checkoutSession "url");
       ("expires_at", expires_at);
       ("metadata",
        Obj (set_field "description" (field request "description")
               (Routes.own_fields (field request "metadata"))))].

(** What handleCreatePayment returns (createPayment.ts, lines 114-120). *)
Definition payment_created (payment_id : string) (checkoutSession : value) : value :=
  Obj [("payment_id", Str payment_id);
       ("checkout_url", field checkoutSession "url");
       ("session_id", field checkoutSession "sessionId");
       ("provider", field checkoutSession "provider");
       ("expires_at", field checkoutSession "expiresAt")].

(** node_modules/payment-svc/src/handlers/createPayment.ts, lines 9-125.
    [payment_id] is the uuid drawn, [toISOString] gives
    [new Date(expiresAt * 1000).toISOString()] or its RangeError. *)
Definition handleCreatePayment (provider : Provider.t) (payment_id : string)
    (toISOString : value -> completion value) (insertError : option string)
    (request : value) : MP value :=
  ptry
    (invoice_id <- plift (prop request "invoice_id") ;;
     let organization_id := field request "organization_id" in
     fetched <- on_bus (select_invoice_to_pay invoice_id organization_id) ;;
     let invoice := fst fetched in
     match snd fetched with
     | Some fetchError => pthrow (mkError ("Failed to verify invoice: " ++ fetchError))
     | None =>
     if negb (truthy invoice)
     then pthrow (mkError ("Invoice " ++ to_string invoice_id
                           ++ " not found or does not belong to organization "
                           ++ to_string organization_id))
     else
     if DeleteInvoice.is_string (field invoice "status") "paid"
     then pthrow (mkError "Cannot create payment for invoice that is already paid")
     else
     checkoutSession <-
       on_bus (Provider.createCheckoutSession provider
                 (checkout_params payment_id request)) ;;
     _ <- plift (prop checkoutSession "provider") ;;
     expires_at <- plift (toISOString (field checkoutSession "expiresAt")) ;;
     insertError <-
       insert_payment insertError
         (payment_row payment_id request checkoutSession expires_at) ;;
     match insertError with
     | Some err => pthrow (mkError ("Failed to store payment: " ++ err))
     | None =>
         _ <- on_bus (update_invoice [("status", Str "pending_payment")]
                        invoice_id organization_id) ;;
         pret (payment_created payment_id checkoutSession)
     end end)
    (fun error => pthrow error).

(** An invoice row the handler accepts to open a payment for. *)
Definition payable (row : value) : bool :=
  negb (DeleteInvoice.is_string (field row "status") "paid").

(** What the store answers to the webhook handler's writes on
    [payments]: the id it gives a new row, and its errors, if any. *)
Record Db : Type := mkDb {
  newPaymentId : string;
  paymentInsertError : option string;
  paymentUpdateError : option string
}.

(** [from('payments').select('id, invoice_id, status, organization_id,
    customer_id').eq('provider_payment_id', ..).single()]: the data; the
    error is only logged. *)
Definition select_payment (provider_payment_id : value) : MP value :=
  fun s =>
    (Normal
       (match single (filter (eq_column "provider_payment_id" provider_payment_id)
                        (payments s)) with
        | (row, None) =>
            columns ["id"; "invoice_id"; "status"; "organization_id"; "customer_id"] row
        | _ => Null
        end), s).

(** [from('invoices').select('id, organization_id, customer_id,
    total_amount, currency').eq('id', invoice_id).single()] *)
Definition select_invoice_by_id (invoice_id : value) : M (value * option string) :=
  fun w =>
    (Normal
       (match single (filter (eq_column "id" invoice_id) (invoices w)) with
        | (row, None) =>
            (columns ["id"; "organization_id"; "customer_id"; "total_amount"; "currency"]
               row, None)
        | r => r
        end), w).

(** [from('payments').insert(row).select('id').single()] *)
Definition insert_payment_returning (db : Db) (row : list (string * value))
  : MP (value * option string) :=
  fun s =>
    match paymentInsertError db with
    | Some err => (Normal (Null, Some err), s)
    | None =>
        (Normal (Obj [("id", Str (newPaymentId db))], None),
         mkStore (bus s)
           (payments s ++ [jsonify (Obj (("id", Str (newPaymentId db)) :: row))]))
    end.

(** [from('payments').update(patch).eq('id', payment_id)] *)
Definition update_payment (db : Db) (patch : list (string * value)) (payment_id : value)
  : MP (option string) :=
  fun s =>
    match paymentUpdateError db with
    | Some err => (Normal (Some err), s)
    | None =>
        (Normal None,
         mkStore (bus s)
           (map (fun row => if eq_column "id" payment_id row
                            then apply_patch patch row else row) (payments s)))
    end.

(** [from('invoices').update(patch).eq('id', invoice_id)]: by id alone. *)
Definition update_invoice_by_id (patch : list (string * value)) (invoice_id : value)
  : M (option string) :=
  fun w =>
    match update_error w with
    | Some err => (Normal (Some err), w)
    | None =>
        (Normal None,
         with_invoices
           (map (fun row => if eq_column "id" invoice_id row
                            then apply_patch patch row else row)) w)
    end.

(** [eventData] of a completed payment (handleWebhook.ts, lines 121-135). *)
Definition completed_event (now : string)
    (webhookResult paymentDetails existingPayment payment_id invoice_id : value) : value :=
  Obj [("payment_id", or_else payment_id (field webhookResult "payment_id"));
       ("invoice_id", invoice_id);
       ("status", field paymentDetails "status");
       ("amount", field paymentDetails "amount");
       ("currency", field paymentDetails "currency");
       ("provider", field paymentDetails "provider");
       ("provider_payment_id", field paymentDetails "provider_payment_id");
       ("customer_id", or_else (opt_prop existingPayment "customer_id") (Str ""));
       ("organization_id", or_else (opt_prop existingPayment "organization_id") (Str ""));
       ("event_type", field webhookResult "event_type");
       ("event_id", field webhookResult "event_id");
       ("metadata", field paymentDetails "metadata");
       ("created_at", Str now)].

(** [eventData] of a failed payment (handleWebhook.ts, lines 148-161). *)
Definition failed_event (now : string)
    (webhookResult paymentDetails payment_id invoice_id : value) : value :=
  Obj [("payment_id", or_else payment_id (field webhookResult "payment_id"));
       ("invoice_id", invoice_id);
       ("status", field paymentDetails "status");
       ("amount", field paymentDetails "amount");
       ("currency", field paymentDetails "currency");
       ("provider", field paymentDetails "provider");
       ("provider_payment_id", field paymentDetails "provider_payment_id");
       ("error", opt_prop (field webhookResult "data") "error");
       ("error_code", opt_prop (field webhookResult "data") "error_code");
       ("event_type", field webhookResult "event_type");
       ("event_id", field webhookResult "event_id");
       ("created_at", Str now)].

(** The payment record the handler ends with: the one found, the one it
    creates for a payment it did not know, or none
    (handleWebhook.ts, lines 43-102). *)
Definition record_payment (db : Db) (now : string)
    (paymentDetails existingPayment invoice_id : value) : MP value :=
  let payment_id := opt_prop existingPayment "id" in
  if negb (truthy existingPayment) && truthy invoice_id
  then
    fetched <- on_bus (select_invoice_by_id invoice_id) ;;
    let invoice := fst fetched in
    match snd fetched with
    | Some invoiceError => pret payment_id
    | None =>
        if truthy invoice
        then
          amount <- plift (prop paymentDetails "amount") ;;
          inserted <-
            insert_payment_returning db
              [("invoice_id", invoice_id);
               ("organization_id", field invoice "organization_id");
               ("customer_id", field invoice "customer_id");
               ("amount", or_else amount (field invoice "total_amount"));
               ("currency",
                or_else (field paymentDetails "currency") (field invoice "currency"));
               ("status", field paymentDetails "status");
               ("provider", field paymentDetails "provider");
               ("provider_payment_id", field paymentDetails "provider_payment_id");
               ("metadata", field paymentDetails "metadata")] ;;
          match snd inserted with
          | Some insertError => pret payment_id
          | None => plift (prop (fst inserted) "id")
          end
        else pret payment_id
    end
  else if truthy existingPayment
  then
    status <- plift (prop paymentDetails "status") ;;
    _ <- update_payment db
           [("status", status);
            ("updated_at", Str now);
            ("metadata",
             Obj (Routes.assign_fields
                    (Routes.own_fields (or_else (field existingPayment "metadata") (Obj [])))
                    (Routes.own_fields (or_else (field paymentDetails "metadata") (Obj [])))))]
           (field existingPayment "id") ;;
    pret payment_id
  else pret payment_id.

(** services/payment-svc/src/handlers/handleWebhook.ts, lines 9-186.
    [now] is the clock. *)
Definition handleWebhookEvent (provider : Provider.t) (db : Db) (now : string)
    (payload signature : value) : MP value :=
  ptry
    (webhookResult <- on_bus (Provider.handleWebhookEvent provider payload signature) ;;
     provider_payment_id <- plift (prop webhookResult "payment_id") ;;
     if negb (truthy provider_payment_id)
     then pret (Obj [("success", Bool true);
                     ("event_type", field webhookResult "event_type")])
     else
     paymentDetails <- on_bus (Provider.retrievePayment provider provider_payment_id) ;;
     existingPayment <- select_payment provider_payment_id ;;
     invoice_id <-
       (if truthy (field webhookResult "invoice_id")
        then pret (field webhookResult "invoice_id")
        else if truthy (opt_prop existingPayment "invoice_id")
        then pret (opt_prop existingPayment "invoice_id")
        else plift (prop paymentDetails "invoice_id")) ;;
     payment_id <- record_payment db now paymentDetails existingPayment invoice_id ;;
     status <- plift (prop paymentDetails "status") ;;
     (if DeleteInvoice.is_string status "succeeded" && truthy invoice_id
      then
        _ <- on_bus (update_invoice_by_id
                       [("status", Str "paid"); ("paid_at", Str now)] invoice_id) ;;
        let eventData :=
          completed_event now webhookResult paymentDetails existingPayment
            payment_id invoice_id in
        on_bus (publish "payment.completed" (encode eventData)) ;;
        on_bus (publish "payment.event"
                  (encode (Obj [("type", Str "payment.completed");
                                ("data", eventData)])))
      else if DeleteInvoice.is_string status "failed" && truthy invoice_id
      then
        let eventData :=
          failed_event now webhookResult paymentDetails payment_id invoice_id in
        on_bus (publish "payment.failed" (encode eventData)) ;;
        on_bus (publish "payment.event"
                  (encode (Obj [("type", Str "payment.failed");
                                ("data", eventData)])))
      else pret tt) ;;
     pret (Obj [("success", Bool true);
                ("event_type", field webhookResult "event_type");
                ("payment_id", or_else payment_id provider_payment_id);
                ("invoice_id", invoice_id);
                ("status", status)]))
    (fun error => pthrow error).

(** The payment row the handler finds for a provider payment id. *)
Definition found_payment (provider_payment_id : value) (s : Store) : value :=
  match single (filter (eq_column "provider_payment_id" provider_payment_id)
                  (payments s)) with
  | (row, None) =>
      columns ["id"; "invoice_id"; "status"; "organization_id"; "customer_id"] row
  | _ => Null
  end.

(** The bus and the invoices once a succeeded payment has been handled. *)
Definition completed_on_bus (now : string) (invoice_id completed : value) (w : World)
  : World :=
  emit (EPublish (mkMsg "payment.event"
                    (encode (Obj [("type", Str "payment.completed");
                                  ("data", completed)])) None))
    (emit (EPublish (mkMsg "payment.completed" (encode completed) None))
       (with_invoices
          (map (fun row =>
                  if eq_column "id" invoice_id row
                  then apply_patch [("status", Str "paid"); ("paid_at", Str now)] row
                  else row))
          w)).

End Payments.

(** A checkout for the invoice of [Sample.invoice_svc], and the event
    the provider sends once it is paid. *)
Module PaidCheckout.
Import Payments.

Definition session : value :=
  Obj [("sessionId", Str "cs_1");
       ("url", Str "https://pay.example/cs_1");
       ("provider", Str "stripe");
       ("expiresAt", Num 1718100000)].

Definition event : list (string * value) :=
  [("event_type", Str "payment_intent.succeeded");
   ("event_id", Str "evt_1");
   ("payment_id", Str "pi_1");
   ("invoice_id", Str "inv-1")].

Definition details : list (string * value) :=
  [("status", Str "succeeded"); ("amount", Num 240); ("provider", Str "stripe");
   ("provider_payment_id", Str "pi_1")].

Definition provider : Provider.t :=
  Provider.mk (fun _ => ret session) (fun _ => ret (Obj details))
    (fun _ _ => ret (Obj event)).

Definition request : value :=
  Obj [("invoice_id", Str "inv-1"); ("organization_id", Str "org-1");
       ("amount", Num 240); ("currency", Str "EUR")].

Definition db : Db := mkDb "pay-2" None None.

Definition toISOString (expiresAt : value) : completion value :=
  Normal (Str "2024-06-11T10:00:00.000Z").

Definition store : Store := mkStore Sample.invoice_svc [].

End PaidCheckout.
(* ================================================================== *)
(** ** invoice-svc: handleGetInvoice *)
(* ================================================================== *)

(** handlers/getInvoice.ts (src/unnamed/part_011).  The invoices of the
    store stand in the order of their creation, each with its joined
    [customers] row.  [pagination.page] and [pagination.limit] are given
    apart, typed as the interface types them: numbers, [None] when absent,
    [null] or [NaN]. *)
Module GetInvoice.
Import SendInvoice.

(** [n || d] on a number. *)
Definition number_or (n : option Z) (d : Z) : Z :=
  match n with
  | Some z => if (z =? 0)%Z then d else z
  | None => d
  end.

(** One of the optional filters: [if (filters.k) query = query.op(column,
    filters.k)]. *)
Definition filtered (filters : value) (k : string) (test : value -> value -> bool)
    (row : value) : bool :=
  if truthy (field filters k) then test (field filters k) row else true.

(** [.gte(column, v)] and [.lte(column, v)] on dates written as ISO
    strings. *)
Definition gte_column (column : string) (v row : value) : bool :=
  match field row column, v with
  | Str a, Str b => String.leb b a
  | _, _ => false
  end.

Definition lte_column (column : string) (v row : value) : bool :=
  match field row column, v with
  | Str a, Str b => String.leb a b
  | _, _ => false
  end.

(** The rows the list query selects, before the range is cut out:
    those of the organization that pass the filters given, newest
    first. *)
Definition selected (orgId filters : value) (rows : list value) : list value :=
  rev (filter
         (fun row =>
            eq_column "organization_id" orgId row
            && (if truthy filters
                then filtered filters "status" (eq_column "status") row
                     && filtered filters "customerId" (eq_column "customer_id") row
                     && filtered filters "startDate" (gte_column "issue_date") row
                     && filtered filters "endDate" (lte_column "issue_date") row
                else true))
         rows).

(** [.range(from, to)]: the rows at the offsets [from] to [to], both
    included, for [0 <= from <= to].  A range the store refuses is an
    error of the query, [queryError] below. *)
Definition range (from to : Z) (rows : list value) : list value :=
  firstn (Z.to_nat (to - from + 1)) (skipn (Z.to_nat from) rows).

(** [{ ...invoice, customer_name: invoice.customers?.name,
      customer_email: invoice.customers?.email }] *)
Definition with_customer (invoice : value) : value :=
  Obj (set_field "customer_email" (opt_prop (field invoice "customers") "email")
         (set_field "customer_name" (opt_prop (field invoice "customers") "name")
            (spread invoice))).

(** [Math.ceil(count / limit)] *)
Definition ceil_div (count limit : Z) : Z := (- ((- count) / limit))%Z.

(** handleGetInvoice (part_011, lines 23-115).  [queryError] is the error
    the store answers the list query with, if any. *)
Definition handleGetInvoice (page limit : option Z) (queryError : option string)
    (request : value) : M value :=
  try_catch
    (orgId <- lift (prop request "orgId") ;;
     let invoiceId := field request "invoiceId" in
     let filters := field request "filters" in
     if truthy invoiceId
     then
       fetched <- select_invoice invoiceId orgId ;;
       match snd fetched with
       | Some error => throw (mkError ("Failed to retrieve invoice: " ++ error))
       | None =>
           if negb (truthy (fst fetched))
           then throw (mkError ("Invoice " ++ to_string invoiceId ++ " not found"))
           else ret (Obj [("invoice", fst fetched)])
       end
     else
       let page := number_or page 1 in
       let limit := number_or limit 10 in
       let offset := ((page - 1) * limit)%Z in
       rows <- (fun w => (Normal (selected orgId filters (invoices w)), w)) ;;
       match queryError with
       | Some error => throw (mkError ("Failed to retrieve invoices: " ++ error))
       | None =>
           let count := Z.of_nat (length rows) in
           ret (Obj [("invoices",
                      Arr (map with_customer (range offset (offset + limit - 1) rows)));
                     ("total", Num count);
                     ("page", Num page);
                     ("limit", Num limit);
                     ("pages", Num (if (count =? 0)%Z then 0%Z else ceil_div count limit))])
       end)
    (fun error => throw error).

(** The invoices of an answer: those of the list, or the one asked
    for. *)
Definition invoices_of (result : value) : list value :=
  match field result "invoices", field result "invoice" with
  | Arr xs, _ => xs
  | _, Undefined => []
  | _, invoice => [invoice]
  end.

(** The list the handler answers for page [page], with [limit] rows a
    page. *)
Definition page_of (limit : Z) (request : value) (w : World) (page : Z) : list value :=
  match fst (handleGetInvoice (Some page) (Some limit) None request w) with
  | Normal result => invoices_of result
  | Throw _ => []
  end.

(** What the handler reports in field [k] of its answer for page
    [page], with [limit] rows a page. *)
Definition reported (k : string) (limit : Z) (request : value) (w : World) (page : Z)
  : value :=
  match fst (handleGetInvoice (Some page) (Some limit) None request w) with
  | Normal result => field result k
  | Throw _ => Undefined
  end.

(** The pages [1], ..., [n]. *)
Definition pages_upto (n : nat) : list Z := map (fun k => Z.of_nat (S k)) (seq 0 n).

End GetInvoice.
(* ================================================================== *)
(** ** Properties of the request exchanges *)
(* ================================================================== *)

Section Exchanges.
Import Correlation.

Lemma filter_length_snoc (s : string) (l : list string) :
  length (filter (String.eqb s) (l ++ [s])%list) = S (length (filter (String.eqb s) l)).
Proof.
  rewrite filter_app, length_app. simpl. rewrite String.eqb_refl. simpl. lia.
Qed.

Lemma filter_length_remove_one (s : string) (l : list string) :
  length (filter (String.eqb s) (remove_one s l))
  = pred (length (filter (String.eqb s) l)).
Proof.
  induction l as [|x l IH]; simpl; [reflexivity|].
  destruct (s =? x) eqn:E; simpl.
  - reflexivity.
  - rewrite E. exact IH.
Qed.

Lemma gateway_request_connected (requestId : string) (payload : value) (w : World) :
  client w = true ->
  mem "invoice.get.request" (broken w) = false ->
  gateway_request requestId payload w
  = (emit (EPublish (mkMsg "invoice.get.request" (encode payload) None))
       (emit (ESubscribe (invoice_get_reply_subject requestId))
          (with_subs (fun l => (l ++ [invoice_get_reply_subject requestId])%list) w)),
     mkPending Armed Open None).
Proof.
  intros Hc Hb.
  unfold gateway_request, subscribeToSubject, publishMessage, subscribe, publish.
  rewrite Hc. cbn [client emit with_log with_subs broken].
  rewrite Hc, Hb. reflexivity.
Qed.

Lemma email_request_connected (requestId : string) (emailData : value) (w : World) :
  mem "email.send.request" (broken w) = false ->
  email_request requestId emailData w
  = (emit (EPublish (mkMsg "email.send.request"
                       (encode (Obj (set_field "requestId" (Str requestId)
                                       (spread emailData)))) None))
       (emit (ESubscribe (email_reply_subject requestId))
          (with_subs (fun l => (l ++ [email_reply_subject requestId])%list) w)),
     mkPending Armed Open None).
Proof.
  intros Hb.
  unfold email_request, subscribe, publish.
  cbn [emit with_log with_subs broken]. rewrite Hb. reflexivity.
Qed.

(** [unsubscribe()] touches neither the timer nor the promise nor the
    store, and leaves no handle open. *)
Lemma release_pending (subj : string) (st : World * Pending) :
  timer (snd (release subj st)) = timer (snd st)
  /\ promise (snd (release subj st)) = promise (snd st)
  /\ sub_open (snd (release subj st)) = false
  /\ invoices (fst (release subj st)) = invoices (fst st).
Proof.
  destruct st as [w p]. unfold release, sub_open.
  destruct (handle p) eqn:E; simpl; rewrite ?E; repeat split; reflexivity.
Qed.

(** On a handle that exists, it adds its call to the log. *)
Lemma release_log (subj : string) (st : World * Pending) :
  handle (snd st) <> NoHandle ->
  log (fst (release subj st)) = (log (fst st) ++ [EUnsubscribe subj])%list
  /\ handle (snd (release subj st)) = Released.
Proof.
  destruct st as [w p]. unfold release. cbn [snd].
  destruct (handle p) eqn:E; [congruence| |]; intros _; simpl; rewrite ?E; split; reflexivity.
Qed.

Lemma promise_clearTimeout (p : Pending) : promise (clearTimeout p) = promise p.
Proof. unfold clearTimeout. destruct (timer p); reflexivity. Qed.

Lemma handle_clearTimeout (p : Pending) : handle (clearTimeout p) = handle p.
Proof. unfold clearTimeout. destruct (timer p); reflexivity. Qed.

Lemma handle_settle (o : Outcome) (p : Pending) : handle (settle o p) = handle p.
Proof. unfold settle. destruct (promise p); reflexivity. Qed.

Lemma sub_open_handle (p : Pending) : sub_open p = true -> handle p = Open.
Proof. unfold sub_open. destruct (handle p); congruence. Qed.

(** The gateway's callback on an exchange that is over (handle released,
    timer no longer armed, promise settled): [unsubscribe()] is called
    once more and nothing else changes. *)
Lemma gateway_callback_again (requestId : string) (msg : value) (w : World) (p : Pending) :
  handle p = Released ->
  timer p <> Armed ->
  promise p <> None ->
  gateway_callback requestId msg (w, p)
  = (emit (EUnsubscribe (invoice_get_reply_subject requestId)) w, p).
Proof.
  intros Hs Ht Hp. unfold gateway_callback, release, clearTimeout, settle.
  destruct p as [tm h pr]. simpl in *. subst h.
  destruct tm; [congruence| |]; simpl; destruct pr; simpl; congruence.
Qed.

(** Once the exchange is over, every reply the subscription still yields
    runs the callback again and changes nothing but the log; a deadline
    changes nothing. *)
Lemma gateway_run_over (requestId : string) (evs : list Event) :
  forall (w : World) (p : Pending),
    handle p = Released ->
    timer p <> Armed ->
    promise p <> None ->
    gateway_run requestId evs (w, p)
    = (Nat.iter (length (decodable evs))
         (emit (EUnsubscribe (invoice_get_reply_subject requestId))) w, p).
Proof.
  induction evs as [|ev evs IH]; intros w p Hs Ht Hp; [reflexivity|].
  change (gateway_run requestId (ev :: evs) (w, p))
    with (gateway_run requestId evs (gateway_step requestId (w, p) ev)).
  destruct ev as [d|].
  - cbn [gateway_step snd]. rewrite Hs. unfold decodable. cbn [flat_map].
    destruct (decode d) as [msg|e].
    + rewrite (gateway_callback_again requestId msg w p Hs Ht Hp).
      rewrite (IH _ p Hs Ht Hp). cbn [app length].
      rewrite Nat.iter_succ_r. reflexivity.
    + cbn [app]. exact (IH w p Hs Ht Hp).
  - cbn [gateway_step snd fst]. unfold decodable. cbn [flat_map app].
    pose proof (IH w p Hs Ht Hp) as R.
    destruct (timer p); [congruence| |]; exact R.
Qed.

(** Undecodable replies are skipped: the exchange stays as it is. *)
Lemma gateway_run_skips (requestId : string) (skipped : list string)
    (st : World * Pending) :
  gateway_run requestId (map (fun raw => Reply (Malformed raw)) skipped) st = st.
Proof.
  induction skipped as [|raw rest IH]; [reflexivity|].
  cbn [map]. unfold gateway_run in *. cbn [fold_left gateway_step decode].
  destruct (handle (snd st)); exact IH.
Qed.

Lemma email_run_quiet (requestId : string) (evs : list Event) (st : World * Pending) :
  sub_open (snd st) = false ->
  timer (snd st) <> Armed ->
  email_run requestId evs st = st.
Proof.
  intros Hs Ht. induction evs as [|ev evs IH]; [reflexivity|].
  unfold email_run in *. simpl.
  replace (email_step requestId st ev) with st; [exact IH|].
  destruct ev; cbn [email_step].
  - rewrite Hs. reflexivity.
  - destruct (timer (snd st)); congruence.
Qed.

Lemma reminder_run_quiet (requestId : string) (evs : list Event) (st : World * Pending) :
  sub_open (snd st) = false ->
  timer (snd st) <> Armed ->
  reminder_run requestId evs st = st.
Proof.
  intros Hs Ht. induction evs as [|ev evs IH]; [reflexivity|].
  unfold reminder_run in *. simpl.
  replace (reminder_step requestId st ev) with st; [exact IH|].
  destruct ev; cbn [reminder_step].
  - rewrite Hs. reflexivity.
  - destruct (timer (snd st)); congruence.
Qed.

Lemma reminder_request_connected (requestId : string) (emailData : value) (w : World) :
  mem "email.send.request" (broken w) = false ->
  reminder_request requestId emailData w
  = (emit (EPublish (mkMsg "email.send.request" (encode emailData) None))
       (emit (ESubscribe (email_reply_subject requestId))
          (with_subs (fun l => (l ++ [email_reply_subject requestId])%list) w)),
     mkPending Armed Open None).
Proof.
  intros Hb.
  unfold reminder_request, subscribe, publish.
  cbn [emit with_log with_subs broken]. rewrite Hb. reflexivity.
Qed.

(** A settled promise keeps its outcome whatever happens next. *)
Lemma settle_settled (o o' : Outcome) (p : Pending) :
  promise p = Some o -> promise (settle o' p) = Some o.
Proof. intros H. unfold settle. rewrite H. exact H. Qed.

Lemma gateway_step_keeps (requestId : string) (ev : Event) (st : World * Pending)
    (o : Outcome) :
  promise (snd st) = Some o ->
  promise (snd (gateway_step requestId st ev)) = Some o.
Proof.
  intros H. destruct st as [w p]. simpl in H.
  destruct ev as [d|]; cbn [gateway_step snd fst].
  - destruct (handle p); [exact H| |];
      (destruct (decode d); [|exact H];
       unfold gateway_callback; cbn [snd]; apply settle_settled;
       rewrite (proj1 (proj2 (release_pending _ _))); cbn [snd];
       rewrite promise_clearTimeout; exact H).
  - destruct (timer p) eqn:E; simpl; try exact H.
    apply settle_settled. exact H.
Qed.

Lemma email_step_keeps (requestId : string) (ev : Event) (st : World * Pending)
    (o : Outcome) :
  promise (snd st) = Some o ->
  promise (snd (email_step requestId st ev)) = Some o.
Proof.
  intros H. destruct st as [w p]. simpl in H.
  destruct ev as [d|]; cbn [email_step snd fst].
  - destruct (sub_open p); [|exact H].
    unfold email_callback. cbn [snd]. apply settle_settled.
    rewrite (proj1 (proj2 (release_pending _ _))). cbn [snd].
    rewrite promise_clearTimeout. exact H.
  - destruct (timer p) eqn:E; simpl; try exact H.
    apply settle_settled. exact H.
Qed.

Lemma gateway_run_keeps (requestId : string) (evs : list Event) :
  forall (st : World * Pending) (o : Outcome),
    promise (snd st) = Some o ->
    promise (snd (gateway_run requestId evs st)) = Some o.
Proof.
  induction evs as [|ev evs IH]; intros st o H; [exact H|].
  unfold gateway_run in *. simpl. apply IH. apply gateway_step_keeps. exact H.
Qed.

Lemma email_run_keeps (requestId : string) (evs : list Event) :
  forall (st : World * Pending) (o : Outcome),
    promise (snd st) = Some o ->
    promise (snd (email_run requestId evs st)) = Some o.
Proof.
  induction evs as [|ev evs IH]; intros st o H; [exact H|].
  unfold email_run in *. simpl. apply IH. apply email_step_keeps. exact H.
Qed.

End Exchanges.

Section ExchangeClaims.
Import Correlation.

Lemma open_on_after_request (subj : string) (e1 e2 : Effect) (w : World) :
  open_on subj (emit e1 (emit e2 (with_subs (fun l => (l ++ [subj])%list) w)))
  = S (open_on subj w).
Proof. unfold open_on. simpl. apply filter_length_snoc. Qed.

Lemma open_on_after_release (subj : string) (e1 e2 : Effect) (w : World) :
  open_on subj
    (unsubscribe subj (emit e1 (emit e2 (with_subs (fun l => (l ++ [subj])%list) w))))
  = open_on subj w.
Proof.
  unfold open_on. simpl.
  rewrite filter_length_remove_one, filter_length_snoc. reflexivity.
Qed.

(** C1 (the code departs from the claim).  When the deadline passes with
    no reply, both exchanges reject their promise with the timeout error
    and leave the reply subscription open: the handle is still live and
    the connection counts one more subscription on the reply subject
    than before the request.  Only the reply callback unsubscribes. *)
Theorem timeout_leaves_reply_subscription_open
    (requestId : string) (payload emailData : value) (w : World) :
  client w = true ->
  mem "invoice.get.request" (broken w) = false ->
  mem "email.send.request" (broken w) = false ->
  let g := gateway_run requestId [Timeout] (gateway_request requestId payload w) in
  let e := email_run requestId [Timeout] (email_request requestId emailData w) in
  (promise (snd g) = Some (Rejected gateway_timeout_error)
   /\ sub_open (snd g) = true
   /\ open_on (invoice_get_reply_subject requestId) (fst g)
      = S (open_on (invoice_get_reply_subject requestId) w))
  /\ (promise (snd e) = Some (Rejected email_timeout_error)
      /\ sub_open (snd e) = true
      /\ open_on (email_reply_subject requestId) (fst e)
         = S (open_on (email_reply_subject requestId) w)).
Proof.
  intros Hc Hg He. cbv zeta.
  rewrite (gateway_request_connected requestId payload w Hc Hg).
  rewrite (email_request_connected requestId emailData w He).
  unfold gateway_run, email_run. cbn [fold_left gateway_step email_step snd fst timer].
  repeat split; try reflexivity; apply open_on_after_request.
Qed.

Lemma timeout_leaves_reply_subscription_open_witness :
  client Sample.idle = true
  /\ (let g := gateway_run "r1" [Timeout] (gateway_request "r1" Null Sample.idle) in
      promise (snd g) = Some (Rejected gateway_timeout_error)
      /\ sub_open (snd g) = true
      /\ open_on (invoice_get_reply_subject "r1") (fst g) = 1).
Proof.
  split; [reflexivity|].
  exact (proj1 (timeout_leaves_reply_subscription_open "r1" Null Null Sample.idle
                  eq_refl eq_refl eq_refl)).
Defined.

End ExchangeClaims.

Section ReplyDelivery.
Import Correlation Worker SendInvoice.

Lemma log_after_request (e1 e2 : Effect) (f : list string -> list string) (w : World) :
  log (emit e2 (emit e1 (with_subs f w))) = (log w ++ [e1; e2])%list.
Proof. simpl. rewrite <- app_assoc. reflexivity. Qed.

(** The request the gateway publishes carries no reply address, so the
    invoice-svc loop answers on the subject built from its [requestId]:
    the very subject the gateway subscribed to. *)
Lemma worker_answers_on_gateway_subject
    (requestId : string) (orgId status page limit result : value) (svc : World) :
  (requestId =? "") = false ->
  broken svc = [] ->
  for_await (invoice_get_request (Sample.answering result))
    [mkMsg "invoice.get.request"
       (encode (invoice_get_payload requestId orgId status page limit)) None] svc
  = (Waiting,
     emit (EPublish (mkMsg (invoice_get_reply_subject requestId) (encode result) None)) svc).
Proof.
  intros Hid Hb.
  unfold for_await, invoice_get_request, try_catch, bind, lift, Sample.answering, ret.
  cbn [data decode encode reply_to reply].
  assert (P : prop (jsonify (invoice_get_payload requestId orgId status page limit))
                "requestId" = Normal (Str requestId)) by reflexivity.
  rewrite P. cbn [truthy]. rewrite Hid. cbn [negb when to_string].
  unfold publish. rewrite Hb. reflexivity.
Qed.

(** The first reply, on each exchange as it stands after the request:
    the gateway's callback resolves with the decoded message; the
    callback of handleSendInvoice finds [null] in its parameter and
    rejects with the TypeError of [msg.data]. *)
Lemma gateway_first_reply (requestId : string) (msg : value) (w : World) :
  gateway_callback requestId msg (w, mkPending Armed Open None)
  = (unsubscribe (invoice_get_reply_subject requestId) w,
     mkPending Cleared Released (Some (Resolved msg))).
Proof. reflexivity. Qed.

Lemma reminder_first_reply (requestId : string) (d : wire) (w : World) :
  reminder_step requestId (w, mkPending Armed Open None) (Reply d)
  = (unsubscribe (email_reply_subject requestId) w,
     mkPending Cleared Released (Some (email_outcome (Message d)))).
Proof. reflexivity. Qed.

Lemma email_first_reply (requestId : string) (d : wire) (w : World) :
  email_step requestId (w, mkPending Armed Open None) (Reply d)
  = (unsubscribe (email_reply_subject requestId) w,
     mkPending Cleared Released
       (Some (Rejected (mkError "Cannot read properties of null (reading 'data')")))).
Proof. reflexivity. Qed.

(** C3 (the code departs from the claim).  The executors of the gateway
    and of handleSendInvoice subscribe to the reply subject and only
    then publish the request.  In the gateway a reply that decodes
    resolves the promise with its payload and cancels the timer,
    whatever comes later; so does, in the reminder's exchange with the
    same worker, a reply whose [error] field is not truthy.  In
    handleSendInvoice no reply does: the client calls the callback as
    [callback(err, msg)], the callback names one parameter, [msg], and
    reads [msg.data] from what is the [null] error; so every reply
    arriving before the deadline, whatever its payload, cancels the
    timer, releases the handle and rejects the promise with that
    TypeError, and the awaiting handler gets the TypeError thrown, never
    the payload. *)
Theorem reply_in_time_rejects_email_request
    (requestId : string) (payload emailData : value) (w : World)
    (d : wire) (later : list Event) :
  client w = true ->
  mem "invoice.get.request" (broken w) = false ->
  mem "email.send.request" (broken w) = false ->
  let g0 := gateway_request requestId payload w in
  let e0 := email_request requestId emailData w in
  let e := email_run requestId (Reply d :: later) e0 in
  let type_error := mkError "Cannot read properties of null (reading 'data')" in
  log (fst g0)
  = (log w ++ [ESubscribe (invoice_get_reply_subject requestId);
               EPublish (mkMsg "invoice.get.request" (encode payload) None)])%list
  /\ log (fst e0)
     = (log w ++ [ESubscribe (email_reply_subject requestId);
                  EPublish (mkMsg "email.send.request"
                              (encode (Obj (set_field "requestId" (Str requestId)
                                              (spread emailData)))) None)])%list
  /\ (forall v,
         let g := gateway_run requestId (Reply (Json v) :: later) g0 in
         promise (snd g) = Some (Resolved v) /\ timer (snd g) = Cleared)
  /\ (forall response err,
         prop response "error" = Normal err ->
         truthy err = false ->
         let r := reminder_run requestId (Reply (Json response) :: later)
                    (reminder_request requestId emailData w) in
         promise (snd r) = Some (Resolved response) /\ timer (snd r) = Cleared)
  /\ promise (snd e) = Some (Rejected type_error)
  /\ (forall response, promise (snd e) <> Some (Resolved response))
  /\ timer (snd e) = Cleared
  /\ sub_open (snd e) = false
  /\ fst (await_email requestId emailData (Reply d :: later) w) = Throw type_error.
Proof.
  intros Hc Hg He. cbv zeta. unfold await_email.
  rewrite (gateway_request_connected requestId payload w Hc Hg).
  rewrite (email_request_connected requestId emailData w He).
  assert (E : forall evs,
             email_run requestId (Reply d :: evs)
               (emit (EPublish (mkMsg "email.send.request"
                                  (encode (Obj (set_field "requestId" (Str requestId)
                                                  (spread emailData)))) None))
                  (emit (ESubscribe (email_reply_subject requestId))
                     (with_subs (fun l => (l ++ [email_reply_subject requestId])%list) w)),
                mkPending Armed Open None)
             = (unsubscribe (email_reply_subject requestId)
                  (emit (EPublish (mkMsg "email.send.request"
                                     (encode (Obj (set_field "requestId" (Str requestId)
                                                     (spread emailData)))) None))
                     (emit (ESubscribe (email_reply_subject requestId))
                        (with_subs (fun l => (l ++ [email_reply_subject requestId])%list)
                           w))),
                mkPending Cleared Released
                  (Some (Rejected
                           (mkError "Cannot read properties of null (reading 'data')"))))).
  { intros evs.
    change (email_run requestId (Reply d :: evs) ?st)
      with (email_run requestId evs (email_step requestId st (Reply d))).
    rewrite email_first_reply.
    apply email_run_quiet; [reflexivity | discriminate]. }
  split; [apply log_after_request|].
  split; [apply log_after_request|].
  split.
  { intros v.
    change (gateway_run requestId (Reply (Json v) :: later) ?st)
      with (gateway_run requestId later (gateway_callback requestId v st)).
    rewrite gateway_first_reply.
    rewrite gateway_run_over by (first [reflexivity | discriminate]).
    split; reflexivity. }
  split.
  { intros response err P F.
    rewrite (reminder_request_connected requestId emailData w He).
    change (reminder_run requestId (Reply (Json response) :: later) ?st)
      with (reminder_run requestId later (reminder_step requestId st (Reply (Json response)))).
    rewrite reminder_first_reply.
    rewrite reminder_run_quiet by (first [reflexivity | discriminate]).
    unfold email_outcome. cbn [data_of decode snd promise timer].
    rewrite P, F. split; reflexivity. }
  rewrite E.
  split; [reflexivity|].
  split; [intros response; discriminate|].
  split; [reflexivity|].
  split; [reflexivity|].
  change ((Reply d :: later) ++ [Timeout])%list with (Reply d :: (later ++ [Timeout]))%list.
  rewrite E. reflexivity.
Qed.

(** The reply of a worker that sent the email, [{ messageId: ... }],
    arriving at once: the exchange rejects. *)
Lemma reply_in_time_rejects_email_request_witness :
  client Sample.idle = true
  /\ promise (snd (email_run "r1"
                     [Reply (encode (Obj [("messageId", Str "m-1")]))]
                     (email_request "r1" (Obj [("to", Str "billing@acme.com")])
                        Sample.idle)))
     = Some (Rejected (mkError "Cannot read properties of null (reading 'data')")).
Proof.
  split; [reflexivity|].
  exact (proj1 (proj2 (proj2 (proj2 (proj2
           (reply_in_time_rejects_email_request "r1" Null
              (Obj [("to", Str "billing@acme.com")]) Sample.idle
              (encode (Obj [("messageId", Str "m-1")])) []
              eq_refl eq_refl eq_refl)))))).
Defined.

End ReplyDelivery.

(* ================================================================== *)
(** ** Properties of the worker loops *)
(* ================================================================== *)

Section Workers.
Import Worker.

Lemma published_snoc (l : list Effect) (m : Msg) :
  published (l ++ [EPublish m]) = (published l ++ [m])%list.
Proof.
  induction l as [|e l IH]; [reflexivity|].
  destruct e; simpl; rewrite IH; reflexivity.
Qed.

Lemma publish_healthy (subj : string) (d : wire) (w : World) :
  broken w = [] ->
  publish subj d w = (Normal tt, emit (EPublish (mkMsg subj d None)) w).
Proof. intros H. unfold publish. rewrite H. reflexivity. Qed.

Lemma publish_open (subj : string) (d : wire) (w : World) :
  mem subj (broken w) = false ->
  publish subj d w = (Normal tt, emit (EPublish (mkMsg subj d None)) w).
Proof. intros H. unfold publish. rewrite H. reflexivity. Qed.

Lemma reply_to_some (subj r : string) (d : wire) :
  (r =? "") = false -> reply_to (mkMsg subj d (Some r)) = Some r.
Proof. intros H. unfold reply_to. simpl. rewrite H. reflexivity. Qed.

(** C2 (the code departs from the claim).  A payload that is not JSON
    ends the email-svc loop: the decode in the try throws, the catch block
    decodes again outside any try and throws in turn, nothing is published
    (even with a reply address), and the messages behind it are never
    consumed. *)
Theorem email_loop_ends_on_undecodable_payload
    (handleSendEmail : Handler) (raw : string) (replyTo : option string)
    (rest : list Msg) (w : World) :
  for_await (email_send_request handleSendEmail)
    (mkMsg "email.send.request" (Malformed raw) replyTo :: rest) w
  = (Ended (mkError "Bad JSON") rest, w).
Proof. reflexivity. Qed.

(** The sibling loop of invoice-svc guards that second decode: on a
    connection whose publish works, no message ends it. *)
Lemma invoice_get_iteration_completes (h : value -> completion value) (msg : Msg)
    (w : World) :
  broken w = [] ->
  exists w', invoice_get_request (fun d => lift (h d)) msg w = (Normal tt, w')
             /\ broken w' = [].
Proof.
  intros Hb.
  unfold invoice_get_request, try_catch, bind, lift, when.
  destruct (decode (data msg)) as [d|e] eqn:Ed.
  - destruct (h d) as [result|e].
    + destruct (reply_to msg) as [r|].
      * rewrite (publish_healthy _ _ _ Hb). eauto.
      * destruct (prop d "requestId") as [rid|e].
        -- destruct (truthy rid).
           ++ rewrite (publish_healthy _ _ _ Hb). eauto.
           ++ unfold ret. eauto.
        -- destruct (truthy d && truthy (field d "requestId")).
           ++ rewrite (publish_healthy _ _ _ Hb). eauto.
           ++ unfold ret. eauto.
    + destruct (reply_to msg) as [r|].
      * rewrite (publish_healthy _ _ _ Hb). eauto.
      * destruct (truthy d && truthy (field d "requestId")).
        -- rewrite (publish_healthy _ _ _ Hb). eauto.
        -- unfold ret. eauto.
  - destruct (reply_to msg) as [r|].
    + rewrite (publish_healthy _ _ _ Hb). eauto.
    + unfold ret. eauto.
Qed.

Lemma invoice_get_loop_keeps_waiting (h : value -> completion value) (msgs : list Msg) :
  forall w, broken w = [] ->
            fst (for_await (invoice_get_request (fun d => lift (h d))) msgs w) = Waiting.
Proof.
  induction msgs as [|msg msgs IH]; intros w Hb; [reflexivity|].
  destruct (invoice_get_iteration_completes h msg w Hb) as [w' [E Hb']].
  simpl. rewrite E. apply IH. exact Hb'.
Qed.

End Workers.

Section Envelopes.
Import Worker.


(** The event step throws and leaves the state as it was, or publishes
    the event and nothing else. *)
Lemma publish_invoice_created_cases (data result : value) (w : World) :
  (exists e, publish_invoice_created data result w = (Throw e, w))
  \/ (exists event,
         publish_invoice_created data result w
         = (Normal tt, emit (EPublish (mkMsg "invoice.created" event None)) w)).
Proof.
  unfold publish_invoice_created, bind, lift.
  destruct (prop result "id") as [i|e]; [|left; eauto].
  destruct (prop data "organization_id") as [o|e]; [|left; eauto].
  unfold publish. destruct (mem "invoice.created" (broken w)); [left|right]; eauto.
Qed.

(** C7 (as amended).  For an [invoice.create] message with a reply
    address, on a connection that can publish to it: when decoding or the
    handler throws, the one message sent is the error envelope on the
    reply address; when the handler returns and the event step completes,
    the reply envelope is followed by the [invoice.created] event; when
    the handler returns and the event step throws, the reply envelope is
    followed by a second envelope, [{ error }], on the same address. *)
Theorem invoice_create_envelopes
    (h : value -> completion value) (d : wire) (r : string) (w : World) :
  (r =? "") = false ->
  mem r (broken w) = false ->
  let msg := mkMsg "invoice.create" d (Some r) in
  let after := log (snd (invoice_create (fun x => lift (h x)) msg w)) in
  let answer v := EPublish (mkMsg r (encode v) None) in
  match decode d with
  | Throw e => after = (log w ++ [answer (error_envelope e)])%list
  | Normal data =>
      match h data with
      | Throw e => after = (log w ++ [answer (error_envelope e)])%list
      | Normal result =>
          match fst (publish_invoice_created data result (emit (answer result) w)) with
          | Normal _ =>
              exists event,
                after = (log w ++ [answer result;
                                   EPublish (mkMsg "invoice.created" event None)])%list
          | Throw e =>
              after = (log w ++ [answer result; answer (error_envelope e)])%list
          end
      end
  end.
Proof.
  intros Hr Hb. cbv zeta.
  unfold invoice_create, try_catch, bind, lift.
  rewrite (reply_to_some _ _ _ Hr). cbn [data].
  destruct (decode d) as [data|e].
  - destruct (h data) as [result|e].
    + rewrite (publish_open _ _ _ Hb).
      destruct (publish_invoice_created_cases data result
                  (emit (EPublish (mkMsg r (encode result) None)) w))
        as [[e E]|[event E]]; rewrite E; cbn [fst snd].
      * rewrite (publish_open r _ (emit _ w) Hb). cbn [snd].
        simpl. rewrite <- app_assoc. reflexivity.
      * exists event. simpl. rewrite <- app_assoc. reflexivity.
    + rewrite (publish_open _ _ _ Hb). reflexivity.
  - rewrite (publish_open _ _ _ Hb). reflexivity.
Qed.

Lemma invoice_create_envelopes_witness :
  mem "_INBOX.7" (broken Sample.idle) = false
  /\ exists event,
      log (snd (invoice_create (fun x => lift (Normal (Obj [("id", Str "inv-1")])))
                  (mkMsg "invoice.create" (Json (Obj [("organization_id", Str "org-1")]))
                     (Some "_INBOX.7"))
                  Sample.idle))
      = [EPublish (mkMsg "_INBOX.7" (Json (Obj [("id", Str "inv-1")])) None);
         EPublish (mkMsg "invoice.created" event None)].
Proof.
  split; [reflexivity|].
  exact (invoice_create_envelopes (fun _ => Normal (Obj [("id", Str "inv-1")]))
           (Json (Obj [("organization_id", Str "org-1")])) "_INBOX.7" Sample.idle
           eq_refl eq_refl).
Defined.

(** C7, as stated, fails: the handler returns, the reply is published,
    the publish of [invoice.created] throws, and the catch block sends a
    second envelope to the reply address. *)
Lemma failed_event_publish_sends_second_envelope :
  let w := mkWorld true false ["invoice.create"] ["invoice.created"] [] [] [] None in
  let result := Obj [("id", Str "inv-1"); ("total_amount", Num 240)] in
  let msg := mkMsg "invoice.create"
               (Json (Obj [("customer_id", Str "c1"); ("organization_id", Str "org-1")]))
               (Some "_INBOX.7") in
  let after := log (snd (invoice_create (Sample.answering result) msg w)) in
  sent_to "_INBOX.7" after
  = [encode result;
     encode (error_envelope (mkError "publish failed: invoice.created"))]
  /\ length (sent_to "_INBOX.7" after) <> 1.
Proof. split; [reflexivity | discriminate]. Qed.

(** The same second envelope when the failure is in building the event:
    a handler result of [null] makes [result.id] throw. *)
Example null_result_sends_second_envelope :
  let msg := mkMsg "invoice.create" (Json (Obj [("organization_id", Str "org-1")]))
               (Some "_INBOX.7") in
  sent_to "_INBOX.7" (log (snd (invoice_create (Sample.answering Null) msg Sample.idle)))
  = [Json Null;
     encode (error_envelope (mkError "Cannot read properties of null (reading 'id')"))].
Proof. reflexivity. Qed.

End Envelopes.

Section Conventions.
Import Worker.





End Conventions.

(* ================================================================== *)
(** ** Shutdown *)
(* ================================================================== *)

Section Shutdown.
Import Lifecycle.

Lemma unsubscribe_all_log (subscriptions : list string) :
  forall w,
    log (fold_left (fun w sub => unsubscribe sub w) subscriptions w)
    = (log w ++ map EUnsubscribe subscriptions)%list.
Proof.
  induction subscriptions as [|sub rest IH]; intros w; simpl.
  - rewrite app_nil_r. reflexivity.
  - rewrite IH. simpl. rewrite <- app_assoc. reflexivity.
Qed.

Lemma shutdown_begin_log (subscriptions : list string) (w : World) :
  log (shutdown_begin subscriptions w)
  = (log w ++ map EUnsubscribe subscriptions ++ [EClose])%list.
Proof.
  unfold shutdown_begin. simpl. rewrite unsubscribe_all_log, app_assoc. reflexivity.
Qed.

Lemma unsubscribe_calls_app (subj : string) (l1 l2 : list Effect) :
  unsubscribe_calls subj (l1 ++ l2) = unsubscribe_calls subj l1 + unsubscribe_calls subj l2.
Proof. unfold unsubscribe_calls. rewrite filter_app, length_app. reflexivity. Qed.

Lemma close_calls_app (l1 l2 : list Effect) :
  close_calls (l1 ++ l2) = close_calls l1 + close_calls l2.
Proof. unfold close_calls. rewrite filter_app, length_app. reflexivity. Qed.

Lemma unsubscribe_calls_sweep (subj : string) (subscriptions : list string) :
  unsubscribe_calls subj (map EUnsubscribe subscriptions)
  = length (filter (fun s => s =? subj) subscriptions).
Proof.
  unfold unsubscribe_calls.
  induction subscriptions as [|s rest IH]; simpl; [reflexivity|].
  destruct (s =? subj); simpl; rewrite IH; reflexivity.
Qed.

Lemma close_calls_sweep (subscriptions : list string) :
  close_calls (map EUnsubscribe subscriptions) = 0.
Proof.
  unfold close_calls. induction subscriptions as [|s rest IH]; simpl; [reflexivity | exact IH].
Qed.

(** C5 (as amended).  A second signal while the first shutdown awaits
    [close()] runs the whole sequence again: there is no exception path,
    and the bus ends as after one run (nothing subscribed, connection
    closed, the process exits with code 0 when the close settles), but
    [unsubscribe()] has been called twice on every tracked handle and
    [close()] twice on the connection. *)
Theorem shutdown_twice_repeats_every_call (subscriptions : list string) (s : Service) :
  process s = Running ->
  let s1 := run subscriptions [Signal] s in
  let s2 := run subscriptions [Signal; Signal] s in
  let tracked subj := length (filter (fun x => x =? subj) subscriptions) in
  subs (world s1) = [] /\ closed (world s1) = true
  /\ subs (world s2) = [] /\ closed (world s2) = true
  /\ process s2 = Running
  /\ process (run subscriptions [Signal; Signal; CloseSettled] s) = Exited 0
  /\ close_calls (log (world s2)) = close_calls (log (world s)) + 2
  /\ forall subj,
       unsubscribe_calls subj (log (world s2))
       = unsubscribe_calls subj (log (world s)) + 2 * tracked subj.
Proof.
  intros Hp. cbv zeta. unfold run. cbn [fold_left]. unfold step.
  rewrite Hp. cbn [process world closing].
  repeat split.
  - rewrite !shutdown_begin_log, !close_calls_app, !close_calls_sweep.
    change (close_calls [EClose]) with 1. lia.
  - intros subj.
    rewrite !shutdown_begin_log, !unsubscribe_calls_app, !unsubscribe_calls_sweep.
    change (unsubscribe_calls subj [EClose]) with 0. lia.
Qed.

Lemma shutdown_twice_repeats_every_call_witness :
  process (mkService Sample.invoice_svc 0 Running) = Running
  /\ close_calls
       (log (world (run ["invoice.send"] [Signal; Signal]
                      (mkService Sample.invoice_svc 0 Running)))) = 2.
Proof.
  split; [reflexivity|].
  exact (proj1 (proj2 (proj2 (proj2 (proj2 (proj2 (proj2
           (shutdown_twice_repeats_every_call ["invoice.send"]
              (mkService Sample.invoice_svc 0 Running) eq_refl)))))))).
Defined.

(** C5, as stated, fails: with the five invoice-svc subscriptions, a
    second signal before the first [close()] settles calls
    [unsubscribe()] again on each handle, all of them already
    unsubscribed, and [close()] again on the connection already closed. *)
Lemma second_signal_unsubscribes_and_closes_again :
  let start := mkService (mkWorld true false invoice_svc_subscriptions [] [] [] [] None)
                 0 Running in
  let after := log (world (run invoice_svc_subscriptions [Signal; Signal] start)) in
  after = (map EUnsubscribe invoice_svc_subscriptions ++ [EClose]
           ++ map EUnsubscribe invoice_svc_subscriptions ++ [EClose])%list
  /\ unsubscribe_calls "invoice.create" after = 2
  /\ close_calls after = 2
  /\ ~ (unsubscribe_calls "invoice.create" after <= 1 /\ close_calls after <= 1).
Proof.
  cbv zeta. repeat split; try reflexivity.
  intros [H _]. vm_compute in H. lia.
Qed.

End Shutdown.

(* ================================================================== *)
(** ** Invoice totals *)
(* ================================================================== *)

Section Totals.
Import CreateInvoice.






End Totals.

(* ================================================================== *)
(** ** Awaiting an exchange *)
(* ================================================================== *)

Section Awaiting.
Import Correlation.

Lemma settle_not_pending (o : Outcome) (p : Pending) : promise (settle o p) <> None.
Proof. unfold settle. destruct (promise p) eqn:E; simpl; congruence. Qed.

Lemma email_step_covers (requestId : string) (st : World * Pending) (ev : Event) :
  timer_covers (snd st) -> timer_covers (snd (email_step requestId st ev)).
Proof.
  intros H. destruct st as [w p]. unfold timer_covers in *. simpl in *.
  destruct ev as [d|]; cbn [email_step snd fst].
  - destruct (sub_open p); [|exact H].
    unfold email_callback. cbn [snd].
    intros N. exfalso. exact (settle_not_pending _ _ N).
  - destruct (timer p) eqn:E; simpl.
    + intros N. exfalso. exact (settle_not_pending _ _ N).
    + intros N. specialize (H N). congruence.
    + intros N. specialize (H N). congruence.
Qed.

Lemma gateway_step_covers (requestId : string) (st : World * Pending) (ev : Event) :
  timer_covers (snd st) -> timer_covers (snd (gateway_step requestId st ev)).
Proof.
  intros H. destruct st as [w p]. unfold timer_covers in *. simpl in *.
  destruct ev as [d|]; cbn [gateway_step snd fst].
  - destruct (handle p); [exact H| |];
      (destruct (decode d); [|exact H];
       unfold gateway_callback; cbn [snd];
       intros N; exfalso; exact (settle_not_pending _ _ N)).
  - destruct (timer p) eqn:E; simpl.
    + intros N. exfalso. exact (settle_not_pending _ _ N).
    + intros N. specialize (H N). congruence.
    + intros N. specialize (H N). congruence.
Qed.

Lemma email_deadline_settles (requestId : string) (evs : list Event) :
  forall st, timer_covers (snd st) ->
             promise (snd (email_run requestId (evs ++ [Timeout]) st)) <> None.
Proof.
  induction evs as [|ev evs IH]; intros st H.
  - unfold email_run. simpl. destruct (timer (snd st)) eqn:E; simpl.
    + apply settle_not_pending.
    + intros N. apply H in N. congruence.
    + intros N. apply H in N. congruence.
  - apply (IH (email_step requestId st ev)). apply email_step_covers. exact H.
Qed.

Lemma gateway_deadline_settles (requestId : string) (evs : list Event) :
  forall st, timer_covers (snd st) ->
             promise (snd (gateway_run requestId (evs ++ [Timeout]) st)) <> None.
Proof.
  induction evs as [|ev evs IH]; intros st H.
  - unfold gateway_run. simpl. destruct (timer (snd st)) eqn:E; simpl.
    + apply settle_not_pending.
    + intros N. apply H in N. congruence.
    + intros N. apply H in N. congruence.
  - apply (IH (gateway_step requestId st ev)). apply gateway_step_covers. exact H.
Qed.

(** Every awaited exchange is settled once its deadline has passed. *)
Lemma email_await_settled (requestId : string) (data : value) (evs : list Event)
    (w : World) :
  promise (snd (email_run requestId (evs ++ [Timeout]) (email_request requestId data w)))
  <> None.
Proof.
  apply email_deadline_settles. unfold email_request, timer_covers.
  destruct (subscribe (email_reply_subject requestId) w) as [c w1].
  destruct (publish _ _ w1) as [[u|e] w2]; reflexivity.
Qed.

Lemma gateway_await_settled (requestId : string) (payload : value) (evs : list Event)
    (w : World) :
  promise (snd (gateway_run requestId (evs ++ [Timeout])
                  (gateway_request requestId payload w)))
  <> None.
Proof.
  apply gateway_deadline_settles. unfold gateway_request, timer_covers.
  destruct (subscribeToSubject _ w) as [[u|e] w1]; [|reflexivity].
  destruct (publishMessage _ _ w1) as [[u'|e] w2]; reflexivity.
Qed.

(** The events of an exchange never touch the store and only add to the
    log. *)
Lemma email_run_world (requestId : string) (evs : list Event) :
  forall st,
    invoices (fst (email_run requestId evs st)) = invoices (fst st)
    /\ exists later, log (fst (email_run requestId evs st)) = (log (fst st) ++ later)%list.
Proof.
  induction evs as [|ev evs IH]; intros st.
  - split; [reflexivity|]. exists []. simpl. rewrite app_nil_r. reflexivity.
  - destruct (IH (email_step requestId st ev)) as [Hi [later Hl]].
    change (email_run requestId (ev :: evs) st)
      with (email_run requestId evs (email_step requestId st ev)).
    rewrite Hi, Hl. destruct st as [w p].
    destruct ev as [d|]; cbn [email_step snd fst].
    + destruct (sub_open p) eqn:O; cbn [fst].
      * unfold email_callback. cbn [fst].
        destruct (release_pending (email_reply_subject requestId) (w, clearTimeout p))
          as [_ [_ [_ I]]].
        destruct (release_log (email_reply_subject requestId) (w, clearTimeout p))
          as [L _].
        { cbn [snd]. rewrite handle_clearTimeout, (sub_open_handle p O). discriminate. }
        rewrite L, I. cbn [fst]. split; [reflexivity|].
        eexists. rewrite <- app_assoc. reflexivity.
      * split; [reflexivity|]. eauto.
    + destruct (timer p); simpl; split; eauto.
Qed.

End Awaiting.

(* ================================================================== *)
(** ** handleSendInvoice and the development fallback *)
(* ================================================================== *)

Section Sending.
Import Correlation SendInvoice Gateway Worker.

Lemma try_catch_rethrow {A} (m : M A) (w : World) :
  try_catch m (fun error => throw error) w = m w.
Proof. unfold try_catch, throw. destruct (m w) as [[a|e] w']; reflexivity. Qed.

Lemma lookup_set_field_same (k : string) (v : value) (fields : list (string * value)) :
  lookup k (set_field k v fields) = v.
Proof.
  induction fields as [|[k' v'] rest IH]; simpl.
  - rewrite String.eqb_refl. reflexivity.
  - destruct (k =? k') eqn:E; simpl.
    + rewrite String.eqb_refl. reflexivity.
    + rewrite E. exact IH.
Qed.

Lemma lookup_set_field_other (k k' : string) (v : value) (fields : list (string * value)) :
  (k =? k') = false ->
  lookup k (set_field k' v fields) = lookup k fields.
Proof.
  intros N. induction fields as [|[k2 v2] rest IH]; simpl.
  - rewrite N. reflexivity.
  - destruct (k' =? k2) eqn:E; simpl.
    + apply String.eqb_eq in E. subst k2. rewrite N. reflexivity.
    + destruct (k =? k2); [reflexivity | exact IH].
Qed.

(** A sendable request goes through the checks and the update, and what
    is left is the email exchange, run on the updated store. *)
Lemma handleSendInvoice_sendable (env : Env) (evs : list Event)
    (request : value) (w : World) (invoice organization : value) :
  sendable request w invoice organization ->
  handleSendInvoice env evs request w
  = send_email env evs invoice
      (emailData invoice organization (email_template_of request)
         (or_else (field request "pdf_url") (field invoice "pdf_url")))
      (with_invoices (marked_sent env request)
         (emit (EUpdateInvoice (field request "invoice_id")
                  (field request "organization_id") (sent_patch env)) w)).
Proof.
  intros [Hreq [Hrow [Hinv [Hpdf [Hmail [[row [Horg Eorg]] Hupd]]]]]].
  unfold handleSendInvoice. rewrite try_catch_rethrow.
  unfold bind at 1. unfold lift at 1. rewrite Hreq.
  unfold bind at 1. unfold select_invoice. rewrite Hrow. cbn [single fst snd].
  rewrite Hinv, Hpdf, Hmail. cbn [negb].
  unfold bind at 1. unfold select_organization. rewrite Horg. cbn [single fst snd].
  unfold bind at 1. unfold update_invoice. rewrite Hupd.
  subst organization. reflexivity.
Qed.

(** C10.  For a sendable request in production whose email exchange
    fails (the deadline, a reply, or a publish that throws):
    handleSendInvoice throws that error; the store keeps the update, the
    invoice row standing with status 'sent' and its sent_at; and in the
    log the update call comes first, before the reply subscription and
    the publish of [email.send.request]. *)
Theorem invoice_stays_sent_when_email_fails (env : Env) (evs : list Event)
    (request : value) (w : World) (invoice organization : value) (e : Error) :
  sendable request w invoice organization ->
  not_production env = false ->
  mem "email.send.request" (broken w) = false ->
  let requestId := fresh_request_id env in
  let data := emailData invoice organization (email_template_of request)
                (or_else (field request "pdf_url") (field invoice "pdf_url")) in
  let update := EUpdateInvoice (field request "invoice_id")
                  (field request "organization_id") (sent_patch env) in
  fst (await_email requestId data evs
         (with_invoices (marked_sent env request) (emit update w))) = Throw e ->
  let out := handleSendInvoice env evs request w in
  fst out = Throw e
  /\ invoices (snd out) = marked_sent env request (invoices w)
  /\ In (apply_patch (sent_patch env) invoice) (invoices (snd out))
  /\ field (apply_patch (sent_patch env) invoice) "status" = Str "sent"
  /\ field (apply_patch (sent_patch env) invoice) "sent_at" = Str (now_iso env)
  /\ exists later,
       log (snd out)
       = (log w ++ update
            :: ESubscribe (email_reply_subject requestId)
            :: EPublish (mkMsg "email.send.request"
                           (encode (Obj (set_field "requestId" (Str requestId)
                                           (spread data)))) None)
            :: later)%list.
Proof.
  intros Hs Hprod Hb. cbv zeta. intros Hfail.
  rewrite (handleSendInvoice_sendable env evs request w invoice organization Hs).
  unfold send_email, try_catch, bind.
  remember (with_invoices (marked_sent env request)
              (emit (EUpdateInvoice (field request "invoice_id")
                       (field request "organization_id") (sent_patch env)) w)) as w1.
  remember (emailData invoice organization (email_template_of request)
              (or_else (field request "pdf_url") (field invoice "pdf_url"))) as data.
  destruct (await_email (fresh_request_id env) data evs w1) as [[response|error] w2] eqn:Ea.
  { simpl in Hfail. discriminate. }
  simpl in Hfail. injection Hfail as ->.
  rewrite Hprod. unfold throw. cbn [fst snd].
  assert (W2 : invoices w2 = invoices w1
               /\ exists later,
                   log w2 = (log w1
                             ++ ESubscribe (email_reply_subject (fresh_request_id env))
                             :: EPublish (mkMsg "email.send.request"
                                            (encode (Obj (set_field "requestId"
                                                            (Str (fresh_request_id env))
                                                            (spread data)))) None)
                             :: later)%list).
  { unfold await_email in Ea.
    assert (Hb1 : mem "email.send.request" (broken w1) = false)
      by (subst w1; exact Hb).
    rewrite (email_request_connected _ _ _ Hb1) in Ea.
    match type of Ea with
    | context [email_run ?r ?l ?st] =>
        destruct (email_run_world r l st) as [Hi [later Hl]];
        assert (Ew : w2 = fst (email_run r l st))
          by (destruct (promise (snd (email_run r l st))) as [[v|x]|];
              injection Ea as _ <-; reflexivity)
    end.
    rewrite Ew, Hi, Hl. cbn [fst]. split; [reflexivity|].
    exists later. simpl. rewrite <- !app_assoc. reflexivity. }
  destruct W2 as [Hi [later Hl]].
  destruct Hs as [_ [Hrow [_ _]]].
  assert (Hin : In invoice (invoices w)
                /\ (eq_column "id" (field request "invoice_id") invoice
                    && eq_column "organization_id" (field request "organization_id") invoice)
                   = true).
  { apply (proj1 (filter_In
                    (fun row => eq_column "id" (field request "invoice_id") row
                                && eq_column "organization_id"
                                     (field request "organization_id") row)
                    invoice (invoices w))).
    rewrite Hrow. left. reflexivity. }
  destruct Hin as [Hin Hmatch].
  split; [reflexivity|].
  split; [rewrite Hi; subst w1; reflexivity|].
  split.
  { rewrite Hi. subst w1. cbn [invoices with_invoices]. unfold marked_sent.
    apply in_map_iff. exists invoice. rewrite Hmatch. split; [reflexivity | exact Hin]. }
  split.
  { unfold apply_patch, sent_patch. cbn [fold_left fst snd field].
    rewrite lookup_set_field_other by reflexivity. apply lookup_set_field_same. }
  split.
  { unfold apply_patch, sent_patch. cbn [fold_left fst snd field].
    apply lookup_set_field_same. }
  exists later. rewrite Hl. subst w1. simpl. rewrite <- app_assoc. reflexivity.
Qed.

End Sending.

Section Fallback.
Import Correlation SendInvoice Gateway Worker.

Lemma sample_sendable :
  sendable Sample.send_request Sample.invoice_svc Sample.invoice_row
    (Obj [("name", Str "Studio"); ("email", Str "hello@studio.example")]).
Proof.
  repeat split; try reflexivity.
  exists Sample.organization_row. split; reflexivity.
Qed.

Lemma invoice_stays_sent_when_email_fails_witness :
  not_production Sample.production = false
  /\ (let out := handleSendInvoice Sample.production [] Sample.send_request
                   Sample.invoice_svc in
      fst out = Throw email_timeout_error
      /\ invoices (snd out)
         = marked_sent Sample.production Sample.send_request [Sample.invoice_row]).
Proof.
  split; [reflexivity|].
  pose proof (invoice_stays_sent_when_email_fails Sample.production []
                Sample.send_request Sample.invoice_svc Sample.invoice_row
                (Obj [("name", Str "Studio"); ("email", Str "hello@studio.example")])
                email_timeout_error sample_sendable eq_refl eq_refl eq_refl) as H.
  exact (conj (proj1 H) (proj1 (proj2 H))).
Defined.

(** C9 (as amended).  When the exchange fails: in production the gateway
    answers GET /api/invoices with the structured 500 body and
    handleSendInvoice throws the exchange's error to its caller; outside
    production the gateway answers 200 with the mock invoice list and
    handleSendInvoice returns the simulated success. *)
Theorem mock_fallback_gated_by_node_env
    (env : Env) (evs : list Event)
    (user orgId status : value) (page limit : option Z) (w : World) (e : Error)
    (request : value) (svc : World) (invoice organization : value) (e' : Error) :
  prop user "org_id" = Normal orgId ->
  truthy orgId = true ->
  fst (await_invoices (fresh_request_id env)
         (invoice_get_payload (fresh_request_id env) orgId status
            (number page) (number limit)) evs w) = Throw e ->
  sendable request svc invoice organization ->
  fst (await_email (fresh_request_id env)
         (emailData invoice organization (email_template_of request)
            (or_else (field request "pdf_url") (field invoice "pdf_url")))
         evs
         (with_invoices (marked_sent env request)
            (emit (EUpdateInvoice (field request "invoice_id")
                     (field request "organization_id") (sent_patch env)) svc)))
  = Throw e' ->
  let response := fst (get_invoices env user status page limit evs w) in
  let sent := fst (handleSendInvoice env evs request svc) in
  if not_production env
  then response = mkResponse 200 (mock_invoices env page limit)
       /\ sent = Normal (Obj [("success", Bool true);
                              ("email", field (field invoice "customers") "email");
                              ("message_id", Str ("mock-" ++ fresh_request_id env));
                              ("mock", Bool true)])
  else response = internal_error "An error occurred while fetching invoices"
       /\ sent = Throw e'.
Proof.
  intros Hu Ho Hg Hs He. cbv zeta.
  rewrite (handleSendInvoice_sendable env evs request svc invoice organization Hs).
  unfold get_invoices, send_email, try_catch, bind, lift. rewrite Hu, Ho. cbn [negb].
  destruct (await_invoices _ _ evs w) as [[r|x] w1]; simpl in Hg; [discriminate|].
  destruct (await_email _ _ evs _) as [[r|x'] s1]; simpl in He; [discriminate|].
  injection He as ->.
  destruct (not_production env); split; reflexivity.
Qed.

Lemma mock_fallback_gated_by_node_env_witness :
  truthy (Str "org-1") = true
  /\ fst (get_invoices Sample.production Sample.user Undefined (Some 1%Z) (Some 10%Z) []
            Sample.idle)
     = internal_error "An error occurred while fetching invoices"
  /\ fst (handleSendInvoice Sample.production [] Sample.send_request Sample.invoice_svc)
     = Throw email_timeout_error.
Proof.
  split; [reflexivity|].
  exact (mock_fallback_gated_by_node_env Sample.production [] Sample.user (Str "org-1")
           Undefined (Some 1%Z) (Some 10%Z) Sample.idle gateway_timeout_error
           Sample.send_request Sample.invoice_svc Sample.invoice_row
           (Obj [("name", Str "Studio"); ("email", Str "hello@studio.example")])
           email_timeout_error eq_refl eq_refl eq_refl sample_sendable eq_refl).
Defined.

(** C9, as stated, fails for the email call site.  In production the
    gateway's send route publishes [invoice.send] without a reply
    address and answers 200 at once; invoice-svc handles the message, the
    email exchange times out, handleSendInvoice throws, and the loop,
    having no reply address, publishes nothing: no 5xx reaches the HTTP
    caller. *)
Lemma email_failure_in_production_reaches_no_http_caller :
  let route := post_send Sample.user "inv-1" Sample.idle in
  let loop := for_await
                (invoice_send (Sample.answering Sample.pdf_result)
                   (handleSendInvoice Sample.production []))
                (published (log (snd route))) Sample.invoice_svc in
  fst (handleSendInvoice Sample.production []
         (Obj (set_field "pdf_url" (Str "https://files.example/inv-1.pdf")
                 (spread Sample.send_request)))
         Sample.invoice_svc)
  = Throw email_timeout_error
  /\ fst route = mkResponse 200
                   (Obj [("message", Str "Invoice inv-1 has been queued for sending")])
  /\ published (log (snd route))
     = [mkMsg "invoice.send" (Json Sample.send_request) None]
  /\ fst loop = Waiting
  /\ map subject (published (log (snd loop))) = ["email.send.request"]
  /\ ~ (500 <= statusCode (fst route))%Z.
Proof.
  cbv zeta. repeat split; try reflexivity.
  vm_compute. intros H. apply H. reflexivity.
Qed.

End Fallback.

(* ================================================================== *)
(** ** Single settlement *)
(* ================================================================== *)

Section SingleSettlement.
Import Correlation.

Lemma unsubscribe_calls_snoc (subj : string) (l : list Effect) :
  Lifecycle.unsubscribe_calls subj (l ++ [EUnsubscribe subj])
  = S (Lifecycle.unsubscribe_calls subj l).
Proof.
  rewrite unsubscribe_calls_app. unfold Lifecycle.unsubscribe_calls at 2.
  simpl. rewrite String.eqb_refl. simpl. lia.
Qed.

Lemma calls_after_request (subj : string) (m : Msg) (f : list string -> list string)
    (w : World) :
  Lifecycle.unsubscribe_calls subj
    (log (emit (EPublish m) (emit (ESubscribe subj) (with_subs f w))))
  = Lifecycle.unsubscribe_calls subj (log w).
Proof.
  simpl. rewrite !unsubscribe_calls_app. unfold Lifecycle.unsubscribe_calls at 2 3.
  simpl. lia.
Qed.

Lemma sub_open_settle (o : Outcome) (p : Pending) : sub_open (settle o p) = sub_open p.
Proof. unfold settle. destruct (promise p); reflexivity. Qed.

(** A handle that exists stays: open, then released. *)
Lemma gateway_step_handle (requestId : string) (st : World * Pending) (ev : Event) :
  handle (snd st) <> NoHandle ->
  handle (snd (gateway_step requestId st ev)) <> NoHandle.
Proof.
  intros H. destruct st as [w p]. cbn [snd] in H.
  destruct ev as [d|]; cbn [gateway_step snd fst].
  - destruct (handle p) eqn:E; [congruence| |];
      (destruct (decode d) as [msg|e]; [|cbn [snd]; congruence];
       unfold gateway_callback; cbn [snd]; rewrite handle_settle;
       rewrite (proj2 (release_log _ (w, clearTimeout p)
                         ltac:(cbn [snd]; rewrite handle_clearTimeout; congruence)));
       discriminate).
  - destruct (timer p); cbn [snd]; try exact H.
    rewrite handle_settle. exact H.
Qed.

(** The gateway's callback runs for every reply that decodes, whether
    the exchange is over or not: each run calls [unsubscribe()]. *)
Lemma gateway_callback_runs (requestId : string) (evs : list Event) :
  forall st,
    handle (snd st) <> NoHandle ->
    Lifecycle.unsubscribe_calls (invoice_get_reply_subject requestId)
      (log (fst (gateway_run requestId evs st)))
    = Lifecycle.unsubscribe_calls (invoice_get_reply_subject requestId) (log (fst st))
      + length (decodable evs).
Proof.
  induction evs as [|ev evs IH]; intros st H.
  - simpl. lia.
  - change (gateway_run requestId (ev :: evs) st)
      with (gateway_run requestId evs (gateway_step requestId st ev)).
    rewrite (IH _ (gateway_step_handle requestId st ev H)).
    destruct st as [w p]. cbn [snd] in H. unfold decodable. cbn [flat_map].
    destruct ev as [d|]; cbn [gateway_step snd fst].
    + destruct (handle p) eqn:E; [congruence| |];
        (destruct (decode d) as [msg|e]; cbn [app length]; [|reflexivity];
         unfold gateway_callback; cbn [fst];
         rewrite (proj1 (release_log _ (w, clearTimeout p)
                           ltac:(cbn [snd]; rewrite handle_clearTimeout; congruence)));
         cbn [fst]; rewrite unsubscribe_calls_snoc; lia).
    + destruct (timer p); reflexivity.
Qed.

(** The callback of handleSendInvoice runs only while the handle is
    open, and closes it. *)
Lemma email_callback_once (requestId : string) (base : nat) (evs : list Event) :
  forall st,
    (if sub_open (snd st)
     then Lifecycle.unsubscribe_calls (email_reply_subject requestId)
            (log (fst st)) = base
     else Lifecycle.unsubscribe_calls (email_reply_subject requestId)
            (log (fst st)) <= S base) ->
    Lifecycle.unsubscribe_calls (email_reply_subject requestId)
      (log (fst (email_run requestId evs st))) <= S base.
Proof.
  induction evs as [|ev evs IH]; intros st H.
  - simpl. destruct (sub_open (snd st)); lia.
  - change (email_run requestId (ev :: evs) st)
      with (email_run requestId evs (email_step requestId st ev)).
    apply IH. destruct st as [w p]. destruct ev as [d|]; cbn [email_step snd fst] in *.
    + destruct (sub_open p) eqn:E.
      * unfold email_callback. cbn [snd fst]. rewrite sub_open_settle.
        destruct (release_pending (email_reply_subject requestId) (w, clearTimeout p))
          as [_ [_ [O _]]].
        destruct (release_log (email_reply_subject requestId) (w, clearTimeout p))
          as [L _].
        { cbn [snd]. rewrite handle_clearTimeout, (sub_open_handle p E). discriminate. }
        rewrite O, L. cbn [fst]. rewrite unsubscribe_calls_snoc. lia.
      * cbn [snd fst]. rewrite E. exact H.
    + destruct (timer p); cbn [snd fst]; try exact H.
      rewrite sub_open_settle. exact H.
Qed.

Lemma subs_iter_emit (e : Effect) (n : nat) (w : World) :
  subs (Nat.iter n (emit e) w) = subs w.
Proof. induction n as [|n IH]; [reflexivity | exact IH]. Qed.

(** C4 (as amended).  A promise is settled once: under every history of
    replies and deadlines a settled promise keeps its outcome, and once
    the deadline has passed it is settled.  In the gateway the first
    reply that decodes (undecodable ones before it are skipped) resolves
    the promise with its payload, cancels the timer and releases the
    handle, the count on the reply subject going back to what it was;
    what follows leaves the exchange and the connection as they are, but
    the callback has no guard: it runs for every later reply that
    decodes, calling [unsubscribe()] each time.  In handleSendInvoice the
    first reply cancels the timer, releases the handle and settles the
    promise, by rejecting it; no later event changes anything, and
    [unsubscribe()] is called at most once.  The reminder's loop, which
    ends with [break], settles from its first reply and is not touched
    by what follows. *)
Theorem first_settlement_stands
    (requestId : string) (payload emailData : value) (w : World)
    (skipped : list string) (v : value) (d : wire) (later : list Event) :
  client w = true ->
  mem "invoice.get.request" (broken w) = false ->
  mem "email.send.request" (broken w) = false ->
  let subj := invoice_get_reply_subject requestId in
  let g0 := gateway_request requestId payload w in
  let g1 := gateway_run requestId
              (map (fun raw => Reply (Malformed raw)) skipped ++ [Reply (Json v)]) g0 in
  let g2 := gateway_run requestId later g1 in
  let e0 := email_request requestId emailData w in
  let e1 := email_step requestId e0 (Reply d) in
  (snd g1 = mkPending Cleared Released (Some (Resolved v))
   /\ open_on subj (fst g1) = open_on subj w)
  /\ (snd g2 = snd g1
      /\ subs (fst g2) = subs (fst g1)
      /\ Lifecycle.unsubscribe_calls subj (log (fst g2))
         = S (Lifecycle.unsubscribe_calls subj (log w)) + length (decodable later))
  /\ (snd e1
      = mkPending Cleared Released
          (Some (Rejected (mkError "Cannot read properties of null (reading 'data')")))
      /\ open_on (email_reply_subject requestId) (fst e1)
         = open_on (email_reply_subject requestId) w
      /\ email_run requestId later e1 = e1)
  /\ (let r1 := reminder_step requestId (reminder_request requestId emailData w)
                  (Reply d) in
      snd r1 = mkPending Cleared Released (Some (email_outcome (Message d)))
      /\ reminder_run requestId later r1 = r1)
  /\ (forall evs o,
         promise (snd (gateway_run requestId evs g0)) = Some o ->
         promise (snd (gateway_run requestId (evs ++ later) g0)) = Some o)
  /\ (forall evs o,
         promise (snd (email_run requestId evs e0)) = Some o ->
         promise (snd (email_run requestId (evs ++ later) e0)) = Some o)
  /\ (forall evs,
         Lifecycle.unsubscribe_calls subj (log (fst (gateway_run requestId evs g0)))
         = Lifecycle.unsubscribe_calls subj (log w) + length (decodable evs))
  /\ (forall evs,
         Lifecycle.unsubscribe_calls (email_reply_subject requestId)
           (log (fst (email_run requestId evs e0)))
         <= S (Lifecycle.unsubscribe_calls (email_reply_subject requestId) (log w)))
  /\ (forall evs,
         promise (snd (gateway_run requestId (evs ++ [Timeout]) g0)) <> None
         /\ promise (snd (email_run requestId (evs ++ [Timeout]) e0)) <> None).
Proof.
  intros Hc Hg He. cbv zeta.
  assert (Settled : forall evs,
             promise (snd (gateway_run requestId (evs ++ [Timeout])
                             (gateway_request requestId payload w))) <> None
             /\ promise (snd (email_run requestId (evs ++ [Timeout])
                                (email_request requestId emailData w))) <> None).
  { intros evs. split; [apply gateway_await_settled | apply email_await_settled]. }
  revert Settled.
  rewrite (gateway_request_connected requestId payload w Hc Hg).
  rewrite (email_request_connected requestId emailData w He).
  intros Settled.
  set (wg := emit (EPublish (mkMsg "invoice.get.request" (encode payload) None))
               (emit (ESubscribe (invoice_get_reply_subject requestId))
                  (with_subs (fun l => (l ++ [invoice_get_reply_subject requestId])%list)
                     w))).
  assert (Base : Lifecycle.unsubscribe_calls (invoice_get_reply_subject requestId) (log wg)
                 = Lifecycle.unsubscribe_calls (invoice_get_reply_subject requestId)
                     (log w))
    by apply calls_after_request.
  assert (G1 : gateway_run requestId
                 (map (fun raw => Reply (Malformed raw)) skipped ++ [Reply (Json v)])
                 (wg, mkPending Armed Open None)
               = (unsubscribe (invoice_get_reply_subject requestId) wg,
                  mkPending Cleared Released (Some (Resolved v)))).
  { unfold gateway_run. rewrite fold_left_app.
    fold (gateway_run requestId (map (fun raw => Reply (Malformed raw)) skipped)
            (wg, mkPending Armed Open None)).
    rewrite gateway_run_skips. reflexivity. }
  rewrite G1.
  assert (G2 : gateway_run requestId later
                 (unsubscribe (invoice_get_reply_subject requestId) wg,
                  mkPending Cleared Released (Some (Resolved v)))
               = (Nat.iter (length (decodable later))
                    (emit (EUnsubscribe (invoice_get_reply_subject requestId)))
                    (unsubscribe (invoice_get_reply_subject requestId) wg),
                  mkPending Cleared Released (Some (Resolved v))))
    by (apply gateway_run_over; first [reflexivity | discriminate]).
  split; [|split; [|split; [|split; [|split; [|split; [|split; [|split;
    [|exact Settled]]]]]]]].
  - split; [reflexivity|]. subst wg. apply open_on_after_release.
  - split; [rewrite G2; reflexivity|].
    split; [rewrite G2; apply subs_iter_emit|].
    rewrite gateway_callback_runs by discriminate. cbn [fst].
    change (log (unsubscribe (invoice_get_reply_subject requestId) wg))
      with (log wg ++ [EUnsubscribe (invoice_get_reply_subject requestId)])%list.
    rewrite unsubscribe_calls_snoc, Base. reflexivity.
  - rewrite email_first_reply.
    split; [reflexivity|].
    split; [apply open_on_after_release|].
    apply email_run_quiet; [reflexivity | discriminate].
  - rewrite (reminder_request_connected requestId emailData w He).
    rewrite reminder_first_reply.
    split; [reflexivity|].
    apply reminder_run_quiet; [reflexivity | discriminate].
  - intros evs o H. unfold gateway_run in *. rewrite fold_left_app.
    apply gateway_run_keeps. exact H.
  - intros evs o H. unfold email_run in *. rewrite fold_left_app.
    apply email_run_keeps. exact H.
  - intros evs. rewrite gateway_callback_runs by discriminate.
    cbn [fst]. rewrite Base. reflexivity.
  - intros evs. apply email_callback_once. cbn [snd fst sub_open].
    apply calls_after_request.
Qed.

(** An undecodable message, then two replies and the deadline: the first
    reply that decodes stands, and the callback has run twice. *)
Lemma first_settlement_stands_witness :
  client Sample.idle = true
  /\ (let g := gateway_run "r1"
                 [Reply (Json (Obj [("invoices", Arr [Null])])); Timeout]
                 (gateway_run "r1"
                    [Reply (Malformed "<html>"); Reply (Json (Obj [("invoices", Arr [])]))]
                    (gateway_request "r1" Null Sample.idle)) in
      snd g = mkPending Cleared Released (Some (Resolved (Obj [("invoices", Arr [])])))
      /\ Lifecycle.unsubscribe_calls "invoice.get.response.r1" (log (fst g)) = 2).
Proof.
  split; [reflexivity|].
  pose proof (first_settlement_stands "r1" Null Null Sample.idle ["<html>"]
                (Obj [("invoices", Arr [])]) (Json Null)
                [Reply (Json (Obj [("invoices", Arr [Null])])); Timeout]
                eq_refl eq_refl eq_refl) as T.
  cbv zeta in T. destruct T as [[P1 _] [[P2 [_ C]] _]].
  cbv zeta. split; [exact (eq_trans P2 P1) | exact C].
Defined.

(** C4, as stated, fails in the gateway.  The first message delivered on
    the reply subject is not the one honored when it does not decode:
    the reply behind it is.  And a later reply is not ignored: for two
    replies the subscription yields, the callback runs twice, calling
    [unsubscribe()] on the released handle again, and only the promise
    keeps to the first. *)
Lemma later_reply_reaches_the_gateway_callback :
  let first := Obj [("invoices", Arr [])] in
  let second := Obj [("invoices", Arr [Null])] in
  let g0 := gateway_request "r1" Null Sample.idle in
  let skipped := gateway_run "r1" [Reply (Malformed "<html>"); Reply (Json second)] g0 in
  let twice := gateway_run "r1" [Reply (Json first); Reply (Json second)] g0 in
  promise (snd skipped) = Some (Resolved second)
  /\ promise (snd twice) = Some (Resolved first)
  /\ Lifecycle.unsubscribe_calls "invoice.get.response.r1" (log (fst twice)) = 2
  /\ log (fst twice)
     = [ESubscribe "invoice.get.response.r1";
        EPublish (mkMsg "invoice.get.request" (Json Null) None);
        EUnsubscribe "invoice.get.response.r1";
        EUnsubscribe "invoice.get.response.r1"].
Proof. repeat split. Qed.

End SingleSettlement.

(* ================================================================== *)
(** ** The loops that no message ends *)
(* ================================================================== *)

Section Resilience.
Import Worker Loops.

Lemma keeps_bind {A B} (m : M A) (k : A -> M B) :
  keeps_connection m -> (forall a, keeps_connection (k a)) -> keeps_connection (bind m k).
Proof.
  intros Hm Hk w Hb. unfold bind. specialize (Hm w Hb).
  destruct (m w) as [[a|e] w']; simpl in *; [apply Hk; exact Hm | exact Hm].
Qed.

Lemma keeps_lift {A} (c : completion A) : keeps_connection (lift c).
Proof. intros w Hb. exact Hb. Qed.

Lemma keeps_ret {A} (a : A) : keeps_connection (ret a).
Proof. intros w Hb. exact Hb. Qed.

Lemma keeps_throw {A} (e : Error) : keeps_connection (@throw A e).
Proof. intros w Hb. exact Hb. Qed.

Lemma keeps_publish (subj : string) (d : wire) : keeps_connection (publish subj d).
Proof. intros w Hb. unfold publish. rewrite Hb. exact Hb. Qed.

Lemma keeps_reply (msg : Msg) (k : string -> M unit) :
  (forall r, keeps_connection (k r)) ->
  keeps_connection (match reply_to msg with Some r => k r | None => ret tt end).
Proof. intros H. destruct (reply_to msg); [apply H | apply keeps_ret]. Qed.

Lemma completes_ret : completes (ret tt).
Proof. intros w Hb. exists w. split; [reflexivity | exact Hb]. Qed.

Lemma completes_publish (subj : string) (d : wire) : completes (publish subj d).
Proof.
  intros w Hb. rewrite (publish_healthy _ _ _ Hb). eexists. split; [reflexivity | exact Hb].
Qed.

Lemma completes_reply (msg : Msg) (k : string -> M unit) :
  (forall r, completes (k r)) ->
  completes (match reply_to msg with Some r => k r | None => ret tt end).
Proof. intros H. destruct (reply_to msg); [apply H | apply completes_ret]. Qed.

Lemma completes_try_catch (body : M unit) (handler : Error -> M unit) :
  keeps_connection body -> (forall e, completes (handler e)) ->
  completes (try_catch body handler).
Proof.
  intros Hbody Hh w Hb. unfold try_catch. specialize (Hbody w Hb).
  destruct (body w) as [[[]|e] w']; simpl in *.
  - exists w'. split; [reflexivity | exact Hbody].
  - apply Hh. exact Hbody.
Qed.

Lemma completes_reply_error (msg : Msg) (error : Error) :
  completes (match reply_to msg with
             | Some r => publish r (encode (error_envelope error))
             | None => ret tt
             end).
Proof. apply completes_reply. intros r. apply completes_publish. Qed.

Lemma for_await_completes (body : Msg -> M unit) (msgs : list Msg) :
  (forall msg, completes (body msg)) ->
  forall w, broken w = [] -> fst (for_await body msgs w) = Waiting.
Proof.
  intros H. induction msgs as [|msg msgs IH]; intros w Hb; [reflexivity|].
  destruct (H msg w Hb) as [w' [E Hb']]. simpl. rewrite E. apply IH. exact Hb'.
Qed.

Ltac keeps :=
  repeat first
    [ apply keeps_bind; [|intros ?]
    | apply keeps_lift
    | apply keeps_ret
    | apply keeps_throw
    | apply keeps_publish
    | apply keeps_reply; intros ?
    | match goal with
      | H : forall d, keeps_connection (?h d) |- keeps_connection (?h _) => apply H
      | H : forall p s, keeps_connection (?h p s) |- keeps_connection (?h _ _) => apply H
      | H : keeps_connection ?c |- keeps_connection ?c => exact H
      | |- keeps_connection (when ?b _) => unfold when; destruct b
      | |- keeps_connection (if ?b then _ else _) => destruct b
      | |- keeps_connection (match ?x with _ => _ end) => destruct x
      end ].

(** X1.  On a connection whose publish works, and with handlers that
    leave it so, no message ends the create, get, generate-pdf, delete
    and send loops of invoice-svc, the three loops of payment-svc, the
    loop of reminder-svc or the gateway's consumer loop: undecodable
    payloads, throwing handlers and throwing callbacks all leave the loop
    waiting for the next message. *)
Theorem loops_survive_every_message
    (h g : Handler) (hook : value -> value -> M value) (check : M value)
    (callback : value -> M unit)
    (by_id by_invoice : value -> value * option string)
    (msgs : list Msg) (w : World) :
  (forall d, keeps_connection (h d)) ->
  (forall d, keeps_connection (g d)) ->
  (forall p s, keeps_connection (hook p s)) ->
  keeps_connection check ->
  (forall d, keeps_connection (callback d)) ->
  broken w = [] ->
  fst (for_await (invoice_create h) msgs w) = Waiting
  /\ fst (for_await (invoice_get_request h) msgs w) = Waiting
  /\ fst (for_await (invoice_generate_pdf h) msgs w) = Waiting
  /\ fst (for_await (invoice_delete h) msgs w) = Waiting
  /\ fst (for_await (invoice_send g h) msgs w) = Waiting
  /\ fst (for_await (payment_create_request h) msgs w) = Waiting
  /\ fst (for_await (payment_get_request by_id by_invoice) msgs w) = Waiting
  /\ fst (for_await (payment_webhook_event hook) msgs w) = Waiting
  /\ fst (for_await (reminder_check_request check) msgs w) = Waiting
  /\ fst (for_await (subscription_iteration callback) msgs w) = Waiting.
Proof.
  intros Hh Hg Hhook Hcheck Hcb Hb.
  repeat split; apply for_await_completes; try exact Hb; intros msg.
  - unfold invoice_create, publish_invoice_created.
    apply completes_try_catch; [keeps | intros e; apply completes_reply_error].
  - unfold invoice_get_request.
    apply completes_try_catch; [keeps|].
    intros e. destruct (reply_to msg); [apply completes_publish|].
    apply completes_try_catch; [keeps | intros e'; apply completes_ret].
  - unfold invoice_generate_pdf.
    apply completes_try_catch; [keeps | intros e; apply completes_reply_error].
  - unfold invoice_delete.
    apply completes_try_catch; [keeps | intros e; apply completes_reply_error].
  - unfold invoice_send.
    apply completes_try_catch; [keeps | intros e; apply completes_reply_error].
  - unfold payment_create_request.
    apply completes_try_catch; [keeps | intros e; apply completes_reply_error].
  - unfold payment_get_request.
    apply completes_try_catch; [keeps | intros e; apply completes_reply_error].
  - unfold payment_webhook_event.
    apply completes_try_catch; [keeps | intros e; apply completes_reply_error].
  - unfold reminder_check_request.
    apply completes_try_catch; [keeps | intros e; apply completes_reply_error].
  - unfold subscription_iteration.
    apply completes_try_catch; [keeps | intros e; apply completes_ret].
Qed.

Lemma loops_survive_every_message_witness :
  broken Sample.idle = []
  /\ fst (for_await (invoice_delete (Sample.answering Null))
            [mkMsg "invoice.delete" (Malformed "{") (Some "_INBOX.1");
             mkMsg "invoice.delete" (Json Null) None]
            Sample.idle) = Waiting.
Proof.
  split; [reflexivity|].
  exact (proj1 (proj2 (proj2 (proj2
    (loops_survive_every_message (Sample.answering Null) (Sample.answering Null)
       (fun _ _ => ret Null) (ret Null) (fun _ => ret tt)
       (fun _ => (Null, None)) (fun _ => (Null, None))
       [mkMsg "invoice.delete" (Malformed "{") (Some "_INBOX.1");
        mkMsg "invoice.delete" (Json Null) None]
       Sample.idle
       (fun _ _ Hb => Hb) (fun _ _ Hb => Hb) (fun _ _ _ Hb => Hb)
       (fun _ Hb => Hb) (fun _ _ Hb => Hb) eq_refl))))).
Defined.

(** X2.  When the first handler of an iteration throws, the generate-pdf,
    delete and send loops publish the error envelope to the reply address,
    if there is one, and nothing else: no [invoice.pdf.generated],
    [invoice.deleted] or [invoice.sent] event follows, and in the send
    loop handleSendInvoice is not run after a failed PDF generation. *)
Theorem failed_handler_publishes_only_the_error
    (h s : Handler) (msg : Msg) (d : value) (e : Error) (w w' : World) :
  decode (data msg) = Normal d ->
  h d w = (Throw e, w') ->
  broken w' = [] ->
  let answered :=
    match reply_to msg with
    | Some r => emit (EPublish (mkMsg r (encode (error_envelope e)) None)) w'
    | None => w'
    end in
  invoice_generate_pdf h msg w = (Normal tt, answered)
  /\ invoice_delete h msg w = (Normal tt, answered)
  /\ invoice_send h s msg w = (Normal tt, answered).
Proof.
  intros D H B answered. subst answered.
  unfold invoice_generate_pdf, invoice_delete, invoice_send, try_catch, bind, lift.
  rewrite D, H.
  destruct (reply_to msg) as [r|].
  - rewrite (publish_healthy _ _ _ B). repeat split; reflexivity.
  - repeat split; reflexivity.
Qed.

Lemma failed_handler_publishes_only_the_error_witness :
  decode (Json Sample.send_request) = Normal Sample.send_request
  /\ invoice_send (fun _ => throw (mkError "Failed to upload PDF: full"))
       (Sample.answering Null)
       (mkMsg "invoice.send" (Json Sample.send_request) (Some "_INBOX.7"))
       Sample.invoice_svc
     = (Normal tt,
        emit (EPublish (mkMsg "_INBOX.7"
                          (encode (error_envelope (mkError "Failed to upload PDF: full")))
                          None))
          Sample.invoice_svc).
Proof.
  split; [reflexivity|].
  exact (proj2 (proj2
    (failed_handler_publishes_only_the_error
       (fun _ => throw (mkError "Failed to upload PDF: full")) (Sample.answering Null)
       (mkMsg "invoice.send" (Json Sample.send_request) (Some "_INBOX.7"))
       Sample.send_request (mkError "Failed to upload PDF: full")
       Sample.invoice_svc Sample.invoice_svc eq_refl eq_refl eq_refl))).
Defined.

(** X3.  payment.get.request: a payload that names neither a payment nor
    an invoice is answered with the error envelope "Either payment_id or
    invoice_id must be provided" without the store being asked; a payload
    that names a payment is looked up by payment id only, whatever its
    [invoice_id]; and a store error is answered as
    "Failed to retrieve payment: <message>". *)
Theorem payment_get_request_validation
    (by_id by_invoice : value -> value * option string)
    (subj r : string) (d : value) (w : World) :
  prop d "payment_id" = Normal (field d "payment_id") ->
  r <> "" ->
  broken w = [] ->
  let msg := mkMsg subj (Json d) (Some r) in
  let answer v := (Normal tt, emit (EPublish (mkMsg r (encode v) None)) w) in
  (truthy (field d "payment_id") = false ->
   truthy (field d "invoice_id") = false ->
   payment_get_request by_id by_invoice msg w
   = answer (error_envelope
               (mkError "Either payment_id or invoice_id must be provided")))
  /\ (truthy (field d "payment_id") = true ->
      payment_get_request by_id by_invoice msg w
      = answer (match by_id (field d "payment_id") with
                | (_, Some error) =>
                    error_envelope (mkError ("Failed to retrieve payment: " ++ error))
                | (payment, None) => payment
                end)).
Proof.
  intros P R B msg answer. subst msg answer.
  assert (reply_to (mkMsg subj (Json d) (Some r)) = Some r) as Hr.
  { unfold reply_to. simpl. apply String.eqb_neq in R. rewrite R. reflexivity. }
  split.
  - intros T1 T2.
    unfold payment_get_request, try_catch, bind, lift, throw. simpl decode.
    cbv iota. rewrite P. cbv iota. rewrite T1, T2. simpl. rewrite Hr.
    apply publish_healthy. exact B.
  - intros T1.
    unfold payment_get_request, try_catch, bind, lift, throw. simpl decode.
    cbv iota. rewrite P. cbv iota. rewrite T1. cbn [negb andb].
    destruct (by_id (field d "payment_id")) as [payment [error|]]; rewrite Hr.
    + apply publish_healthy. exact B.
    + rewrite (publish_healthy _ _ _ B). reflexivity.
Qed.

Lemma payment_get_request_validation_witness :
  prop (Obj [("customer", Str "cus-1")]) "payment_id" = Normal Undefined
  /\ payment_get_request (fun _ => (Null, None)) (fun _ => (Arr [], None))
       (mkMsg "payment.get.request" (Json (Obj [("customer", Str "cus-1")]))
          (Some "_INBOX.3"))
       Sample.idle
     = (Normal tt,
        emit (EPublish
                (mkMsg "_INBOX.3"
                   (encode (error_envelope
                              (mkError "Either payment_id or invoice_id must be provided")))
                   None))
          Sample.idle).
Proof.
  split; [reflexivity|].
  refine (proj1 (payment_get_request_validation (fun _ => (Null, None))
                   (fun _ => (Arr [], None)) "payment.get.request" "_INBOX.3"
                   (Obj [("customer", Str "cus-1")]) Sample.idle eq_refl _ eq_refl)
            eq_refl eq_refl).
  discriminate.
Defined.

End Resilience.

(* ================================================================== *)
(** ** The gateway's routes *)
(* ================================================================== *)

Section GatewayRoutes.
Import Correlation Gateway Routes.

Lemma lookup_jsonify_other (k k0 : string) (v : value) (fields : list (string * value)) :
  (k =? k0) = false ->
  field (jsonify (Obj (set_field k0 v fields))) k = field (jsonify (Obj fields)) k.
Proof.
  intros N. simpl. induction fields as [|[k' v'] rest IH]; simpl.
  - destruct v; simpl; try rewrite N; reflexivity.
  - destruct (k0 =? k') eqn:E.
    + apply String.eqb_eq in E. subst k'.
      destruct v, v'; simpl; try rewrite N; reflexivity.
    + destruct v'; simpl; try (destruct (k =? k'); [reflexivity|]); exact IH.
Qed.

Lemma lookup_jsonify_defined (k : string) (fields : list (string * value)) :
  lookup k fields <> Undefined ->
  field (jsonify (Obj fields)) k = jsonify (lookup k fields).
Proof.
  intros D. simpl. induction fields as [|[k' v'] rest IH]; simpl in *.
  - congruence.
  - destruct (k =? k') eqn:E.
    + destruct v'; simpl; try rewrite E; try reflexivity. congruence.
    + destruct v'; simpl; try rewrite E; exact (IH D).
Qed.

Lemma truthy_defined (v : value) : truthy v = true -> v <> Undefined.
Proof. intros T E. subst v. discriminate. Qed.

Lemma lookup_assign_fields_absent (k : string) (extra : list (string * value)) :
  forall base,
    ~ In k (map fst extra) ->
    lookup k (assign_fields base extra) = lookup k base.
Proof.
  unfold assign_fields.
  induction extra as [|[k1 v1] rest IH]; intros base N; [reflexivity|].
  simpl in *. rewrite IH by tauto.
  apply lookup_set_field_other. apply String.eqb_neq. intros E. apply N. left.
  symmetry. exact E.
Qed.

Lemma lookup_assign_fields_present (k : string) (extra : list (string * value)) :
  forall base,
    NoDup (map fst extra) ->
    In k (map fst extra) ->
    lookup k (assign_fields base extra) = lookup k extra.
Proof.
  induction extra as [|[k1 v1] rest IH]; intros base ND I; [destruct I|].
  simpl in ND, I. inversion ND as [|x l Hx Hl]; subst.
  change (assign_fields base ((k1, v1) :: rest))
    with (assign_fields (set_field k1 v1 base) rest).
  simpl. destruct (k =? k1) eqn:E.
  - apply String.eqb_eq in E. subst k1.
    rewrite lookup_assign_fields_absent by exact Hx.
    apply lookup_set_field_same.
  - apply IH; [exact Hl|]. destruct I as [I|I]; [|exact I].
    apply String.eqb_neq in E. congruence.
Qed.

Lemma lookup_defined_in (k : string) (fields : list (string * value)) :
  lookup k fields <> Undefined -> In k (map fst fields).
Proof.
  induction fields as [|[k' v'] rest IH]; simpl; [congruence|].
  destruct (k =? k') eqn:E.
  - apply String.eqb_eq in E. intros _. left. symmetry. exact E.
  - intros D. right. exact (IH D).
Qed.

Lemma publishMessage_connected (subj : string) (d : value) (w : World) :
  client w = true -> broken w = [] ->
  publishMessage subj d w = (Normal tt, emit (EPublish (mkMsg subj (encode d) None)) w).
Proof.
  intros C B. unfold publishMessage. rewrite C. apply publish_healthy. exact B.
Qed.

Lemma publishMessage_uninitialised (subj : string) (d : value) (w : World) :
  client w = false ->
  publishMessage subj d w = (Throw (mkError "NATS client not initialized"), w).
Proof. intros C. unfold publishMessage. rewrite C. reflexivity. Qed.

(** X4.  Every route of the gateway refuses a caller whose token names
    no organization: it answers 400 "Organization ID is required", and it
    publishes nothing and opens no subscription. *)
Theorem routes_require_organization
    (env : Env) (mock : string -> value) (now : Z) (user body status : value)
    (page limit : option Z) (evs : list Event) (id : string) (w : World)
    (orgId : value) :
  prop user "org_id" = Normal orgId ->
  truthy orgId = false ->
  get_invoices env user status page limit evs w = (bad_request, w)
  /\ get_invoice env mock user id w = (bad_request, w)
  /\ post_invoice env now user body w = (bad_request, w)
  /\ post_send user id w = (bad_request, w)
  /\ delete_invoice user id w = (bad_request, w)
  /\ post_customer env now user body w = (bad_request, w)
  /\ put_customer env user id body w = (bad_request, w)
  /\ delete_customer user id w = (bad_request, w).
Proof.
  intros P T.
  unfold get_invoices, get_invoice, post_invoice, post_send, delete_invoice,
    post_customer, put_customer, delete_customer, answer, try_catch, bind, lift, ret.
  rewrite P, T. simpl. repeat split; reflexivity.
Qed.

Lemma routes_require_organization_witness :
  prop (Obj [("sub", Str "u1")]) "org_id" = Normal Undefined
  /\ post_invoice Sample.production 0 (Obj [("sub", Str "u1")])
       (Obj [("customer_id", Str "cus-1")]) Sample.idle
     = (bad_request, Sample.idle).
Proof.
  split; [reflexivity|].
  exact (proj1 (proj2 (proj2
    (routes_require_organization Sample.production (fun _ => Null) 0
       (Obj [("sub", Str "u1")]) (Obj [("customer_id", Str "cus-1")]) Null
       None None [] "inv-1" Sample.idle Undefined eq_refl eq_refl)))).
Defined.

(** X5.  POST /api/invoices and POST /api/customers stamp the caller's
    organization on an object body: the message published for the
    services carries the [organization_id] of the token, whatever the
    body said, and every other field of the body as it was sent. *)
Theorem post_stamps_callers_organization
    (env : Env) (now : Z) (user : value) (fields : list (string * value))
    (w : World) (orgId : value) :
  prop user "org_id" = Normal orgId ->
  truthy orgId = true ->
  client w = true ->
  broken w = [] ->
  exists invoice customer,
    snd (post_invoice env now user (Obj fields) w)
    = emit (EPublish (mkMsg "invoice.create" (Json invoice) None)) w
    /\ snd (post_customer env now user (Obj fields) w)
       = emit (EPublish (mkMsg "customer.create" (Json customer) None)) w
    /\ statusCode (fst (post_invoice env now user (Obj fields) w)) = 201%Z
    /\ statusCode (fst (post_customer env now user (Obj fields) w)) = 201%Z
    /\ field invoice "organization_id" = jsonify orgId
    /\ field customer "organization_id" = jsonify orgId
    /\ (forall k, k <> "organization_id" ->
          field invoice k = field (jsonify (Obj fields)) k
          /\ field customer k = field (jsonify (Obj fields)) k).
Proof.
  intros P T C B.
  exists (jsonify (Obj (set_field "organization_id" orgId fields))),
         (jsonify (Obj (set_field "organization_id" orgId fields))).
  unfold post_invoice, post_customer, answer, bind, lift, ret.
  rewrite P, T.
  cbn [negb set_organization fst snd].
  rewrite !(publishMessage_connected _ _ w C B).
  repeat split.
  - destruct (not_production env); reflexivity.
  - destruct (not_production env); reflexivity.
  - destruct (not_production env); reflexivity.
  - destruct (not_production env); reflexivity.
  - rewrite lookup_jsonify_defined; rewrite lookup_set_field_same;
      [reflexivity | exact (truthy_defined _ T)].
  - rewrite lookup_jsonify_defined; rewrite lookup_set_field_same;
      [reflexivity | exact (truthy_defined _ T)].
  - apply lookup_jsonify_other. apply String.eqb_neq. assumption.
  - apply lookup_jsonify_other. apply String.eqb_neq. assumption.
Qed.

Lemma post_stamps_callers_organization_witness :
  prop Sample.user "org_id" = Normal (Str "org-1")
  /\ exists invoice,
       snd (post_invoice Sample.production 0 Sample.user
              (Obj [("customer_id", Str "cus-1"); ("organization_id", Str "org-2")])
              Sample.idle)
       = emit (EPublish (mkMsg "invoice.create" (Json invoice) None)) Sample.idle
       /\ field invoice "organization_id" = Str "org-1".
Proof.
  split; [reflexivity|].
  destruct (post_stamps_callers_organization Sample.production 0 Sample.user
              [("customer_id", Str "cus-1"); ("organization_id", Str "org-2")]
              Sample.idle (Str "org-1") eq_refl eq_refl eq_refl eq_refl)
    as [invoice [customer [H1 [_ [_ [_ [H2 _]]]]]]].
  exists invoice. exact (conj H1 H2).
Defined.

(** X6.  PUT /api/customers/:id spreads the body after the caller's
    organization and the path's id: a body that carries its own
    [organization_id] (or [id]) replaces them in the message published
    on [customer.update], while the development answer shows the
    caller's organization. *)
Theorem put_customer_body_overrides_organization
    (env : Env) (user : value) (id : string) (fields : list (string * value))
    (w : World) (orgId : value) (k : string) :
  prop user "org_id" = Normal orgId ->
  truthy orgId = true ->
  client w = true ->
  broken w = [] ->
  NoDup (map fst fields) ->
  lookup k fields <> Undefined ->
  exists update,
    snd (put_customer env user id (Obj fields) w)
    = emit (EPublish (mkMsg "customer.update" (Json update) None)) w
    /\ field update k = jsonify (lookup k fields)
    /\ statusCode (fst (put_customer env user id (Obj fields) w)) = 200%Z
    /\ (not_production env = true ->
        field (body (fst (put_customer env user id (Obj fields) w))) "organization_id"
        = orgId).
Proof.
  intros P T C B ND D.
  exists (jsonify (customer_update id orgId (Obj fields))).
  unfold put_customer, answer, bind, lift, ret.
  rewrite P, T. cbn [negb].
  rewrite (publishMessage_connected _ _ w C B).
  repeat split.
  - destruct (not_production env); reflexivity.
  - unfold customer_update. cbn [own_fields].
    rewrite lookup_jsonify_defined;
      rewrite lookup_assign_fields_present;
      try assumption; try reflexivity; apply lookup_defined_in; assumption.
  - destruct (not_production env); reflexivity.
  - intros NP. rewrite NP. cbn [fst body field].
    unfold assign_fields at 1. cbn [fold_left fst snd].
    rewrite lookup_set_field_other by reflexivity.
    apply lookup_set_field_same.
Qed.

Lemma put_customer_body_overrides_organization_witness :
  prop Sample.user "org_id" = Normal (Str "org-1")
  /\ exists update,
       snd (put_customer Sample.development Sample.user "cus-1"
              (Obj [("name", Str "Acme"); ("organization_id", Str "org-2")])
              Sample.idle)
       = emit (EPublish (mkMsg "customer.update" (Json update) None)) Sample.idle
       /\ field update "organization_id" = Str "org-2".
Proof.
  split; [reflexivity|].
  destruct (put_customer_body_overrides_organization Sample.development Sample.user
              "cus-1" [("name", Str "Acme"); ("organization_id", Str "org-2")]
              Sample.idle (Str "org-1") "organization_id"
              eq_refl eq_refl eq_refl eq_refl)
    as [update [H1 [H2 _]]].
  - repeat constructor; simpl; intuition discriminate.
  - discriminate.
  - exists update. exact (conj H1 H2).
Defined.

(** X7.  While the gateway's bus client is not initialised, every route
    that publishes answers with its 500 and the state of the process is
    unchanged, in development as in production; a POST whose body is
    missing is answered the same way, and nothing is published for it. *)
Theorem routes_answer_500_when_publishing_fails
    (env : Env) (now : Z) (user : value) (fields : list (string * value))
    (id : string) (w : World) (orgId : value) :
  prop user "org_id" = Normal orgId ->
  truthy orgId = true ->
  (client w = false ->
   post_invoice env now user (Obj fields) w
   = (internal_error "An error occurred while creating invoice", w)
   /\ post_send user id w = (internal_error "An error occurred while sending invoice", w)
   /\ delete_invoice user id w
      = (internal_error "An error occurred while deleting invoice", w)
   /\ post_customer env now user (Obj fields) w
      = (internal_error "An error occurred while creating customer", w)
   /\ put_customer env user id (Obj fields) w
      = (internal_error "An error occurred while updating customer", w)
   /\ delete_customer user id w
      = (internal_error "An error occurred while deleting customer", w))
  /\ post_invoice env now user Undefined w
     = (internal_error "An error occurred while creating invoice", w)
  /\ post_customer env now user Undefined w
     = (internal_error "An error occurred while creating customer", w).
Proof.
  intros P T. split; [intros C|].
  - unfold post_invoice, post_send, delete_invoice, post_customer, put_customer,
      delete_customer, answer, try_catch, bind, lift, ret.
    rewrite P, T. cbn [negb set_organization fst snd].
    rewrite !(publishMessage_uninitialised _ _ w C).
    repeat split; reflexivity.
  - unfold post_invoice, post_customer, answer, bind, lift, ret.
    rewrite P, T. split; reflexivity.
Qed.

Lemma routes_answer_500_when_publishing_fails_witness :
  prop Sample.user "org_id" = Normal (Str "org-1")
  /\ post_invoice Sample.development 0 Sample.user Undefined Sample.idle
     = (internal_error "An error occurred while creating invoice", Sample.idle).
Proof.
  split; [reflexivity|].
  exact (proj1 (proj2
    (routes_answer_500_when_publishing_fails Sample.development 0 Sample.user []
       "inv-1" Sample.idle (Str "org-1") eq_refl eq_refl))).
Defined.

End GatewayRoutes.

(* ================================================================== *)
(** ** Plain text of an email *)
(* ================================================================== *)

Section PlainText.
Import Text.

Lemma contains_replace_tags (s : string) :
  forall in_tag,
    contains ">"%char s = false ->
    contains ">"%char (replace_tags in_tag s) = false.
Proof.
  induction s as [|c rest IH]; intros in_tag H; [reflexivity|].
  simpl in H. apply orb_false_iff in H. destruct H as [Hc Hr].
  simpl. rewrite Hc, Hr, andb_false_r. destruct in_tag.
  - apply IH. exact Hr.
  - simpl. rewrite Hc. apply IH. exact Hr.
Qed.

Lemma tag_free_replace_tags (s : string) :
  forall in_tag, tag_free (replace_tags in_tag s) = true.
Proof.
  induction s as [|c rest IH]; intros in_tag; [reflexivity|].
  simpl. destruct in_tag.
  - destruct (Ascii.eqb c ">"%char); [|apply IH].
    simpl. apply IH.
  - destruct (Ascii.eqb c "<"%char) eqn:Ec; simpl.
    + destruct (contains ">"%char rest) eqn:Er; [apply IH|].
      simpl. rewrite Ec, (contains_replace_tags rest false Er). simpl. apply IH.
    + rewrite Ec. simpl. apply IH.
Qed.

Lemma space_is_space : is_space space = true.
Proof. reflexivity. Qed.

Lemma is_space_not_gt (c : ascii) : is_space c = true -> Ascii.eqb c ">"%char = false.
Proof.
  intros H. destruct (Ascii.eqb c ">"%char) eqn:E; [|reflexivity].
  apply Ascii.eqb_eq in E. subst c. discriminate.
Qed.

Lemma is_space_not_lt (c : ascii) : is_space c = true -> Ascii.eqb c "<"%char = false.
Proof.
  intros H. destruct (Ascii.eqb c "<"%char) eqn:E; [|reflexivity].
  apply Ascii.eqb_eq in E. subst c. discriminate.
Qed.

Lemma contains_replace_runs (s : string) :
  forall in_run,
    contains ">"%char (replace_runs space in_run s) = contains ">"%char s.
Proof.
  induction s as [|c rest IH]; intros in_run; [reflexivity|].
  simpl. destruct (is_space c) eqn:E.
  - rewrite (is_space_not_gt c E). destruct in_run; simpl; apply IH.
  - simpl. rewrite IH. reflexivity.
Qed.

Lemma tag_free_replace_runs (s : string) :
  forall in_run, tag_free s = true -> tag_free (replace_runs space in_run s) = true.
Proof.
  induction s as [|c rest IH]; intros in_run H; [reflexivity|].
  simpl in H. apply andb_true_iff in H. destruct H as [Hc Hr].
  simpl. destruct (is_space c) eqn:E.
  - destruct in_run; simpl; apply IH; exact Hr.
  - simpl. rewrite contains_replace_runs, Hc. simpl. apply IH. exact Hr.
Qed.

Lemma tag_free_trim_start (s : string) : tag_free s = true -> tag_free (trim_start s) = true.
Proof.
  induction s as [|c rest IH]; intros H; [reflexivity|].
  simpl. destruct (is_space c); [|exact H].
  simpl in H. apply andb_true_iff in H. apply IH. apply H.
Qed.

Lemma contains_trim_end (s : string) :
  contains ">"%char (trim_end s) = contains ">"%char s.
Proof.
  induction s as [|c rest IH]; [reflexivity|].
  simpl. destruct (trim_end rest) as [|d kept] eqn:E.
  - simpl in IH. rewrite <- IH.
    destruct (is_space c) eqn:Ec; simpl.
    + rewrite (is_space_not_gt c Ec). reflexivity.
    + rewrite orb_false_r. reflexivity.
  - simpl. simpl in IH. rewrite <- IH. reflexivity.
Qed.

Lemma tag_free_trim_end (s : string) : tag_free s = true -> tag_free (trim_end s) = true.
Proof.
  induction s as [|c rest IH]; intros H; [reflexivity|].
  simpl in H. apply andb_true_iff in H. destruct H as [Hc Hr].
  specialize (IH Hr). pose proof (contains_trim_end rest) as Hk.
  simpl. destruct (trim_end rest) as [|d kept] eqn:E.
  - destruct (is_space c) eqn:Ec; [reflexivity|].
    simpl. rewrite andb_false_r. reflexivity.
  - change (tag_free (String c (String d kept)))
      with (negb (Ascii.eqb c "<"%char && contains ">"%char (String d kept))
            && tag_free (String d kept)).
    rewrite Hk, Hc, IH. reflexivity.
Qed.

(** X10.  The plain-text version [stripHtml] makes of an email holds no
    tag: none of its ["<"] has a [">"] after it. *)
Theorem stripHtml_leaves_no_tag (html : string) : tag_free (stripHtml html) = true.
Proof.
  unfold stripHtml, trim.
  apply tag_free_trim_end, tag_free_trim_start, tag_free_replace_runs,
    tag_free_replace_tags.
Qed.

Lemma starts_clean_in_run (s : string) : starts_clean (replace_runs space true s) = true.
Proof.
  induction s as [|c rest IH]; [reflexivity|].
  simpl. destruct (is_space c) eqn:E; [exact IH|]. simpl. rewrite E. reflexivity.
Qed.

Lemma single_spaced_replace_runs (s : string) :
  forall in_run, single_spaced (replace_runs space in_run s) = true.
Proof.
  induction s as [|c rest IH]; intros in_run; [reflexivity|].
  simpl. destruct (is_space c) eqn:E.
  - destruct in_run; [apply IH|].
    simpl. rewrite starts_clean_in_run, IH. reflexivity.
  - simpl. rewrite E, IH. reflexivity.
Qed.

Lemma single_spaced_trim_start (s : string) :
  single_spaced s = true -> single_spaced (trim_start s) = true.
Proof.
  induction s as [|c rest IH]; intros H; [reflexivity|].
  simpl. destruct (is_space c); [|exact H].
  simpl in H. apply andb_true_iff in H. apply IH. apply H.
Qed.

Lemma starts_clean_trim_start (s : string) : starts_clean (trim_start s) = true.
Proof.
  induction s as [|c rest IH]; [reflexivity|].
  simpl. destruct (is_space c) eqn:E; [exact IH|]. simpl. rewrite E. reflexivity.
Qed.

Lemma trim_end_head (s : string) (d : ascii) (kept : string) :
  trim_end s = String d kept -> exists rest, s = String d rest.
Proof.
  destruct s as [|c rest]; simpl; [discriminate|].
  destruct (trim_end rest).
  - destruct (is_space c); [discriminate|]. intros H. injection H as <- _. eauto.
  - intros H. injection H as <- _. eauto.
Qed.

Lemma starts_clean_trim_end (s : string) :
  starts_clean s = true -> starts_clean (trim_end s) = true.
Proof.
  destruct s as [|c rest]; intros H; [reflexivity|].
  simpl in *. destruct (trim_end rest).
  - destruct (is_space c) eqn:E; [reflexivity|]. simpl. rewrite E. reflexivity.
  - exact H.
Qed.

Lemma single_spaced_trim_end (s : string) :
  single_spaced s = true -> single_spaced (trim_end s) = true.
Proof.
  induction s as [|c rest IH]; intros H; [reflexivity|].
  simpl in H. apply andb_true_iff in H. destruct H as [Hc Hr].
  specialize (IH Hr). simpl.
  destruct (trim_end rest) as [|d kept] eqn:E.
  - destruct (is_space c) eqn:Ec; [reflexivity|]. simpl. rewrite Ec. reflexivity.
  - destruct (trim_end_head rest d kept E) as [rest' ->].
    change (single_spaced (String c (String d kept)))
      with ((if is_space c then Ascii.eqb c space && negb (is_space d) else true)
            && single_spaced (String d kept)).
    rewrite IH, andb_true_r. exact Hc.
Qed.

Lemma ends_clean_trim_end (s : string) : ends_clean (trim_end s) = true.
Proof.
  induction s as [|c rest IH]; [reflexivity|].
  simpl. destruct (trim_end rest) as [|d kept] eqn:E.
  - destruct (is_space c) eqn:Ec; [reflexivity|]. simpl. rewrite Ec. reflexivity.
  - exact IH.
Qed.

(** X11.  In the plain-text version every whitespace character is one
    space standing between two other characters: no tab or line break is
    left, no two spaces follow each other, and the text neither begins
    nor ends with one. *)
Theorem stripHtml_spacing (html : string) :
  single_spaced (stripHtml html) = true
  /\ starts_clean (stripHtml html) = true
  /\ ends_clean (stripHtml html) = true.
Proof.
  unfold stripHtml, trim. repeat split.
  - apply single_spaced_trim_end, single_spaced_trim_start, single_spaced_replace_runs.
  - apply starts_clean_trim_end, starts_clean_trim_start.
  - apply ends_clean_trim_end.
Qed.

Lemma replace_tags_tag_free (s : string) :
  tag_free s = true -> replace_tags false s = s.
Proof.
  induction s as [|c rest IH]; intros H; [reflexivity|].
  simpl in H. apply andb_true_iff in H. destruct H as [Hc Hr].
  simpl. apply negb_true_iff in Hc. rewrite Hc, (IH Hr). reflexivity.
Qed.

Lemma replace_runs_single_spaced (s : string) :
  forall in_run,
    single_spaced s = true ->
    (in_run = true -> starts_clean s = true) ->
    replace_runs space in_run s = s.
Proof.
  induction s as [|c rest IH]; intros in_run H Hs; [reflexivity|].
  simpl in H. apply andb_true_iff in H. destruct H as [Hc Hr].
  simpl. destruct (is_space c) eqn:E.
  - apply andb_true_iff in Hc. destruct Hc as [Hsp Hn].
    apply Ascii.eqb_eq in Hsp. subst c.
    destruct in_run.
    + specialize (Hs eq_refl). simpl in Hs. discriminate.
    + rewrite (IH true Hr (fun _ => Hn)). reflexivity.
  - rewrite (IH false Hr); [reflexivity|]. intros N. discriminate.
Qed.

Lemma trim_start_clean (s : string) : starts_clean s = true -> trim_start s = s.
Proof.
  destruct s as [|c rest]; intros H; [reflexivity|].
  simpl in *. apply negb_true_iff in H. rewrite H. reflexivity.
Qed.

Lemma trim_end_clean (s : string) : ends_clean s = true -> trim_end s = s.
Proof.
  induction s as [|c rest IH]; intros H; [reflexivity|].
  destruct rest as [|d rest'].
  - simpl in H. apply negb_true_iff in H. simpl. rewrite H. reflexivity.
  - change (ends_clean (String c (String d rest'))) with (ends_clean (String d rest')) in H.
    change (trim_end (String c (String d rest')))
      with (match trim_end (String d rest') with
            | EmptyString => if is_space c then EmptyString else String c EmptyString
            | kept => String c kept
            end).
    rewrite (IH H). reflexivity.
Qed.

(** X12.  [stripHtml] changes nothing in a text it has already
    stripped. *)
Theorem stripHtml_idempotent (html : string) :
  stripHtml (stripHtml html) = stripHtml html.
Proof.
  assert (tag_free (stripHtml html) = true) as Ht.
  { apply tag_free_trim_end, tag_free_trim_start, tag_free_replace_runs,
      tag_free_replace_tags. }
  assert (single_spaced (stripHtml html) = true) as Hs.
  { apply single_spaced_trim_end, single_spaced_trim_start, single_spaced_replace_runs. }
  assert (starts_clean (stripHtml html) = true) as Hb.
  { apply starts_clean_trim_end, starts_clean_trim_start. }
  assert (ends_clean (stripHtml html) = true) as He.
  { apply ends_clean_trim_end. }
  unfold stripHtml at 1. unfold trim.
  rewrite (replace_tags_tag_free _ Ht).
  rewrite (replace_runs_single_spaced _ false Hs) by discriminate.
  rewrite (trim_start_clean _ Hb). apply trim_end_clean. exact He.
Qed.

End PlainText.

(* ================================================================== *)
(** ** handleSendInvoice: what it refuses and what it leaves alone *)
(* ================================================================== *)

Section SendingGuards.
Import Correlation SendInvoice.

Lemma email_request_invoices (requestId : string) (data : value) (w : World) :
  invoices (fst (email_request requestId data w)) = invoices w.
Proof.
  unfold email_request, subscribe, publish.
  cbn [emit with_log with_subs broken].
  destruct (mem "email.send.request" (broken w)); reflexivity.
Qed.

Lemma send_email_invoices (env : Env) (evs : list Event) (invoice data : value)
    (w : World) :
  invoices (snd (send_email env evs invoice data w)) = invoices w.
Proof.
  unfold send_email, try_catch, bind, await_email, ret, throw.
  destruct (email_run_world (fresh_request_id env) (evs ++ [Timeout])
              (email_request (fresh_request_id env) data w)) as [Hi _].
  rewrite email_request_invoices in Hi.
  destruct (promise (snd (email_run _ _ _))) as [[response|error]|];
    try destruct (not_production env); exact Hi.
Qed.

(** The store after handleSendInvoice: as it was, or with the update
    applied to the request's invoice. *)
Lemma handleSendInvoice_invoices (env : Env) (evs : list Event) (request : value)
    (w : World) :
  invoices (snd (handleSendInvoice env evs request w)) = invoices w
  \/ invoices (snd (handleSendInvoice env evs request w))
     = marked_sent env request (invoices w).
Proof.
  remember (handleSendInvoice env evs request w) as out eqn:E.
  unfold handleSendInvoice in E. rewrite try_catch_rethrow in E.
  unfold bind at 1 in E. unfold lift at 1 in E.
  destruct (prop request "invoice_id") as [invoice_id|e] eqn:P;
    [|subst out; left; reflexivity].
  assert (invoice_id = field request "invoice_id") as ->.
  { destruct request; simpl in P; try discriminate; injection P as <-; reflexivity. }
  unfold bind at 1 in E. unfold select_invoice in E.
  destruct (single _) as [invoice [fetchError|]]; cbn [fst snd] in E;
    [subst out; left; reflexivity|].
  destruct (truthy invoice); cbn [negb] in E; [|subst out; left; reflexivity].
  destruct (truthy (or_else _ _)); cbn [negb] in E; [|subst out; left; reflexivity].
  destruct (truthy (opt_prop _ _)); cbn [negb] in E; [|subst out; left; reflexivity].
  unfold bind at 1 in E. unfold select_organization in E.
  destruct (single _) as [row [orgError|]]; cbn [fst snd] in E;
    [subst out; left; reflexivity|].
  unfold bind at 1 in E. unfold update_invoice in E.
  destruct (update_error w); [subst out; left; reflexivity|].
  subst out. right. rewrite send_email_invoices. reflexivity.
Qed.

(** X8.  handleSendInvoice changes no invoice but the one the request
    names for the organization it names: every other row of the store is
    where it was and as it was, whatever the email exchange brings. *)
Theorem send_touches_only_the_requested_invoice
    (env : Env) (evs : list Event) (request : value) (w : World)
    (i : nat) (row : value) :
  nth_error (invoices w) i = Some row ->
  eq_column "id" (field request "invoice_id") row
  && eq_column "organization_id" (field request "organization_id") row = false ->
  nth_error (invoices (snd (handleSendInvoice env evs request w))) i = Some row.
Proof.
  intros Hrow Hother.
  destruct (handleSendInvoice_invoices env evs request w) as [E|E]; rewrite E.
  - exact Hrow.
  - unfold marked_sent. rewrite nth_error_map, Hrow. simpl. rewrite Hother. reflexivity.
Qed.

(** X9.  A request that matches no single invoice row of its
    organization, or whose invoice has neither a PDF URL (its own or the
    request's) nor a customer email, is refused before anything happens:
    handleSendInvoice throws, and nothing has been written to the store,
    subscribed to or published. *)
Theorem send_refuses_before_any_effect
    (env : Env) (evs : list Event) (request : value) (w : World) :
  (forall invoice,
      filter (fun row => eq_column "id" (field request "invoice_id") row
                         && eq_column "organization_id"
                              (field request "organization_id") row)
             (invoices w) = [invoice] ->
      truthy invoice
      && truthy (or_else (field request "pdf_url") (field invoice "pdf_url"))
      && truthy (opt_prop (field invoice "customers") "email") = false) ->
  exists e, handleSendInvoice env evs request w = (Throw e, w).
Proof.
  intros H.
  unfold handleSendInvoice. rewrite try_catch_rethrow.
  unfold bind at 1. unfold lift at 1.
  destruct (prop request "invoice_id") as [invoice_id|e] eqn:P; [|eauto].
  assert (invoice_id = field request "invoice_id") as ->.
  { destruct request; simpl in P; try discriminate; injection P as <-; reflexivity. }
  unfold bind at 1. unfold select_invoice.
  destruct (filter _ (invoices w)) as [|invoice [|second rest]] eqn:F;
    cbn [single fst snd]; [unfold throw; eauto | | unfold throw; eauto].
  specialize (H invoice eq_refl).
  destruct (truthy invoice); cbn [negb]; [|unfold throw; eauto].
  destruct (truthy (or_else _ _)); cbn [negb]; [|unfold throw; eauto].
  simpl in H. rewrite H. cbn [negb]. unfold throw. eauto.
Qed.

Lemma send_touches_only_the_requested_invoice_witness :
  nth_error (invoices Sample.invoice_svc) 0 = Some Sample.invoice_row
  /\ nth_error
       (invoices
          (snd (handleSendInvoice Sample.development []
                  (Obj [("invoice_id", Str "inv-1"); ("organization_id", Str "org-2")])
                  Sample.invoice_svc))) 0
     = Some Sample.invoice_row.
Proof.
  split; [reflexivity|].
  exact (send_touches_only_the_requested_invoice Sample.development []
           (Obj [("invoice_id", Str "inv-1"); ("organization_id", Str "org-2")])
           Sample.invoice_svc 0 Sample.invoice_row eq_refl eq_refl).
Defined.

Lemma send_refuses_before_any_effect_witness :
  filter (fun row => eq_column "id" (Str "inv-1") row
                     && eq_column "organization_id" (Str "org-2") row)
         (invoices Sample.invoice_svc) = []
  /\ exists e,
       handleSendInvoice Sample.development []
         (Obj [("invoice_id", Str "inv-1"); ("organization_id", Str "org-2")])
         Sample.invoice_svc
       = (Throw e, Sample.invoice_svc).
Proof.
  split; [reflexivity|].
  apply (send_refuses_before_any_effect Sample.development []
           (Obj [("invoice_id", Str "inv-1"); ("organization_id", Str "org-2")])
           Sample.invoice_svc).
  intros invoice H. discriminate H.
Defined.

End SendingGuards.

(* ================================================================== *)
(** ** Deleting an invoice *)
(* ================================================================== *)

Section Deleting.
Import Correlation SendInvoice DeleteInvoice Gateway Routes Worker Loops.

Lemma prop_normal (v : value) (k : string) (x : value) :
  prop v k = Normal x -> x = field v k.
Proof. destruct v; simpl; intros H; try discriminate; injection H as <-; reflexivity. Qed.

(** X13.  handleDeleteInvoice deletes draft and cancelled invoices only:
    when the request matches no single row of its organization, or the
    row has any other status, it throws, the store is unchanged and the
    storage is not asked to remove anything. *)
Theorem delete_refuses_other_statuses
    (storage : Storage) (deleteError : option string) (request : value) (w : World) :
  (forall row,
      filter (matches (field request "invoice_id") (field request "organization_id"))
             (invoices w) = [row] ->
      deletable row = false) ->
  exists e, handleDeleteInvoice storage deleteError request w = (Throw e, w).
Proof.
  intros H.
  unfold handleDeleteInvoice. rewrite try_catch_rethrow.
  unfold bind at 1. unfold lift at 1.
  destruct (prop request "invoice_id") as [invoice_id|e] eqn:P; [|eauto].
  apply prop_normal in P. subst invoice_id.
  unfold bind at 1. unfold select_id_status.
  destruct (filter _ (invoices w)) as [|row [|second rest]] eqn:F;
    cbn [single fst snd]; [unfold throw; eauto | | unfold throw; eauto].
  specialize (H row eq_refl). unfold deletable in H.
  apply orb_false_iff in H. destruct H as [H1 H2].
  cbn [truthy negb field lookup String.eqb Ascii.eqb Bool.eqb].
  simpl lookup. rewrite H1, H2. cbn [negb andb]. unfold throw. eauto.
Qed.

Lemma delete_refuses_other_statuses_witness :
  filter (matches (Str "inv-1") (Str "org-2")) (invoices Sample.invoice_svc) = []
  /\ exists e,
       handleDeleteInvoice (mkStorage None None (fun _ _ => ret tt)) None
         (Obj [("invoice_id", Str "inv-1"); ("organization_id", Str "org-2")])
         Sample.invoice_svc
       = (Throw e, Sample.invoice_svc).
Proof.
  split; [reflexivity|].
  apply (delete_refuses_other_statuses (mkStorage None None (fun _ _ => ret tt)) None
           (Obj [("invoice_id", Str "inv-1"); ("organization_id", Str "org-2")])
           Sample.invoice_svc).
  intros row H. discriminate H.
Defined.

Lemma filter_matches_deleted (p : value -> bool) (rows : list value) :
  filter p (filter (fun row => negb (p row)) rows) = [].
Proof.
  induction rows as [|row rows IH]; [reflexivity|].
  simpl. destruct (p row) eqn:E; simpl; [exact IH|]. rewrite E. exact IH.
Qed.

(** X14.  For a request that matches one draft or cancelled invoice of
    its organization, handleDeleteInvoice returns [{ success: true }]
    with the row gone from the store, and asks the storage to remove
    [<organization_id>/<path>/<invoice_id>.pdf]; an exception of the
    storage client does not fail the request. *)
Theorem delete_succeeds_whatever_the_storage_does
    (storage : Storage) (request : value) (w : World) (row : value) :
  prop request "invoice_id" = Normal (field request "invoice_id") ->
  filter (matches (field request "invoice_id") (field request "organization_id"))
         (invoices w) = [row] ->
  deletable row = true ->
  let invoice_id := field request "invoice_id" in
  let organization_id := field request "organization_id" in
  let deleted :=
    with_invoices (filter (fun r => negb (matches invoice_id organization_id r))) w in
  handleDeleteInvoice storage None request w
  = (Normal (Obj [("success", Bool true)]),
     snd (remove storage
            (CreateInvoice.default (PDF_STORAGE_BUCKET storage) "invoices")
            [filePath organization_id
               (CreateInvoice.default (PDF_STORAGE_PATH storage) "pdfs") invoice_id]
            deleted))
  /\ filter (matches invoice_id organization_id) (invoices deleted) = [].
Proof.
  intros P F D invoice_id organization_id deleted.
  subst invoice_id organization_id deleted.
  split; [|apply (filter_matches_deleted (matches _ _))].
  unfold handleDeleteInvoice. rewrite try_catch_rethrow.
  unfold bind at 1. unfold lift at 1. rewrite P.
  unfold bind at 1. unfold select_id_status. rewrite F. cbn [single fst snd].
  unfold deletable in D.
  cbn [truthy negb field].
  assert (forall a b, lookup "status" [("id", a); ("status", b)] = b) as L
    by reflexivity.
  rewrite !L.
  destruct (is_string (field row "status") "draft") eqn:E1.
  - cbn [negb andb]. unfold bind, delete_rows, try_catch, ret.
    destruct (remove storage _ _ _) as [[u|e] w']; reflexivity.
  - simpl in D. rewrite D. cbn [negb andb]. unfold bind, delete_rows, try_catch, ret.
    destruct (remove storage _ _ _) as [[u|e] w']; reflexivity.
Qed.

Lemma delete_succeeds_whatever_the_storage_does_witness :
  deletable Sample.invoice_row = true
  /\ fst (handleDeleteInvoice
            (mkStorage None None (fun _ _ => throw (mkError "storage unreachable")))
            None Sample.send_request Sample.invoice_svc)
     = Normal (Obj [("success", Bool true)]).
Proof.
  split; [reflexivity|].
  exact (f_equal fst
    (proj1 (delete_succeeds_whatever_the_storage_does
              (mkStorage None None (fun _ _ => throw (mkError "storage unreachable")))
              Sample.send_request Sample.invoice_svc Sample.invoice_row
              eq_refl eq_refl eq_refl))).
Defined.

(** The store after handleDeleteInvoice, when the storage client leaves
    the invoices alone: as it was, or without the rows the request
    names. *)
Lemma handleDeleteInvoice_invoices (storage : Storage) (deleteError : option string)
    (request : value) (w : World) :
  (forall bucket paths w0, invoices (snd (remove storage bucket paths w0)) = invoices w0) ->
  invoices (snd (handleDeleteInvoice storage deleteError request w)) = invoices w
  \/ invoices (snd (handleDeleteInvoice storage deleteError request w))
     = filter (fun row => negb (matches (field request "invoice_id")
                                  (field request "organization_id") row))
              (invoices w).
Proof.
  intros R.
  remember (handleDeleteInvoice storage deleteError request w) as out eqn:E.
  unfold handleDeleteInvoice in E. rewrite try_catch_rethrow in E.
  unfold bind at 1 in E. unfold lift at 1 in E.
  destruct (prop request "invoice_id") as [invoice_id|e] eqn:P;
    [|subst out; left; reflexivity].
  apply prop_normal in P. subst invoice_id.
  unfold bind at 1 in E. unfold select_id_status in E.
  destruct (single _) as [invoice [fetchError|]]; cbn [fst snd] in E;
    [subst out; left; reflexivity|].
  cbn [truthy negb] in E.
  destruct (negb (is_string _ _) && negb (is_string _ _));
    [subst out; left; reflexivity|].
  unfold bind at 1 in E. unfold delete_rows in E.
  destruct deleteError as [err|]; [subst out; left; reflexivity|].
  right. subst out. unfold bind, try_catch, ret.
  match goal with
  | |- context [remove storage ?b ?p ?w0] =>
      specialize (R b p w0); destruct (remove storage b p w0) as [[u|e] w']
  end; exact R.
Qed.

Lemma filter_twice (p : value -> bool) (rows : list value) :
  filter p (filter p rows) = filter p rows.
Proof.
  induction rows as [|row rows IH]; [reflexivity|].
  simpl. destruct (p row) eqn:N; simpl; [rewrite N, IH; reflexivity | exact IH].
Qed.

(** X15.  handleDeleteInvoice removes no row but those matching both the
    request's invoice id and its organization: the other rows of the
    store, those of other organizations among them, are the same and in
    the same order afterwards. *)
Theorem delete_touches_only_the_requested_invoice
    (storage : Storage) (deleteError : option string) (request : value) (w : World) :
  (forall bucket paths w0, invoices (snd (remove storage bucket paths w0)) = invoices w0) ->
  let other row :=
    negb (matches (field request "invoice_id") (field request "organization_id") row) in
  filter other (invoices (snd (handleDeleteInvoice storage deleteError request w)))
  = filter other (invoices w).
Proof.
  intros R other.
  destruct (handleDeleteInvoice_invoices storage deleteError request w R) as [E|E];
    rewrite E; [reflexivity|].
  apply filter_twice.
Qed.

Lemma delete_touches_only_the_requested_invoice_witness :
  (forall (bucket : string) (paths : list string) (w0 : World),
      invoices (snd (ret tt w0)) = invoices w0)
  /\ filter (fun row => negb (matches (Str "inv-9") (Str "org-1") row))
       (invoices (snd (handleDeleteInvoice (mkStorage None None (fun _ _ => ret tt)) None
                         (Obj [("invoice_id", Str "inv-9");
                               ("organization_id", Str "org-1")])
                         Sample.invoice_svc)))
     = [Sample.invoice_row].
Proof.
  split; [reflexivity|].
  exact (delete_touches_only_the_requested_invoice
           (mkStorage None None (fun _ _ => ret tt)) None
           (Obj [("invoice_id", Str "inv-9"); ("organization_id", Str "org-1")])
           Sample.invoice_svc (fun _ _ _ => eq_refl)).
Defined.

(** What handleDeleteInvoice does with a row it may not delete. *)
Lemma handleDeleteInvoice_undeletable (storage : Storage) (deleteError : option string)
    (request : value) (w : World) (row : value) :
  prop request "invoice_id" = Normal (field request "invoice_id") ->
  filter (matches (field request "invoice_id") (field request "organization_id"))
         (invoices w) = [row] ->
  deletable row = false ->
  handleDeleteInvoice storage deleteError request w
  = (Throw (mkError ("Cannot delete invoice with status "
                     ++ to_string (field row "status")
                     ++ ". Only draft or cancelled invoices can be deleted.")), w).
Proof.
  intros P F D.
  unfold handleDeleteInvoice. rewrite try_catch_rethrow.
  unfold bind at 1. unfold lift at 1. rewrite P.
  unfold bind at 1. unfold select_id_status. rewrite F. cbn [single fst snd].
  unfold deletable in D. apply orb_false_iff in D. destruct D as [D1 D2].
  cbn [truthy negb field].
  assert (forall a b, lookup "status" [("id", a); ("status", b)] = b) as L
    by reflexivity.
  rewrite !L, D1, D2. reflexivity.
Qed.

(** X16.  DELETE /api/invoices/:id answers "Invoice <id> has been
    deleted" as soon as the request is published, with no reply address.
    When the invoice is one handleDeleteInvoice refuses (a sent, paid or
    overdue one), the delete loop of invoice-svc consumes the request,
    the handler throws, and with no reply address nothing is published:
    the invoice stays in the store and the caller has been told it is
    deleted. *)
Theorem gateway_reports_deleted_while_invoice_stays
    (storage : Storage) (deleteError : option string) (user : value) (id org : string)
    (gw svc : World) (row : value) :
  prop user "org_id" = Normal (Str org) ->
  org <> "" ->
  client gw = true ->
  broken gw = [] ->
  filter (matches (Str id) (Str org)) (invoices svc) = [row] ->
  deletable row = false ->
  exists request,
    delete_invoice user id gw
    = (mkResponse 200 (Obj [("message", Str ("Invoice " ++ id ++ " has been deleted"))]),
       emit (EPublish request) gw)
    /\ subject request = "invoice.delete"
    /\ for_await (invoice_delete (handleDeleteInvoice storage deleteError)) [request] svc
       = (Waiting, svc).
Proof.
  intros P O C B F D.
  exists (mkMsg "invoice.delete"
            (encode (Obj [("invoice_id", Str id); ("organization_id", Str org)])) None).
  repeat split.
  - unfold delete_invoice, answer, bind, lift, ret. rewrite P.
    cbn [truthy negb]. apply String.eqb_neq in O. rewrite O. cbn [negb].
    rewrite (publishMessage_connected _ _ gw C B). reflexivity.
  - cbn [for_await]. unfold invoice_delete, try_catch, bind at 1, lift at 1.
    cbn [data encode jsonify decode].
    unfold bind at 1.
    rewrite (handleDeleteInvoice_undeletable storage deleteError
               (Obj [("invoice_id", Str id); ("organization_id", Str org)])
               svc row eq_refl F D).
    reflexivity.
Qed.

Lemma gateway_reports_deleted_while_invoice_stays_witness :
  deletable (Obj [("id", Str "inv-1"); ("organization_id", Str "org-1");
                  ("status", Str "paid")]) = false
  /\ exists request,
       delete_invoice Sample.user "inv-1" Sample.idle
       = (mkResponse 200 (Obj [("message", Str "Invoice inv-1 has been deleted")]),
          emit (EPublish request) Sample.idle)
       /\ for_await
            (invoice_delete
               (handleDeleteInvoice (mkStorage None None (fun _ _ => ret tt)) None))
            [request]
            (with_invoices
               (fun _ => [Obj [("id", Str "inv-1"); ("organization_id", Str "org-1");
                               ("status", Str "paid")]]) Sample.idle)
          = (Waiting,
             with_invoices
               (fun _ => [Obj [("id", Str "inv-1"); ("organization_id", Str "org-1");
                               ("status", Str "paid")]]) Sample.idle).
Proof.
  split; [reflexivity|].
  destruct (gateway_reports_deleted_while_invoice_stays
              (mkStorage None None (fun _ _ => ret tt)) None Sample.user "inv-1" "org-1"
              Sample.idle
              (with_invoices
                 (fun _ => [Obj [("id", Str "inv-1"); ("organization_id", Str "org-1");
                                 ("status", Str "paid")]]) Sample.idle)
              (Obj [("id", Str "inv-1"); ("organization_id", Str "org-1");
                    ("status", Str "paid")]))
    as [request [H1 [_ H2]]]; try reflexivity; try discriminate.
  exists request. exact (conj H1 H2).
Defined.

Lemma append_cancel (a x y : string) : a ++ x = a ++ y -> x = y.
Proof.
  induction a as [|c a IH]; simpl; intros H; [exact H|].
  injection H as H. exact (IH H).
Qed.

(** X17.  The PDF outlives its invoice.  handleGeneratePdf stores the PDF
    under a name made from the invoice number, which handleCreateInvoice
    prints as [INV-...]; handleDeleteInvoice asks the storage to remove
    the file named after the invoice id, which handleCreateInvoice makes
    as [inv-<uuid>].  In the same organization folder the two paths are
    never the same. *)
Theorem stored_pdf_is_not_the_file_removed
    (organization_id : value) (storagePath uuid : string) (currentYear nextNumber : Z) :
  GeneratePdf.filePath organization_id storagePath
    (GeneratePdf.pdfFilename (InvoiceNumber.invoiceNumber currentYear nextNumber))
  <> DeleteInvoice.filePath organization_id storagePath (Str ("inv-" ++ uuid)).
Proof.
  unfold GeneratePdf.filePath, DeleteInvoice.filePath, GeneratePdf.pdfFilename,
    InvoiceNumber.invoiceNumber.
  intros H.
  apply append_cancel in H. injection H as H.
  apply append_cancel in H. injection H as H.
  discriminate H.
Qed.

End Deleting.

(* ================================================================== *)
(** ** The invoice number *)
(* ================================================================== *)

Section Numbering.
Import Text InvoiceNumber.

Lemma digits_string_of_uint (d : Decimal.uint) :
  forall acc rest,
    digits 10 acc (NilEmpty.string_of_uint d ++ rest) = digits 10 (uint_value d acc) rest.
Proof.
  induction d; intros acc rest; simpl; try apply IHd. reflexivity.
Qed.

Lemma uint_value_acc (d : Decimal.uint) :
  forall acc, Z.pos (Pos.of_uint_acc d acc) = uint_value d (Z.pos acc).
Proof.
  induction d; intros acc; cbn [Pos.of_uint_acc uint_value]; try reflexivity;
    rewrite IHd; f_equal; lia.
Qed.

Lemma uint_value_of_uint (d : Decimal.uint) :
  uint_value d 0 = Z.of_N (Pos.of_uint d).
Proof.
  induction d; simpl; try reflexivity; try exact IHd;
    rewrite uint_value_acc; reflexivity.
Qed.

Lemma uint_value_shift (d : Decimal.uint) :
  forall acc,
    uint_value d acc
    = (acc * 10 ^ Z.of_nat (String.length (NilEmpty.string_of_uint d)) + uint_value d 0)%Z.
Proof.
  induction d; intros acc; cbn [uint_value NilEmpty.string_of_uint String.length];
    [rewrite Z.pow_0_r; lia | ..];
    rewrite (IHd (acc * 10 + _)%Z), (IHd (0 * 10 + _)%Z), Nat2Z.inj_succ, Z.pow_succ_r
      by lia; ring.
Qed.

Lemma string_of_Z_numeral (n : Z) :
  (0 <= n)%Z ->
  exists d,
    string_of_Z n = NilEmpty.string_of_uint d /\ uint_value d 0 = n /\ d <> Decimal.Nil.
Proof.
  intros H. destruct n as [|p|p]; [| |lia].
  - exists (Decimal.D0 Decimal.Nil). repeat split. discriminate.
  - exists (Pos.to_uint p).
    pose proof (DecimalPos.Unsigned.to_uint_nonnil p) as N.
    repeat split; [|rewrite uint_value_of_uint, DecimalPos.Unsigned.of_to; reflexivity | exact N].
    unfold string_of_Z. simpl. unfold NilZero.string_of_uint.
    destruct (Pos.to_uint p); try reflexivity. congruence.
Qed.

Lemma all_digits_app (a b : string) :
  all_digits (a ++ b) = all_digits a && all_digits b.
Proof.
  induction a as [|c a IH]; [reflexivity|]. simpl. rewrite IH, andb_assoc. reflexivity.
Qed.

Lemma all_digits_string_of_uint (d : Decimal.uint) :
  all_digits (NilEmpty.string_of_uint d) = true.
Proof. induction d; simpl; try exact IHd. reflexivity. Qed.

Lemma all_digits_repeat (n : nat) : all_digits (repeat_char "0" n) = true.
Proof. induction n; [reflexivity | exact IHn]. Qed.

Lemma is_digit_not_dash (c : ascii) : is_digit c = true -> Ascii.eqb c "-" = false.
Proof.
  intros H. destruct (Ascii.eqb c "-") eqn:E; [|reflexivity].
  apply Ascii.eqb_eq in E. subst c. discriminate H.
Qed.

Lemma all_digits_no_dash (s : string) : all_digits s = true -> contains "-" s = false.
Proof.
  induction s as [|c s IH]; [reflexivity|].
  simpl. intros H. apply andb_true_iff in H. destruct H as [Hc Hs].
  rewrite (is_digit_not_dash c Hc), (IH Hs). reflexivity.
Qed.

Lemma split_single (sep : ascii) (s : string) :
  contains sep s = false -> split sep s = [s].
Proof.
  induction s as [|c s IH]; [reflexivity|].
  simpl. intros H. apply orb_false_iff in H. destruct H as [Hc Hs].
  rewrite Hc, (IH Hs). reflexivity.
Qed.

Lemma digits_zeros (n : nat) (acc : Z) (s : string) :
  digits 10 acc (repeat_char "0" n ++ s) = digits 10 (acc * 10 ^ Z.of_nat n) s.
Proof.
  revert acc. induction n as [|n IH]; intros acc.
  - simpl. f_equal. lia.
  - cbn [repeat_char String.append]. change (digits 10 acc (String "0" ?r))
      with (digits 10 (acc * 10 + 0) r).
    rewrite IH, Nat2Z.inj_succ, Z.pow_succ_r by lia. f_equal. ring.
Qed.

(** [parseInt] of a string of decimal digits is the number they spell. *)
Lemma parseInt_all_digits (s : string) :
  all_digits s = true -> s <> EmptyString -> parseInt s = Some (digits 10 0 s).
Proof.
  destruct s as [|c rest]; [congruence|]. intros H _.
  simpl in H. apply andb_true_iff in H. destruct H as [Hc Hr].
  destruct c as [b0 b1 b2 b3 b4 b5 b6 b7].
  destruct b0, b1, b2, b3, b4, b5, b6, b7; try discriminate Hc;
    try (unfold parseInt; cbn [trim_start is_space]; simpl;
         match goal with |- Some (match ?d with _ => _ end) = _ => destruct d end;
         reflexivity).
  destruct rest as [|c2 rest2].
  - reflexivity.
  - simpl in Hr. apply andb_true_iff in Hr. destruct Hr as [Hc2 Hr2].
    destruct c2 as [b0 b1 b2 b3 b4 b5 b6 b7].
    destruct b0, b1, b2, b3, b4, b5, b6, b7; try discriminate Hc2;
      unfold parseInt; cbn [trim_start is_space]; simpl;
      match goal with |- Some (match ?d with _ => _ end) = _ => destruct d end;
      reflexivity.
Qed.

Lemma append_empty (s : string) : s ++ EmptyString = s.
Proof. induction s as [|c s IH]; [reflexivity|]. simpl. rewrite IH. reflexivity. Qed.

Lemma length_append (a b : string) :
  String.length (a ++ b) = (String.length a + String.length b)%nat.
Proof. induction a as [|c a IH]; [reflexivity|]. simpl. rewrite IH. reflexivity. Qed.

Lemma length_repeat_char (c : ascii) (n : nat) : String.length (repeat_char c n) = n.
Proof. induction n as [|n IH]; [reflexivity|]. simpl. rewrite IH. reflexivity. Qed.

Lemma numeral_not_empty (d : Decimal.uint) :
  d <> Decimal.Nil -> NilEmpty.string_of_uint d <> EmptyString.
Proof. destruct d; simpl; congruence. Qed.

Lemma append_not_empty (a b : string) : b <> EmptyString -> a ++ b <> EmptyString.
Proof. destruct a; simpl; [tauto | discriminate]. Qed.

(** The digits the handler prints for a sequence number, read after
    [acc]. *)
Lemma digits_printed (n acc : Z) :
  (0 <= n)%Z ->
  let printed := padStart 4 "0" (string_of_Z n) in
  all_digits printed = true
  /\ printed <> EmptyString
  /\ digits 10 acc printed = (acc * 10 ^ Z.of_nat (String.length printed) + n)%Z.
Proof.
  intros H printed. subst printed.
  destruct (string_of_Z_numeral n H) as [d [E [V N]]].
  unfold padStart. rewrite E.
  set (k := (4 - String.length (NilEmpty.string_of_uint d))%nat).
  repeat split.
  - rewrite all_digits_app, all_digits_repeat, all_digits_string_of_uint. reflexivity.
  - apply append_not_empty, numeral_not_empty, N.
  - rewrite digits_zeros.
    rewrite <- (append_empty (NilEmpty.string_of_uint d)) at 1.
    rewrite digits_string_of_uint. cbn [digits].
    rewrite uint_value_shift, V, length_append, length_repeat_char,
      Nat2Z.inj_add, Z.pow_add_r by lia.
    ring.
Qed.

(** X18.  The sequence part the handler prints parses back to the
    sequence number: [parseInt] of [n.toString().padStart(4, '0')] is [n]
    for every number from 0 up to 2^53, the range in which a JavaScript
    number is the integer and prints as its plain decimal numeral. *)
Theorem printed_sequence_parses_back (n : Z) :
  (0 <= n)%Z ->
  (n < 2 ^ 53)%Z ->
  parseInt (padStart 4 "0" (string_of_Z n)) = Some n.
Proof.
  intros H _. destruct (digits_printed n 0 H) as [A [N D]].
  rewrite parseInt_all_digits by assumption. rewrite D. reflexivity.
Qed.

Lemma printed_sequence_parses_back_witness :
  (0 <= 12 < 2 ^ 53)%Z /\ parseInt "0012" = Some 12%Z.
Proof.
  split; [lia|]. apply (printed_sequence_parses_back 12); lia.
Defined.

(** X19.  The number after one the handler printed itself is not the
    next of the sequence.  [lastNumber.split('-')[1]] is everything after
    [INV-], the year included, so from a last invoice numbered
    [INV-<year><sequence n>] the handler takes
    [<year> * 10^(digits printed for n) + n + 1] as the next sequence
    number, and prints it after the year again: after [INV-20250001]
    comes [INV-202520250002]. *)
Theorem next_number_absorbs_the_year
    (currentYear n : Z) (row : value) (rows : list value) :
  (0 <= currentYear)%Z ->
  (0 <= n)%Z ->
  prop row "number" = Normal (Str (invoiceNumber currentYear n)) ->
  let printed := Z.of_nat (String.length (padStart 4 "0" (string_of_Z n))) in
  (currentYear * 10 ^ printed + n + 1 < 2 ^ 53)%Z ->
  nextNumber None (Arr (row :: rows))
  = Normal (currentYear * 10 ^ printed + n + 1)%Z.
Proof.
  intros Hy Hn Hrow printed _. subst printed.
  destruct (string_of_Z_numeral currentYear Hy) as [dy [Ey [Vy Ny]]].
  destruct (digits_printed n (uint_value dy 0) Hn) as [A [N D]].
  set (seq := padStart 4 "0" (string_of_Z n)) in *.
  assert (all_digits (string_of_Z currentYear ++ seq) = true) as Hall.
  { rewrite all_digits_app, Ey, all_digits_string_of_uint, A. reflexivity. }
  unfold nextNumber. rewrite Hrow. unfold invoiceNumber. fold seq.
  cbn [String.append truthy String.eqb negb contains Ascii.eqb Bool.eqb orb split].
  rewrite (split_single _ _ (all_digits_no_dash _ Hall)).
  cbn [nth].
  rewrite parseInt_all_digits
    by (try exact Hall; apply append_not_empty; exact N).
  rewrite Ey, digits_string_of_uint, D, Vy. reflexivity.
Qed.

Lemma next_number_absorbs_the_year_witness :
  prop (Obj [("number", Str "INV-20250001")]) "number"
  = Normal (Str (invoiceNumber 2025 1))
  /\ nextNumber None (Arr [Obj [("number", Str "INV-20250001")]]) = Normal 20250002%Z.
Proof.
  split; [reflexivity|].
  apply (next_number_absorbs_the_year 2025 1 (Obj [("number", Str "INV-20250001")]) []);
    [lia | lia | reflexivity | reflexivity].
Defined.

End Numbering.

(* ================================================================== *)
(** ** Invoice usage stays within the plan *)
(* ================================================================== *)

Section UsageLimits.
Import Usage.

Lemma latest_active_found (organizationId : string) (rows : list Subscription) :
  forall found s,
    fold_left
      (fun found row =>
         if (organization_id row =? organizationId) && (status row =? "active")
         then Some row else found)
      rows found = Some s ->
    found = Some s \/ In s rows.
Proof.
  induction rows as [|row rows IH]; intros found s H; simpl in *; [left; exact H|].
  apply IH in H. destruct H as [H|H]; [|right; right; exact H].
  destruct (_ && _); [|left; exact H].
  injection H as <-. right. left. reflexivity.
Qed.

Lemma latest_active_in (organizationId : string) (rows : list Subscription)
    (s : Subscription) :
  latest_active organizationId rows = Some s -> In s rows.
Proof.
  intros H. apply latest_active_found in H. destruct H as [H|H]; [discriminate | exact H].
Qed.

Lemma update_usage_ids (i : string) (usage : Z) (rows : list Subscription) :
  map id (update_usage i usage rows) = map id rows.
Proof.
  unfold update_usage. rewrite map_map. apply map_ext.
  intros row. destruct (id row =? i); reflexivity.
Qed.

Lemma same_id_same_row (rows : list Subscription) (r s : Subscription) :
  NoDup (map id rows) -> In r rows -> In s rows -> id r = id s -> r = s.
Proof.
  induction rows as [|row rows IH]; intros ND Hr Hs E; [destruct Hr|].
  simpl in ND. inversion ND as [|x l Hx Hl]; subst.
  destruct Hr as [Hr|Hr], Hs as [Hs|Hs]; subst.
  - reflexivity.
  - exfalso. apply Hx. rewrite E. apply in_map. exact Hs.
  - exfalso. apply Hx. rewrite <- E. apply in_map. exact Hr.
  - apply IH; assumption.
Qed.

Lemma within_limits_update (rows : list Subscription) (s : Subscription) (usage : Z) :
  NoDup (map id rows) ->
  In s rows ->
  within_limits rows = true ->
  match invoice_limit s with Some l => (usage <= l)%Z | None => True end ->
  within_limits (update_usage (id s) usage rows) = true.
Proof.
  intros ND Hs W L. unfold within_limits, update_usage in *.
  rewrite forallb_forall in *. intros row' Hin.
  apply in_map_iff in Hin. destruct Hin as [row [E Hrow]].
  destruct (id row =? id s) eqn:I.
  - apply String.eqb_eq in I.
    rewrite (same_id_same_row rows row s ND Hrow Hs I) in E. subst row'. simpl.
    destruct (invoice_limit s); [apply Z.leb_le; exact L | reflexivity].
  - subst row'. apply W. exact Hrow.
Qed.

(** One call keeps distinct ids and the limits. *)
Lemma increment_keeps_limits (qe ue : option string) (organizationId : string)
    (count : Z) (rows : list Subscription) :
  NoDup (map id rows) ->
  within_limits rows = true ->
  NoDup (map id (snd (incrementInvoiceUsage qe ue organizationId count rows)))
  /\ within_limits (snd (incrementInvoiceUsage qe ue organizationId count rows)) = true.
Proof.
  intros ND W. unfold incrementInvoiceUsage.
  destruct (negb (isValidUUID organizationId)); [split; assumption|].
  destruct qe; [split; assumption|].
  destruct (latest_active organizationId rows) as [s|] eqn:F; [|split; assumption].
  destruct (match invoice_limit s with
            | Some l => (invoice_usage s + count >? l)%Z
            | None => false
            end) eqn:L; [split; assumption|].
  destruct ue; [split; assumption|].
  cbn [snd]. split.
  - rewrite update_usage_ids. exact ND.
  - apply within_limits_update; try assumption.
    + apply (latest_active_in organizationId). exact F.
    + destruct (invoice_limit s); [|exact I]. lia.
Qed.

(** X20.  No series of calls of incrementInvoiceUsage takes a
    subscription over its limit: when the subscriptions have distinct
    ids and each limited one is within its limit, they still are after
    any calls, whatever the organizations and counts asked for (negative
    counts among them) and whatever the store answers. *)
Theorem usage_stays_within_limits (calls : list Call) (rows : list Subscription) :
  NoDup (map id rows) ->
  within_limits rows = true ->
  within_limits (increments calls rows) = true.
Proof.
  revert rows. induction calls as [|call calls IH]; intros rows ND W; [exact W|].
  simpl. destruct (increment_keeps_limits (queryError call) (updateError call)
                     (organizationId call) (count call) rows ND W) as [ND' W'].
  apply IH; assumption.
Qed.

Lemma usage_stays_within_limits_witness :
  NoDup (map id [mkSubscription "sub-1" "123e4567-e89b-42d3-a456-426614174000"
                   "active" 4 (Some 5%Z)])
  /\ within_limits
       (increments
          [mkCall None None "123e4567-e89b-42d3-a456-426614174000" 1;
           mkCall None None "123e4567-e89b-42d3-a456-426614174000" 1]
          [mkSubscription "sub-1" "123e4567-e89b-42d3-a456-426614174000"
             "active" 4 (Some 5%Z)]) = true
  /\ map invoice_usage
       (increments
          [mkCall None None "123e4567-e89b-42d3-a456-426614174000" 1;
           mkCall None None "123e4567-e89b-42d3-a456-426614174000" 1]
          [mkSubscription "sub-1" "123e4567-e89b-42d3-a456-426614174000"
             "active" 4 (Some 5%Z)]) = [5%Z].
Proof.
  assert (NoDup (map id [mkSubscription "sub-1" "123e4567-e89b-42d3-a456-426614174000"
                           "active" 4 (Some 5%Z)])) as ND.
  { repeat constructor. simpl. tauto. }
  split; [exact ND|]. split; [|reflexivity].
  exact (usage_stays_within_limits
           [mkCall None None "123e4567-e89b-42d3-a456-426614174000" 1;
            mkCall None None "123e4567-e89b-42d3-a456-426614174000" 1]
           [mkSubscription "sub-1" "123e4567-e89b-42d3-a456-426614174000"
              "active" 4 (Some 5%Z)] ND eq_refl).
Defined.

Lemma includes_prefix (needle rest : string) : includes needle (needle ++ rest) = true.
Proof.
  assert (starts_with needle (needle ++ rest) = true) as H.
  { induction needle as [|c needle IH]; [reflexivity|].
    simpl. rewrite Ascii.eqb_refl. exact IH. }
  destruct (needle ++ rest); simpl; simpl in H; rewrite H; reflexivity.
Qed.

(** X21.  A call that would take the organization's active subscription
    over its limit is refused and changes nothing in the store; the
    subscription.invoice.increment loop answers it with
    [{ error: "Limite de factures atteinte (<usage>/<limit>)",
       limitReached: true }]. *)
Theorem limit_reached_is_refused_and_flagged
    (updateError : option string) (organizationId : string) (count : Z)
    (rows : list Subscription) (s : Subscription) (l : Z)
    (h : value -> value -> M value) (subj r : string) (d : value) (w : World) :
  isValidUUID organizationId = true ->
  latest_active organizationId rows = Some s ->
  invoice_limit s = Some l ->
  (invoice_usage s + count > l)%Z ->
  prop d "organizationId" = Normal (field d "organizationId") ->
  h (field d "organizationId") (or_else (field d "count") (Num 1))
  = answer_of (fst (incrementInvoiceUsage None updateError organizationId count rows)) ->
  r <> "" ->
  broken w = [] ->
  let refusal :=
    "Limite de factures atteinte (" ++ string_of_Z (invoice_usage s) ++ "/"
    ++ string_of_Z l ++ ")" in
  incrementInvoiceUsage None updateError organizationId count rows
  = (Throw (mkError refusal), rows)
  /\ subscription_invoice_increment h (mkMsg subj (Json d) (Some r)) w
     = (Normal tt,
        emit (EPublish (mkMsg r (encode (Obj [("error", Str refusal);
                                              ("limitReached", Bool true)])) None)) w).
Proof.
  intros U F L Over P Hh R B refusal.
  assert (incrementInvoiceUsage None updateError organizationId count rows
          = (Throw (mkError refusal), rows)) as E.
  { unfold incrementInvoiceUsage. rewrite U, F, L. cbn [negb].
    replace (invoice_usage s + count >? l)%Z with true
      by (symmetry; apply Z.gtb_lt; lia).
    reflexivity. }
  assert (includes "Limite de factures atteinte" refusal = true) as Hinc.
  { exact (includes_prefix "Limite de factures atteinte"
             (" (" ++ string_of_Z (invoice_usage s) ++ "/" ++ string_of_Z l ++ ")")). }
  clearbody refusal.
  split; [exact E|].
  assert (reply_to (mkMsg subj (Json d) (Some r)) = Some r) as Hr.
  { unfold reply_to. simpl. apply String.eqb_neq in R. rewrite R. reflexivity. }
  unfold subscription_invoice_increment, try_catch, bind, lift.
  cbn [data decode]. rewrite P, Hh, E. cbn [fst answer_of throw message].
  rewrite Hr, Hinc.
  apply publish_healthy. exact B.
Qed.

Lemma limit_reached_is_refused_and_flagged_witness :
  isValidUUID "123e4567-e89b-42d3-a456-426614174000" = true
  /\ incrementInvoiceUsage None None "123e4567-e89b-42d3-a456-426614174000" 2
       [mkSubscription "sub-1" "123e4567-e89b-42d3-a456-426614174000" "active" 4
          (Some 5%Z)]
     = (Throw (mkError "Limite de factures atteinte (4/5)"),
        [mkSubscription "sub-1" "123e4567-e89b-42d3-a456-426614174000" "active" 4
           (Some 5%Z)]).
Proof.
  split; [reflexivity|].
  refine (proj1 (limit_reached_is_refused_and_flagged None
                   "123e4567-e89b-42d3-a456-426614174000" 2
                   [mkSubscription "sub-1" "123e4567-e89b-42d3-a456-426614174000"
                      "active" 4 (Some 5%Z)]
                   (mkSubscription "sub-1" "123e4567-e89b-42d3-a456-426614174000"
                      "active" 4 (Some 5%Z))
                   5
                   (fun _ _ => throw (mkError "Limite de factures atteinte (4/5)"))
                   "subscription.invoice.increment" "_INBOX.4"
                   (Obj [("organizationId", Str "123e4567-e89b-42d3-a456-426614174000");
                         ("count", Num 2)])
                   Sample.idle eq_refl eq_refl eq_refl _ eq_refl eq_refl _ eq_refl));
    [simpl; lia | discriminate].
Defined.

End UsageLimits.

(* ================================================================== *)
(** ** Opening a payment *)
(* ================================================================== *)

Section Paying.
Import SendInvoice Payments.

Lemma ptry_rethrow {A} (m : MP A) (s : Store) :
  ptry m (fun error => pthrow error) s = m s.
Proof. unfold ptry, pthrow. destruct (m s) as [[a|e] s']; reflexivity. Qed.

Lemma store_eta (s : Store) : mkStore (bus s) (payments s) = s.
Proof. destruct s; reflexivity. Qed.

Lemma columns_truthy (names : list string) (row : value) :
  truthy (columns names row) = true.
Proof. reflexivity. Qed.

Lemma columns_status (row : value) :
  field (columns ["id"; "status"; "customer_id"; "total_amount"; "currency"] row) "status"
  = field row "status".
Proof. reflexivity. Qed.

(** X22.  handleCreatePayment opens no checkout session for an invoice
    that is already paid, or for a request that matches no single invoice
    row of its organization: it throws before the payment provider is
    called, and the invoices and the payments are as they were. *)
Theorem payment_refused_before_the_provider_is_called
    (provider : Provider.t) (payment_id : string)
    (toISOString : value -> completion value) (insertError : option string)
    (request : value) (s : Store) :
  (forall row,
      filter (DeleteInvoice.matches (field request "invoice_id")
                (field request "organization_id"))
             (invoices (bus s)) = [row] ->
      payable row = false) ->
  exists e,
    handleCreatePayment provider payment_id toISOString insertError request s
    = (Throw e, s).
Proof.
  intros H.
  unfold handleCreatePayment. rewrite ptry_rethrow.
  unfold pbind at 1. unfold plift at 1.
  destruct (prop request "invoice_id") as [invoice_id|e] eqn:P; [|eauto].
  apply prop_normal in P. subst invoice_id.
  unfold pbind at 1. unfold on_bus, select_invoice_to_pay.
  rewrite store_eta.
  destruct (filter _ (invoices (bus s))) as [|row [|second rest]] eqn:F;
    cbn [single fst snd]; [unfold pthrow; eauto | | unfold pthrow; eauto].
  specialize (H row eq_refl). unfold payable in H. apply negb_false_iff in H.
  rewrite columns_truthy, columns_status, H. cbn [negb]. unfold pthrow.
  eexists. reflexivity.
Qed.

Lemma payment_refused_before_the_provider_is_called_witness :
  payable (Obj [("id", Str "inv-1"); ("organization_id", Str "org-1");
                ("status", Str "paid")]) = false
  /\ exists e,
       handleCreatePayment
         (Provider.mk (fun _ => ret Null) (fun _ => ret Null) (fun _ _ => ret Null))
         "pay-1" (fun _ => Normal (Str "2025-06-12T09:00:00.000Z")) None
         Sample.send_request
         (mkStore
            (with_invoices
               (fun _ => [Obj [("id", Str "inv-1"); ("organization_id", Str "org-1");
                               ("status", Str "paid")]]) Sample.idle) [])
       = (Throw e,
          mkStore
            (with_invoices
               (fun _ => [Obj [("id", Str "inv-1"); ("organization_id", Str "org-1");
                               ("status", Str "paid")]]) Sample.idle) []).
Proof.
  split; [reflexivity|].
  apply (payment_refused_before_the_provider_is_called
           (Provider.mk (fun _ => ret Null) (fun _ => ret Null) (fun _ _ => ret Null))
           "pay-1" (fun _ => Normal (Str "2025-06-12T09:00:00.000Z")) None
           Sample.send_request).
  intros row H. simpl in H. injection H as <-. reflexivity.
Defined.

(** handleCreatePayment on a payable invoice, step by step. *)
Lemma handleCreatePayment_steps
    (provider : Provider.t) (payment_id : string)
    (toISOString : value -> completion value) (insertError : option string)
    (request : value) (s : Store) (row checkoutSession expires_at : value) (w : World) :
  prop request "invoice_id" = Normal (field request "invoice_id") ->
  filter (DeleteInvoice.matches (field request "invoice_id")
            (field request "organization_id"))
         (invoices (bus s)) = [row] ->
  payable row = true ->
  Provider.createCheckoutSession provider (checkout_params payment_id request) (bus s)
  = (Normal checkoutSession, w) ->
  prop checkoutSession "provider" = Normal (field checkoutSession "provider") ->
  toISOString (field checkoutSession "expiresAt") = Normal expires_at ->
  handleCreatePayment provider payment_id toISOString insertError request s
  = match insertError with
    | Some err =>
        (Throw (mkError ("Failed to store payment: " ++ err)), mkStore w (payments s))
    | None =>
        (Normal (payment_created payment_id checkoutSession),
         mkStore
           (snd (update_invoice [("status", Str "pending_payment")]
                   (field request "invoice_id") (field request "organization_id") w))
           (payments s
            ++ [jsonify (payment_row payment_id request checkoutSession expires_at)]))
    end.
Proof.
  intros P F Pay Session Prov Iso.
  unfold handleCreatePayment. rewrite ptry_rethrow.
  unfold pbind at 1. unfold plift at 1. rewrite P.
  unfold pbind at 1. unfold on_bus at 1. unfold select_invoice_to_pay.
  rewrite F. cbn [single fst snd].
  unfold payable in Pay. apply negb_true_iff in Pay.
  rewrite columns_truthy, columns_status, Pay. cbn [negb].
  unfold pbind at 1. unfold on_bus at 1. cbn [bus payments]. rewrite Session.
  unfold pbind at 1. unfold plift at 1. rewrite Prov.
  unfold pbind at 1. unfold plift at 1. rewrite Iso.
  unfold pbind at 1. unfold insert_payment.
  destruct insertError as [err|]; [reflexivity|].
  unfold pbind, on_bus, pret. cbn [bus payments].
  destruct (update_invoice _ _ _ w) as [[u|e] w'] eqn:U; [reflexivity|].
  unfold update_invoice in U. destruct (update_error w); discriminate U.
Qed.

(** X23.  For a request matching one unpaid invoice of its organization,
    handleCreatePayment asks the provider for a session over the
    request's own amount (the invoice's total is compared for a warning
    only).  With the session made, the payment is stored as [pending]
    with that amount, the invoice is updated to [pending_payment] and
    the session is returned; when the store refuses the insert, the
    handler throws "Failed to store payment: ..." with the session
    already made at the provider and neither table changed. *)
Theorem payment_follows_the_session
    (provider : Provider.t) (payment_id : string)
    (toISOString : value -> completion value) (insertError : option string)
    (request : value) (s : Store) (row checkoutSession expires_at : value) (w : World) :
  prop request "invoice_id" = Normal (field request "invoice_id") ->
  filter (DeleteInvoice.matches (field request "invoice_id")
            (field request "organization_id"))
         (invoices (bus s)) = [row] ->
  payable row = true ->
  Provider.createCheckoutSession provider (checkout_params payment_id request) (bus s)
  = (Normal checkoutSession, w) ->
  prop checkoutSession "provider" = Normal (field checkoutSession "provider") ->
  toISOString (field checkoutSession "expiresAt") = Normal expires_at ->
  field (checkout_params payment_id request) "amount" = field request "amount"
  /\ handleCreatePayment provider payment_id toISOString insertError request s
     = match insertError with
       | Some err =>
           (Throw (mkError ("Failed to store payment: " ++ err)), mkStore w (payments s))
       | None =>
           (Normal (payment_created payment_id checkoutSession),
            mkStore
              (snd (update_invoice [("status", Str "pending_payment")]
                      (field request "invoice_id") (field request "organization_id") w))
              (payments s
               ++ [jsonify (payment_row payment_id request checkoutSession expires_at)]))
       end.
Proof.
  intros P F Pay Session Prov Iso. split; [reflexivity|].
  apply (handleCreatePayment_steps provider payment_id toISOString insertError request s
           row checkoutSession expires_at w); assumption.
Qed.

Lemma payment_follows_the_session_witness :
  payable (Obj [("id", Str "inv-1"); ("organization_id", Str "org-1");
                ("status", Str "sent"); ("total_amount", Num 240)]) = true
  /\ payments
       (snd (handleCreatePayment
               (Provider.mk
                  (fun _ => ret (Obj [("sessionId", Str "cs_1");
                                      ("url", Str "https://pay.example/cs_1");
                                      ("provider", Str "stripe");
                                      ("expiresAt", Num 1718100000)]))
                  (fun _ => ret Null) (fun _ _ => ret Null))
               "pay-1" (fun _ => Normal (Str "2024-06-11T10:00:00.000Z")) None
               (Obj [("invoice_id", Str "inv-1"); ("organization_id", Str "org-1");
                     ("amount", Num 1)])
               (mkStore
                  (with_invoices
                     (fun _ => [Obj [("id", Str "inv-1"); ("organization_id", Str "org-1");
                                     ("status", Str "sent"); ("total_amount", Num 240)]])
                     Sample.idle) [])))
     = [Obj [("id", Str "pay-1"); ("invoice_id", Str "inv-1");
             ("organization_id", Str "org-1"); ("amount", Num 1);
             ("status", Str "pending"); ("provider", Str "stripe");
             ("provider_payment_id", Str "cs_1");
             ("provider_checkout_url", Str "https://pay.example/cs_1");
             ("expires_at", Str "2024-06-11T10:00:00.000Z");
             ("metadata", Obj [])]].
Proof.
  split; [reflexivity|].
  exact (f_equal (fun out => payments (snd out))
    (proj2 (payment_follows_the_session
              (Provider.mk
                 (fun _ => ret (Obj [("sessionId", Str "cs_1");
                                     ("url", Str "https://pay.example/cs_1");
                                     ("provider", Str "stripe");
                                     ("expiresAt", Num 1718100000)]))
                 (fun _ => ret Null) (fun _ _ => ret Null))
              "pay-1" (fun _ => Normal (Str "2024-06-11T10:00:00.000Z")) None
              (Obj [("invoice_id", Str "inv-1"); ("organization_id", Str "org-1");
                    ("amount", Num 1)])
              (mkStore
                 (with_invoices
                    (fun _ => [Obj [("id", Str "inv-1"); ("organization_id", Str "org-1");
                                    ("status", Str "sent"); ("total_amount", Num 240)]])
                    Sample.idle) [])
              (Obj [("id", Str "inv-1"); ("organization_id", Str "org-1");
                    ("status", Str "sent"); ("total_amount", Num 240)])
              (Obj [("sessionId", Str "cs_1");
                    ("url", Str "https://pay.example/cs_1");
                    ("provider", Str "stripe");
                    ("expiresAt", Num 1718100000)])
              (Str "2024-06-11T10:00:00.000Z")
              (with_invoices
                 (fun _ => [Obj [("id", Str "inv-1"); ("organization_id", Str "org-1");
                                 ("status", Str "sent"); ("total_amount", Num 240)]])
                 Sample.idle)
              eq_refl eq_refl eq_refl eq_refl eq_refl eq_refl))).
Defined.

(** The payment record: with the provider's details at hand the handler
    gets through it without an exception and without touching the bus
    or the invoices. *)
Lemma record_payment_runs (db : Db) (now : string) (details : list (string * value))
    (existingPayment invoice_id : value) (s : Store) :
  exists payment_id rows,
    record_payment db now (Obj details) existingPayment invoice_id s
    = (Normal payment_id, mkStore (bus s) rows).
Proof.
  destruct s as [w rows]. cbn [bus].
  unfold record_payment.
  destruct (negb (truthy existingPayment) && truthy invoice_id).
  - unfold pbind at 1. unfold on_bus, select_invoice_by_id. cbn [bus payments].
    destruct (single _) as [invoice [invoiceError|]]; cbn [fst snd].
    + unfold pret. eauto.
    + rewrite columns_truthy.
      unfold pbind at 1. unfold plift at 1. cbn [prop].
      unfold pbind at 1. unfold insert_payment_returning. cbn [bus payments].
      destruct (paymentInsertError db); cbn [fst snd].
      * unfold pret. eauto.
      * unfold plift. cbn [prop field lookup String.eqb Ascii.eqb Bool.eqb]. eauto.
  - destruct (truthy existingPayment).
    + unfold pbind at 1. unfold plift at 1. cbn [prop].
      unfold pbind, update_payment, pret. cbn [bus payments].
      destruct (paymentUpdateError db); eauto.
    + unfold pret. eauto.
Qed.

(** A succeeded payment whose event names its invoice, step by step. *)
Lemma handleWebhookEvent_succeeded
    (provider : Provider.t) (db : Db) (now : string) (payload signature : value)
    (event details : list (string * value)) (s : Store)
    (payment_id : value) (rows : list value) :
  Provider.handleWebhookEvent provider payload signature = ret (Obj event) ->
  Provider.retrievePayment provider (lookup "payment_id" event) = ret (Obj details) ->
  truthy (lookup "payment_id" event) = true ->
  truthy (lookup "invoice_id" event) = true ->
  lookup "status" details = Str "succeeded" ->
  broken (bus s) = [] ->
  update_error (bus s) = None ->
  record_payment db now (Obj details) (found_payment (lookup "payment_id" event) s)
    (lookup "invoice_id" event) s
  = (Normal payment_id, mkStore (bus s) rows) ->
  handleWebhookEvent provider db now payload signature s
  = (Normal (Obj [("success", Bool true);
                  ("event_type", lookup "event_type" event);
                  ("payment_id", or_else payment_id (lookup "payment_id" event));
                  ("invoice_id", lookup "invoice_id" event);
                  ("status", Str "succeeded")]),
     mkStore
       (completed_on_bus now (lookup "invoice_id" event)
          (completed_event now (Obj event) (Obj details)
             (found_payment (lookup "payment_id" event) s) payment_id
             (lookup "invoice_id" event))
          (bus s))
       rows).
Proof.
  intros Hook Details Pid Inv Status B U R.
  unfold handleWebhookEvent. rewrite ptry_rethrow.
  unfold pbind at 1. unfold on_bus at 1. rewrite Hook. unfold ret at 1.
  rewrite store_eta.
  unfold pbind at 1. unfold plift at 1. cbn [prop field]. rewrite Pid. cbn [negb].
  unfold pbind at 1. unfold on_bus at 1. rewrite Details. unfold ret at 1.
  rewrite store_eta.
  unfold pbind at 1. unfold select_payment at 1.
  fold (found_payment (lookup "payment_id" event) s).
  rewrite Inv. unfold pbind at 1. unfold pret at 1.
  unfold pbind at 1. rewrite R.
  unfold pbind at 1. unfold plift at 1. cbn [prop field]. rewrite Status.
  cbn [DeleteInvoice.is_string String.eqb Ascii.eqb Bool.eqb]. rewrite Inv. cbn [andb].
  unfold pbind, on_bus, update_invoice_by_id, pret, completed_on_bus. cbn [bus payments].
  rewrite U. cbn [bus payments].
  rewrite (publish_healthy "payment.completed" _ (with_invoices _ (bus s)) B).
  cbn [bus payments].
  rewrite (publish_healthy "payment.event" _ (emit _ (with_invoices _ (bus s))) B).
  reflexivity.
Qed.

(** X24.  Every delivery of a succeeded payment publishes it again.  For
    a webhook event that names its invoice and a payment the provider
    reports as [succeeded], handleWebhookEvent marks the invoice [paid]
    (found by its id alone) and publishes [payment.completed] and then
    [payment.event], in whatever state the store is: whether the payment
    is already recorded, and whether the invoice is already paid.  A
    redelivered event is answered and published like the first. *)
Theorem every_delivery_of_a_succeeded_payment_is_published
    (provider : Provider.t) (db : Db) (now : string) (payload signature : value)
    (event details : list (string * value)) (s : Store) :
  Provider.handleWebhookEvent provider payload signature = ret (Obj event) ->
  Provider.retrievePayment provider (lookup "payment_id" event) = ret (Obj details) ->
  truthy (lookup "payment_id" event) = true ->
  truthy (lookup "invoice_id" event) = true ->
  lookup "status" details = Str "succeeded" ->
  broken (bus s) = [] ->
  update_error (bus s) = None ->
  exists result rows completed,
    handleWebhookEvent provider db now payload signature s
    = (Normal result,
       mkStore (completed_on_bus now (lookup "invoice_id" event) completed (bus s)) rows)
    /\ field completed "invoice_id" = lookup "invoice_id" event
    /\ field completed "status" = Str "succeeded"
    /\ field result "success" = Bool true.
Proof.
  intros Hook Details Pid Inv Status B U.
  destruct (record_payment_runs db now details
              (found_payment (lookup "payment_id" event) s)
              (lookup "invoice_id" event) s) as [payment_id [rows R]].
  eexists. exists rows. eexists. split.
  - exact (handleWebhookEvent_succeeded provider db now payload signature event details
             s payment_id rows Hook Details Pid Inv Status B U R).
  - repeat split; try reflexivity. exact Status.
Qed.

Lemma every_delivery_of_a_succeeded_payment_is_published_witness :
  lookup "status" [("status", Str "succeeded"); ("amount", Num 240)] = Str "succeeded"
  /\ exists result rows completed,
       handleWebhookEvent
         (Provider.mk (fun _ => ret Null)
            (fun _ => ret (Obj [("status", Str "succeeded"); ("amount", Num 240)]))
            (fun _ _ => ret (Obj [("event_type", Str "checkout.session.completed");
                                  ("payment_id", Str "cs_1");
                                  ("invoice_id", Str "inv-1")])))
         (mkDb "pay-2" None None) "2025-06-11T09:00:00.000Z" Null Null
         (mkStore Sample.invoice_svc [])
       = (Normal result,
          mkStore (completed_on_bus "2025-06-11T09:00:00.000Z" (Str "inv-1") completed
                     Sample.invoice_svc) rows)
       /\ field completed "invoice_id" = Str "inv-1".
Proof.
  split; [reflexivity|].
  destruct (every_delivery_of_a_succeeded_payment_is_published
              (Provider.mk (fun _ => ret Null)
                 (fun _ => ret (Obj [("status", Str "succeeded"); ("amount", Num 240)]))
                 (fun _ _ => ret (Obj [("event_type", Str "checkout.session.completed");
                                       ("payment_id", Str "cs_1");
                                       ("invoice_id", Str "inv-1")])))
              (mkDb "pay-2" None None) "2025-06-11T09:00:00.000Z" Null Null
              [("event_type", Str "checkout.session.completed");
               ("payment_id", Str "cs_1"); ("invoice_id", Str "inv-1")]
              [("status", Str "succeeded"); ("amount", Num 240)]
              (mkStore Sample.invoice_svc [])
              eq_refl eq_refl eq_refl eq_refl eq_refl eq_refl eq_refl)
    as [result [rows [completed [H1 [H2 _]]]]].
  exists result, rows, completed. exact (conj H1 H2).
Defined.

(** handleWebhookEvent on a succeeded payment it has no row for. *)
Lemma handleWebhookEvent_new_payment
    (provider : Provider.t) (db : Db) (now : string) (payload signature : value)
    (event details : list (string * value)) (s : Store) (invoice : value) :
  Provider.handleWebhookEvent provider payload signature = ret (Obj event) ->
  Provider.retrievePayment provider (lookup "payment_id" event) = ret (Obj details) ->
  truthy (lookup "payment_id" event) = true ->
  truthy (lookup "invoice_id" event) = true ->
  lookup "status" details = Str "succeeded" ->
  broken (bus s) = [] ->
  update_error (bus s) = None ->
  filter (eq_column "provider_payment_id" (lookup "payment_id" event)) (payments s) = [] ->
  filter (eq_column "id" (lookup "invoice_id" event)) (invoices (bus s)) = [invoice] ->
  paymentInsertError db = None ->
  exists result recorded completed,
    handleWebhookEvent provider db now payload signature s
    = (Normal result,
       mkStore (completed_on_bus now (lookup "invoice_id" event) completed (bus s))
         (payments s ++ [jsonify (Obj recorded)]))
    /\ lookup "organization_id" recorded = field invoice "organization_id"
    /\ lookup "customer_id" recorded = field invoice "customer_id"
    /\ lookup "status" recorded = Str "succeeded"
    /\ lookup "invoice_id" recorded = lookup "invoice_id" event
    /\ field completed "organization_id" = Str ""
    /\ field completed "customer_id" = Str "".
Proof.
  intros Hook Details Pid Inv Status B U Unknown Found Accepts.
  assert (found_payment (lookup "payment_id" event) s = Null) as E.
  { unfold found_payment. rewrite Unknown. reflexivity. }
  eexists. eexists. eexists. split.
  - apply (handleWebhookEvent_succeeded provider db now payload signature event details s
             (Str (newPaymentId db))); try assumption.
    rewrite E. unfold record_payment. cbn [truthy negb]. rewrite Inv. cbn [andb].
    unfold pbind at 1. unfold on_bus, select_invoice_by_id. rewrite Found.
    cbn [single fst snd]. rewrite columns_truthy.
    unfold pbind at 1. unfold plift at 1. cbn [prop].
    unfold pbind at 1. unfold insert_payment_returning. rewrite Accepts.
    cbn [fst snd bus payments]. reflexivity.
  - rewrite E. repeat split; try reflexivity.
    cbn [field lookup String.eqb Ascii.eqb Bool.eqb]. exact Status.
Qed.

(** X25.  A payment first seen through the webhook is recorded with the
    organization and customer of its invoice, but the events published
    for it name neither: [payment.completed] carries [customer_id] and
    [organization_id] as empty strings, since they are read from the
    payment row found before the new one is inserted. *)
Theorem new_payment_event_names_no_customer
    (provider : Provider.t) (db : Db) (now : string) (payload signature : value)
    (event details : list (string * value)) (s : Store) (invoice : value) :
  Provider.handleWebhookEvent provider payload signature = ret (Obj event) ->
  Provider.retrievePayment provider (lookup "payment_id" event) = ret (Obj details) ->
  truthy (lookup "payment_id" event) = true ->
  truthy (lookup "invoice_id" event) = true ->
  lookup "status" details = Str "succeeded" ->
  broken (bus s) = [] ->
  update_error (bus s) = None ->
  filter (eq_column "provider_payment_id" (lookup "payment_id" event)) (payments s) = [] ->
  filter (eq_column "id" (lookup "invoice_id" event)) (invoices (bus s)) = [invoice] ->
  paymentInsertError db = None ->
  exists result recorded completed,
    handleWebhookEvent provider db now payload signature s
    = (Normal result,
       mkStore (completed_on_bus now (lookup "invoice_id" event) completed (bus s))
         (payments s ++ [jsonify (Obj recorded)]))
    /\ lookup "organization_id" recorded = field invoice "organization_id"
    /\ lookup "customer_id" recorded = field invoice "customer_id"
    /\ field completed "organization_id" = Str ""
    /\ field completed "customer_id" = Str "".
Proof.
  intros Hook Details Pid Inv Status B U Unknown Found Accepts.
  destruct (handleWebhookEvent_new_payment provider db now payload signature event
              details s invoice Hook Details Pid Inv Status B U Unknown Found Accepts)
    as [result [recorded [completed [H [Ho [Hc [_ [_ [Eo Ec]]]]]]]]].
  exists result, recorded, completed. repeat split; assumption.
Qed.

Lemma new_payment_event_names_no_customer_witness :
  filter (eq_column "id" (Str "inv-1")) (invoices Sample.invoice_svc)
  = [Sample.invoice_row]
  /\ exists result recorded completed,
       handleWebhookEvent
         (Provider.mk (fun _ => ret Null)
            (fun _ => ret (Obj [("status", Str "succeeded"); ("amount", Num 240)]))
            (fun _ _ => ret (Obj [("event_type", Str "checkout.session.completed");
                                  ("payment_id", Str "cs_1");
                                  ("invoice_id", Str "inv-1")])))
         (mkDb "pay-2" None None) "2025-06-11T09:00:00.000Z" Null Null
         (mkStore Sample.invoice_svc [])
       = (Normal result,
          mkStore (completed_on_bus "2025-06-11T09:00:00.000Z" (Str "inv-1") completed
                     Sample.invoice_svc)
            ([] ++ [jsonify (Obj recorded)]))
       /\ lookup "organization_id" recorded = Str "org-1"
       /\ field completed "organization_id" = Str "".
Proof.
  split; [reflexivity|].
  destruct (new_payment_event_names_no_customer
              (Provider.mk (fun _ => ret Null)
                 (fun _ => ret (Obj [("status", Str "succeeded"); ("amount", Num 240)]))
                 (fun _ _ => ret (Obj [("event_type", Str "checkout.session.completed");
                                       ("payment_id", Str "cs_1");
                                       ("invoice_id", Str "inv-1")])))
              (mkDb "pay-2" None None) "2025-06-11T09:00:00.000Z" Null Null
              [("event_type", Str "checkout.session.completed");
               ("payment_id", Str "cs_1"); ("invoice_id", Str "inv-1")]
              [("status", Str "succeeded"); ("amount", Num 240)]
              (mkStore Sample.invoice_svc []) Sample.invoice_row
              eq_refl eq_refl eq_refl eq_refl eq_refl eq_refl eq_refl eq_refl eq_refl
              eq_refl)
    as [result [recorded [completed [H1 [H2 [_ [H3 _]]]]]]].
  exists result, recorded, completed. exact (conj H1 (conj H2 H3)).
Defined.

Lemma eq_column_apply_patch (column : string) (v : value) (patch : list (string * value))
    (row : value) :
  ~ In column (map fst patch) ->
  eq_column column v (apply_patch patch row) = eq_column column v row.
Proof.
  intros N. unfold eq_column, apply_patch. cbn [field].
  change (fold_left (fun fields kv => set_field (fst kv) (snd kv) fields) patch (spread row))
    with (Routes.assign_fields (spread row) patch).
  rewrite lookup_assign_fields_absent by exact N.
  destruct row; reflexivity.
Qed.

Lemma filter_map_same {A} (p : A -> bool) (f : A -> A) (l : list A) :
  (forall x, p (f x) = p x) ->
  filter p (map f l) = map f (filter p l).
Proof.
  intros H. induction l as [|x l IH]; [reflexivity|].
  simpl. rewrite H. destruct (p x); simpl; rewrite IH; reflexivity.
Qed.

Lemma filter_both {A} (p q : A -> bool) (l : list A) :
  filter (fun x => p x && q x) l = filter q (filter p l).
Proof.
  induction l as [|x l IH]; [reflexivity|].
  simpl. destruct (p x); simpl; [destruct (q x)|]; rewrite IH; reflexivity.
Qed.

Lemma filter_app_one {A} (p : A -> bool) (l : list A) (x : A) :
  filter p l = [] -> p x = false -> filter p (l ++ [x]) = [].
Proof. intros H N. rewrite filter_app, H. simpl. rewrite N. reflexivity. Qed.

Lemma payment_row_pending (payment_id : string) (request checkoutSession expires_at : value) :
  field (jsonify (payment_row payment_id request checkoutSession expires_at)) "status"
  = Str "pending".
Proof.
  unfold payment_row. rewrite lookup_jsonify_defined; [reflexivity|].
  cbn [lookup String.eqb Ascii.eqb Bool.eqb]. discriminate.
Qed.

Lemma payment_row_session (payment_id : string) (request checkoutSession expires_at : value)
    (session_id : string) :
  field checkoutSession "sessionId" = Str session_id ->
  field (jsonify (payment_row payment_id request checkoutSession expires_at))
    "provider_payment_id" = field checkoutSession "sessionId".
Proof.
  intros Sid. unfold payment_row. rewrite lookup_jsonify_defined.
  - cbn [lookup String.eqb Ascii.eqb Bool.eqb]. rewrite Sid. reflexivity.
  - cbn [lookup String.eqb Ascii.eqb Bool.eqb]. rewrite Sid. discriminate.
Qed.

(** X26.  A paid checkout leaves its payment pending.  handleCreatePayment
    records the payment under the checkout session's id; the provider's
    events name the payment by another id (the payment intent's), and
    handleWebhookEvent looks the payment up by that one.  So when the
    customer pays, the row handleCreatePayment inserted is not found: it
    stays [pending], and a second row is inserted for the same invoice
    with the provider's status. *)
Theorem paid_checkout_leaves_its_payment_pending
    (provider : Provider.t) (db : Db) (now payment_id : string)
    (toISOString : value -> completion value)
    (request : value) (s : Store) (row checkoutSession expires_at : value)
    (payload signature : value) (event details : list (string * value))
    (session_id intent_id : string) :
  prop request "invoice_id" = Normal (field request "invoice_id") ->
  truthy (field request "invoice_id") = true ->
  filter (eq_column "id" (field request "invoice_id")) (invoices (bus s)) = [row] ->
  eq_column "organization_id" (field request "organization_id") row = true ->
  payable row = true ->
  Provider.createCheckoutSession provider (checkout_params payment_id request)
  = ret checkoutSession ->
  prop checkoutSession "provider" = Normal (field checkoutSession "provider") ->
  toISOString (field checkoutSession "expiresAt") = Normal expires_at ->
  field checkoutSession "sessionId" = Str session_id ->
  Provider.handleWebhookEvent provider payload signature = ret (Obj event) ->
  Provider.retrievePayment provider (lookup "payment_id" event) = ret (Obj details) ->
  lookup "payment_id" event = Str intent_id ->
  intent_id <> "" ->
  intent_id <> session_id ->
  lookup "invoice_id" event = field request "invoice_id" ->
  lookup "status" details = Str "succeeded" ->
  filter (eq_column "provider_payment_id" (Str intent_id)) (payments s) = [] ->
  paymentInsertError db = None ->
  broken (bus s) = [] ->
  update_error (bus s) = None ->
  let created := handleCreatePayment provider payment_id toISOString None request s in
  let handled := handleWebhookEvent provider db now payload signature (snd created) in
  exists result recorded,
    fst handled = Normal result
    /\ payments (snd handled)
       = (payments s
          ++ [jsonify (payment_row payment_id request checkoutSession expires_at);
              jsonify (Obj recorded)])%list
    /\ field (jsonify (payment_row payment_id request checkoutSession expires_at)) "status"
       = Str "pending"
    /\ lookup "status" recorded = Str "succeeded"
    /\ lookup "invoice_id" recorded = field request "invoice_id".
Proof.
  intros P Tinv Fid Org Pay Session Prov Iso Sid Hook Details Pid Pne Differ Inv Status
    Fresh Accepts B U created handled.
  assert (filter (DeleteInvoice.matches (field request "invoice_id")
                    (field request "organization_id"))
                 (invoices (bus s)) = [row]) as F.
  { unfold DeleteInvoice.matches.
    transitivity
      (filter (eq_column "organization_id" (field request "organization_id"))
         (filter (eq_column "id" (field request "invoice_id")) (invoices (bus s)))).
    - apply filter_both.
    - rewrite Fid. simpl. rewrite Org. reflexivity. }
  pose proof (handleCreatePayment_steps provider payment_id toISOString None request
                s row checkoutSession expires_at (bus s) P F Pay
                (f_equal (fun m => m (bus s)) Session) Prov Iso) as E.
  subst created handled. rewrite E. cbn [snd].
  unfold update_invoice. rewrite U. cbn [snd].
  set (mark := fun r : value =>
                 if eq_column "id" (field request "invoice_id") r
                    && eq_column "organization_id" (field request "organization_id") r
                 then apply_patch [("status", Str "pending_payment")] r else r).
  set (s1 := mkStore _ _).
  assert (truthy (lookup "payment_id" event) = true) as Tpid.
  { rewrite Pid. simpl. apply String.eqb_neq in Pne. rewrite Pne. reflexivity. }
  assert (truthy (lookup "invoice_id" event) = true) as Tinv' by (rewrite Inv; exact Tinv).
  assert (broken (bus s1) = []) as B1 by exact B.
  assert (update_error (bus s1) = None) as U1 by exact U.
  assert (filter (eq_column "provider_payment_id" (lookup "payment_id" event))
            (payments s1) = []) as Unknown.
  { rewrite Pid. subst s1. cbn [payments].
    apply filter_app_one; [exact Fresh|].
    unfold eq_column. rewrite (payment_row_session _ _ _ _ session_id Sid), Sid.
    apply String.eqb_neq. congruence. }
  assert (filter (eq_column "id" (lookup "invoice_id" event)) (invoices (bus s1))
          = [mark row]) as Found.
  { rewrite Inv. subst s1. cbn [bus invoices with_invoices emit with_log].
    rewrite filter_map_same.
    - rewrite Fid. reflexivity.
    - intros x. subst mark. cbv beta.
      destruct (_ && _); [|reflexivity].
      apply eq_column_apply_patch. simpl. intros [N|[]]. discriminate N. }
  destruct (handleWebhookEvent_new_payment provider db now payload signature event details
              s1 (mark row) Hook Details Tpid Tinv' Status B1 U1 Unknown Found Accepts)
    as [result [recorded [completed [H1 [_ [_ [H2 [H3 _]]]]]]]].
  exists result, recorded. rewrite H1. cbn [fst snd payments].
  subst s1. cbn [payments]. rewrite <- app_assoc.
  split; [reflexivity|]. split; [reflexivity|].
  split; [apply payment_row_pending|].
  split; [exact H2|]. rewrite <- Inv. exact H3.
Qed.

Lemma paid_checkout_leaves_its_payment_pending_witness :
  "pi_1" <> "cs_1"
  /\ map (fun payment => field payment "status")
       (payments
          (snd (handleWebhookEvent PaidCheckout.provider PaidCheckout.db
                  "2025-06-11T09:00:00.000Z" Null Null
                  (snd (handleCreatePayment PaidCheckout.provider "pay-1"
                          PaidCheckout.toISOString None PaidCheckout.request
                          PaidCheckout.store)))))
     = [Str "pending"; Str "succeeded"].
Proof.
  split; [discriminate|].
  pose proof (paid_checkout_leaves_its_payment_pending PaidCheckout.provider
                PaidCheckout.db "2025-06-11T09:00:00.000Z" "pay-1"
                PaidCheckout.toISOString PaidCheckout.request PaidCheckout.store
                Sample.invoice_row PaidCheckout.session
                (Str "2024-06-11T10:00:00.000Z") Null Null
                PaidCheckout.event PaidCheckout.details "cs_1" "pi_1") as T.
  repeat match type of T with
         | ?A -> _ =>
             let h := fresh in
             assert A as h by (first [reflexivity | discriminate]);
             specialize (T h); clear h
         end.
  destruct T as [result [recorded [_ [H [_ [Hs _]]]]]].
  rewrite H. unfold PaidCheckout.store. cbn [payments app map].
  rewrite payment_row_pending.
  rewrite lookup_jsonify_defined by (rewrite Hs; discriminate).
  rewrite Hs. reflexivity.
Defined.

End Paying.

(* ================================================================== *)
(** ** Listing invoices *)
(* ================================================================== *)

Section Listing.
Import Worker Correlation SendInvoice Gateway GetInvoice.

Lemma eq_column_with_customer (v row : value) :
  eq_column "organization_id" v (with_customer row)
  = eq_column "organization_id" v row.
Proof.
  unfold eq_column, with_customer. cbn [field].
  rewrite !lookup_set_field_other by reflexivity.
  destruct row; reflexivity.
Qed.

Lemma range_incl (from to : Z) (rows : list value) (row : value) :
  In row (range from to rows) -> In row rows.
Proof.
  unfold range. intros H.
  rewrite <- (firstn_skipn (Z.to_nat from) rows). apply in_or_app. right.
  rewrite <- (firstn_skipn (Z.to_nat (to - from + 1)) (skipn (Z.to_nat from) rows)).
  apply in_or_app. left. exact H.
Qed.

Lemma selected_own (orgId filters : value) (rows : list value) (row : value) :
  In row (selected orgId filters rows) -> eq_column "organization_id" orgId row = true.
Proof.
  unfold selected. intros H. apply in_rev, filter_In in H.
  destruct H as [_ H]. apply andb_true_iff in H. apply H.
Qed.

(** X27.  handleGetInvoice answers with invoices of the asking
    organization only: whatever the invoice id, the filters and the page
    asked for, every invoice of the answer (the one asked for, or those
    of the list) carries the request's [orgId] as its organization; and
    the handler reads the store without changing it. *)
Theorem get_invoice_answers_own_invoices_only
    (page limit : option Z) (queryError : option string) (request : value)
    (w w' : World) (result : value) :
  handleGetInvoice page limit queryError request w = (Normal result, w') ->
  w' = w
  /\ Forall (fun invoice =>
               eq_column "organization_id" (field request "orgId") invoice = true)
            (invoices_of result).
Proof.
  unfold handleGetInvoice. rewrite try_catch_rethrow.
  unfold bind at 1. unfold lift at 1.
  destruct (prop request "orgId") as [orgId|e] eqn:P; [|discriminate].
  apply prop_normal in P. subst orgId.
  destruct (truthy (field request "invoiceId")).
  - unfold bind, select_invoice.
    destruct (filter _ (invoices w)) as [|row [|second rest]] eqn:F;
      cbn [single fst snd]; unfold throw; try discriminate.
    destruct (truthy row) eqn:T; cbn [negb]; [|discriminate].
    unfold ret. intros H. injection H as <- <-. split; [reflexivity|].
    assert (In row (filter (fun r => eq_column "id" (field request "invoiceId") r
                                     && eq_column "organization_id"
                                          (field request "orgId") r) (invoices w))) as I.
    { rewrite F. left. reflexivity. }
    apply filter_In in I. destruct I as [_ I]. apply andb_true_iff in I.
    unfold invoices_of. cbn [field lookup String.eqb Ascii.eqb Bool.eqb].
    destruct row; try discriminate T; repeat constructor; apply I.
  - unfold bind. destruct queryError as [error|]; unfold throw, ret; [discriminate|].
    intros H. injection H as <- <-. split; [reflexivity|].
    unfold invoices_of. cbn [field lookup String.eqb Ascii.eqb Bool.eqb].
    apply Forall_forall. intros invoice I.
    apply in_map_iff in I. destruct I as [row [<- I]].
    rewrite eq_column_with_customer.
    apply (selected_own _ (field request "filters") (invoices w)).
    apply (range_incl _ _ _ _ I).
Qed.

Lemma get_invoice_answers_own_invoices_only_witness :
  exists result,
    handleGetInvoice None None None (Obj [("orgId", Str "org-1")]) Sample.invoice_svc
    = (Normal result, Sample.invoice_svc)
    /\ Forall (fun invoice => eq_column "organization_id" (Str "org-1") invoice = true)
         (invoices_of result).
Proof.
  eexists. split; [reflexivity|].
  exact (proj2 (get_invoice_answers_own_invoices_only None None None
                  (Obj [("orgId", Str "org-1")]) Sample.invoice_svc Sample.invoice_svc
                  _ eq_refl)).
Defined.

(** Cutting a list into [n] pieces of [size] elements and putting them
    together again gives the list, when [n] pieces are enough. *)
Lemma chunks_concat {A} (size : nat) :
  forall (n : nat) (xs : list A),
    (length xs <= n * size)%nat ->
    concat (map (fun k => firstn size (skipn (k * size) xs)) (seq 0 n)) = xs.
Proof.
  induction n as [|n IH]; intros xs H.
  - destruct xs; [reflexivity | simpl in H; lia].
  - cbn [seq map concat]. rewrite <- seq_shift, map_map.
    rewrite (map_ext _ (fun k => firstn size (skipn (k * size) (skipn size xs)))).
    + rewrite IH; [apply firstn_skipn|].
      rewrite length_skipn. simpl in H. lia.
    + intros k. rewrite skipn_skipn. f_equal. f_equal. simpl. lia.
Qed.

Lemma ceil_div_covers (count limit : Z) :
  (0 <= count)%Z -> (1 <= limit)%Z ->
  (0 <= ceil_div count limit)%Z /\ (count <= ceil_div count limit * limit)%Z.
Proof.
  intros Hc Hl. unfold ceil_div.
  pose proof (Z.div_mod (- count) limit) as D.
  pose proof (Z.mod_pos_bound (- count) limit) as B.
  split; nia.
Qed.

(** The list branch for a request that is an object and names no
    invoice. *)
Lemma page_of_range (limit : Z) (request : value) (w : World) (k : nat) :
  (1 <= limit)%Z ->
  prop request "orgId" = Normal (field request "orgId") ->
  truthy (field request "invoiceId") = false ->
  page_of limit request w (Z.of_nat (S k))
  = map with_customer
      (firstn (Z.to_nat limit)
         (skipn (k * Z.to_nat limit)
            (selected (field request "orgId") (field request "filters") (invoices w)))).
Proof.
  intros L P I. unfold page_of, handleGetInvoice. rewrite try_catch_rethrow.
  unfold bind at 1. unfold lift at 1. rewrite P, I.
  unfold bind, ret. cbn [fst]. unfold invoices_of.
  cbn [field lookup String.eqb Ascii.eqb Bool.eqb].
  unfold range, number_or.
  replace (Z.of_nat (S k) =? 0)%Z with false by (symmetry; apply Z.eqb_neq; lia).
  replace (limit =? 0)%Z with false by (symmetry; apply Z.eqb_neq; lia).
  f_equal. f_equal; [f_equal; lia|]. f_equal. nia.
Qed.

(** The answer of the list branch, field by field. *)
Lemma handleGetInvoice_page (limit page : Z) (request : value) (w : World) :
  (1 <= limit)%Z ->
  (1 <= page)%Z ->
  prop request "orgId" = Normal (field request "orgId") ->
  truthy (field request "invoiceId") = false ->
  let rows := selected (field request "orgId") (field request "filters") (invoices w) in
  let count := Z.of_nat (length rows) in
  fst (handleGetInvoice (Some page) (Some limit) None request w)
  = Normal (Obj [("invoices",
                  Arr (map with_customer
                         (range ((page - 1) * limit) ((page - 1) * limit + limit - 1) rows)));
                 ("total", Num count);
                 ("page", Num page);
                 ("limit", Num limit);
                 ("pages", Num (if (count =? 0)%Z then 0%Z else ceil_div count limit))]).
Proof.
  intros L Pg P I. cbv zeta. unfold handleGetInvoice. rewrite try_catch_rethrow.
  unfold bind at 1. unfold lift at 1. rewrite P, I.
  unfold bind, ret, number_or. cbn [fst].
  replace (page =? 0)%Z with false by (symmetry; apply Z.eqb_neq; lia).
  replace (limit =? 0)%Z with false by (symmetry; apply Z.eqb_neq; lia).
  reflexivity.
Qed.

(** X28.  The pages partition the selection.  For a page size of at
    least one, whatever page is asked for, the handler reports as
    [total] the number of the organization's invoices that pass the
    filters, and as [pages] a number such that the pages [1] to [pages]
    it answers, put end to end, are exactly those invoices, newest first,
    each once; it reports the page and the page size as asked; and no
    page holds more than [limit] invoices. *)
Theorem pages_partition_the_selection (limit page : Z) (request : value) (w : World) :
  (1 <= limit)%Z ->
  (1 <= page)%Z ->
  prop request "orgId" = Normal (field request "orgId") ->
  truthy (field request "invoiceId") = false ->
  let rows := selected (field request "orgId") (field request "filters") (invoices w) in
  exists pages,
    reported "total" limit request w page = Num (Z.of_nat (length rows))
    /\ reported "page" limit request w page = Num page
    /\ reported "limit" limit request w page = Num limit
    /\ reported "pages" limit request w page = Num pages
    /\ concat (map (page_of limit request w) (pages_upto (Z.to_nat pages)))
       = map with_customer rows
    /\ forall k, (Z.of_nat (length (page_of limit request w (Z.of_nat (S k)))) <= limit)%Z.
Proof.
  intros L Pg P I rows.
  pose proof (handleGetInvoice_page limit page request w L Pg P I) as A.
  cbv zeta in A. fold rows in A.
  exists (if (Z.of_nat (length rows) =? 0)%Z then 0%Z
          else ceil_div (Z.of_nat (length rows)) limit).
  unfold reported. rewrite A.
  split; [reflexivity|]. split; [reflexivity|]. split; [reflexivity|].
  split; [reflexivity|]. split.
  - unfold pages_upto. rewrite map_map.
    rewrite (map_ext _ (fun k => map with_customer
                                   (firstn (Z.to_nat limit)
                                      (skipn (k * Z.to_nat limit) rows))))
      by (intros k; apply page_of_range; assumption).
    rewrite <- (map_map (fun k => firstn (Z.to_nat limit) (skipn (k * Z.to_nat limit) rows))
                  (map with_customer)).
    rewrite <- concat_map. f_equal. apply chunks_concat.
    destruct (Z.of_nat (length rows) =? 0)%Z eqn:E.
    + apply Z.eqb_eq in E. lia.
    + destruct (ceil_div_covers (Z.of_nat (length rows)) limit) as [C1 C2];
        [lia | exact L |].
      nia.
  - intros k. rewrite page_of_range by assumption.
    rewrite length_map, length_firstn. lia.
Qed.

Lemma pages_partition_the_selection_witness :
  (1 <= 1)%Z
  /\ exists pages,
       reported "pages" 1 (Obj [("orgId", Str "org-1")])
         (with_invoices (fun rows => rows ++ rows)%list Sample.invoice_svc) 2
       = Num pages
       /\ concat (map (page_of 1 (Obj [("orgId", Str "org-1")])
                         (with_invoices (fun rows => rows ++ rows)%list Sample.invoice_svc))
                    (pages_upto (Z.to_nat pages)))
          = map with_customer [Sample.invoice_row; Sample.invoice_row].
Proof.
  split; [lia|].
  destruct (pages_partition_the_selection 1 2 (Obj [("orgId", Str "org-1")])
              (with_invoices (fun rows => rows ++ rows)%list Sample.invoice_svc))
    as [pages [_ [_ [_ [R [C _]]]]]]; [lia | lia | reflexivity | reflexivity |].
  exists pages. exact (conj R C).
Defined.

Lemma eq_column_jsonify (column : string) (v row : value) :
  eq_column column v row = true -> eq_column column v (jsonify row) = true.
Proof.
  unfold eq_column. intros H.
  destruct row; try discriminate H.
  rewrite lookup_jsonify_defined.
  - cbn [field] in H. destruct (lookup column fields); try discriminate H. exact H.
  - cbn [field] in H. destruct (lookup column fields); discriminate.
Qed.

(** The list the handler answers the gateway's request with. *)
Lemma handleGetInvoice_list (page limit : option Z) (request : value) (w : World) :
  prop request "orgId" = Normal (field request "orgId") ->
  truthy (field request "invoiceId") = false ->
  exists rows total pages,
    handleGetInvoice page limit None request w
    = (Normal (Obj [("invoices", Arr (map with_customer rows));
                    ("total", Num total);
                    ("page", Num (number_or page 1));
                    ("limit", Num (number_or limit 10));
                    ("pages", Num pages)]), w)
    /\ Forall (fun row => eq_column "organization_id" (field request "orgId") row = true)
         rows.
Proof.
  intros P I. unfold handleGetInvoice. rewrite try_catch_rethrow.
  unfold bind at 1. unfold lift at 1. rewrite P, I.
  unfold bind, ret. eexists. eexists. eexists. split; [reflexivity|].
  apply Forall_forall. intros row H.
  apply (selected_own _ (field request "filters") (invoices w)).
  apply (range_incl _ _ _ _ H).
Qed.

(** The list query refused by the store. *)
Lemma handleGetInvoice_refused (page limit : option Z) (error : string) (request : value)
    (w : World) :
  prop request "orgId" = Normal (field request "orgId") ->
  truthy (field request "invoiceId") = false ->
  handleGetInvoice page limit (Some error) request w
  = (Throw (mkError ("Failed to retrieve invoices: " ++ error)), w).
Proof.
  intros P I. unfold handleGetInvoice. rewrite try_catch_rethrow.
  unfold bind at 1. unfold lift at 1. rewrite P, I. reflexivity.
Qed.

Lemma published_unsubscribe (l : list Effect) (subj : string) :
  published (l ++ [EUnsubscribe subj]) = published l.
Proof.
  induction l as [|e l IH]; [reflexivity|].
  destruct e; simpl; rewrite IH; reflexivity.
Qed.

Lemma published_subscribe (l : list Effect) (subj : string) :
  published (l ++ [ESubscribe subj]) = published l.
Proof.
  induction l as [|e l IH]; [reflexivity|].
  destruct e; simpl; rewrite IH; reflexivity.
Qed.

(** The events of the exchange publish nothing. *)
Lemma gateway_run_published (requestId : string) (evs : list Event) :
  forall st,
    published (log (fst (gateway_run requestId evs st))) = published (log (fst st)).
Proof.
  induction evs as [|ev evs IH]; intros st; [reflexivity|].
  change (gateway_run requestId (ev :: evs) st)
    with (gateway_run requestId evs (gateway_step requestId st ev)).
  rewrite IH. destruct st as [w p].
  destruct ev as [d|]; cbn [gateway_step snd fst].
  - destruct (handle p) eqn:E; [reflexivity| |];
      (destruct (decode d) as [msg|e]; [|reflexivity];
       unfold gateway_callback; cbn [fst];
       rewrite (proj1 (release_log _ (w, clearTimeout p)
                         ltac:(cbn [snd]; rewrite handle_clearTimeout; congruence)));
       apply published_unsubscribe).
  - destruct (timer p); reflexivity.
Qed.

(** What GET /api/invoices publishes, whatever reaches it afterwards:
    one request, naming the organization of the token. *)
Lemma get_invoices_publishes
    (env : Env) (user status : value) (page limit : option Z) (org : string)
    (evs : list Event) (gw : World) :
  prop user "org_id" = Normal (Str org) ->
  org <> "" ->
  client gw = true ->
  broken gw = [] ->
  published (log (snd (get_invoices env user status page limit evs gw)))
  = (published (log gw)
     ++ [mkMsg "invoice.get.request"
           (encode (invoice_get_payload (fresh_request_id env) (Str org) status
                      (number page) (number limit))) None])%list.
Proof.
  intros U O C B.
  unfold get_invoices, try_catch, bind at 1, lift at 1. rewrite U.
  cbn [truthy]. apply String.eqb_neq in O. rewrite O. cbn [negb].
  unfold bind, await_invoices, ret, throw.
  rewrite gateway_request_connected by (try exact C; rewrite B; reflexivity).
  match goal with
  | |- context [gateway_run ?r ?l ?st] =>
      pose proof (gateway_run_published r l st) as G;
      destruct (gateway_run r l st) as [w' p']
  end.
  cbn [fst snd] in *.
  cbn [log emit with_log with_subs] in G.
  rewrite published_snoc, published_subscribe in G.
  destruct (promise p') as [[response|error]|];
    try destruct (not_production env); exact G.
Qed.

(** X29.  From the caller's token to the caller's invoices.  Whatever
    reaches it, GET /api/invoices publishes one request, which names the
    organization of the token; the invoice.get.request loop of
    invoice-svc, running handleGetInvoice on that very message, answers
    on the subject the gateway listens on, with the list or, when the
    store refuses the query, with the error; and the gateway answers 200
    with that reply.  Every invoice of the HTTP answer belongs to the
    organization of the token, whatever else the store of invoice-svc
    holds and whatever the query asks for. *)
Theorem gateway_lists_the_callers_invoices_only
    (env : Env) (user status : value) (page limit : option Z)
    (queryError : option string) (org : string) (gw svc : World) :
  prop user "org_id" = Normal (Str org) ->
  org <> "" ->
  fresh_request_id env <> "" ->
  client gw = true ->
  broken gw = [] ->
  broken svc = [] ->
  exists request reply result,
    (forall evs,
        published (log (snd (get_invoices env user status page limit evs gw)))
        = (published (log gw) ++ [request])%list)
    /\ for_await (invoice_get_request (handleGetInvoice page limit queryError))
         [request] svc
       = (Waiting, emit (EPublish reply) svc)
    /\ subject reply = invoice_get_reply_subject (fresh_request_id env)
    /\ fst (get_invoices env user status page limit [Reply (data reply)] gw)
       = mkResponse 200 result
    /\ Forall (fun invoice => eq_column "organization_id" (Str org) invoice = true)
         (invoices_of result).
Proof.
  intros U O R C B Bs.
  set (requestId := fresh_request_id env) in *.
  set (payload := invoice_get_payload requestId (Str org) status (number page)
                    (number limit)).
  assert (prop (jsonify payload) "orgId" = Normal (field (jsonify payload) "orgId")) as P
    by reflexivity.
  assert (field (jsonify payload) "orgId" = Str org) as Porg by reflexivity.
  assert (truthy (field (jsonify payload) "invoiceId") = false) as I by reflexivity.
  assert (prop (jsonify payload) "requestId" = Normal (Str requestId)) as Pid
    by reflexivity.
  assert (field (jsonify payload) "requestId" = Str requestId) as Fid by reflexivity.
  assert (truthy (jsonify payload) = true) as Tp by reflexivity.
  assert (forall evs,
             published (log (snd (get_invoices env user status page limit evs gw)))
             = (published (log gw)
                ++ [mkMsg "invoice.get.request" (encode payload) None])%list) as Pub.
  { intros evs. apply (get_invoices_publishes env user status page limit org evs gw);
      assumption. }
  assert (forall answer,
             fst (get_invoices env user status page limit
                    [Reply (encode answer)] gw)
             = mkResponse 200 (jsonify answer)) as G.
  { intros answer.
    unfold get_invoices, try_catch, bind at 1, lift at 1. rewrite U.
    cbn [truthy]. pose proof O as O'. apply String.eqb_neq in O'. rewrite O'. cbn [negb].
    fold requestId. fold payload.
    unfold bind, await_invoices, ret.
    rewrite gateway_request_connected by (try exact C; rewrite B; reflexivity).
    reflexivity. }
  apply String.eqb_neq in R.
  exists (mkMsg "invoice.get.request" (encode payload) None).
  destruct queryError as [error|].
  - set (answer := error_envelope (mkError ("Failed to retrieve invoices: " ++ error))).
    exists (mkMsg (invoice_get_reply_subject requestId) (encode answer) None),
           (jsonify answer).
    split; [exact Pub|].
    split; [|split; [reflexivity|split]].
    + unfold for_await, invoice_get_request, try_catch, bind at 1, lift at 1.
      cbn [data decode encode reply_to reply].
      unfold bind at 1.
      rewrite (handleGetInvoice_refused page limit error (jsonify payload) svc P I).
      unfold bind, lift. rewrite Tp, Fid. cbn [truthy].
      rewrite R. cbn [negb andb when to_string].
      unfold publish. rewrite Bs. reflexivity.
    + apply G.
    + subst answer. constructor.
  - destruct (handleGetInvoice_list page limit (jsonify payload) svc P I)
      as [rows [total [pages [H Own]]]].
    rewrite Porg in Own.
    set (answer := Obj [("invoices", Arr (map with_customer rows));
                        ("total", Num total);
                        ("page", Num (number_or page 1));
                        ("limit", Num (number_or limit 10));
                        ("pages", Num pages)]) in *.
    exists (mkMsg (invoice_get_reply_subject requestId) (encode answer) None),
           (jsonify answer).
    split; [exact Pub|].
    split; [|split; [reflexivity|split]].
    + unfold for_await, invoice_get_request, try_catch, bind at 1, lift at 1.
      cbn [data decode encode reply_to reply].
      unfold bind at 1. rewrite H.
      unfold bind, lift. rewrite Pid. cbn [truthy].
      rewrite R. cbn [negb when to_string].
      unfold publish. rewrite Bs. reflexivity.
    + apply G.
    + subst answer. unfold invoices_of.
      cbn [jsonify field lookup String.eqb Ascii.eqb Bool.eqb].
      apply Forall_forall. intros invoice H'.
      apply in_map_iff in H'. destruct H' as [customer [<- H']].
      apply in_map_iff in H'. destruct H' as [row [<- H']].
      apply eq_column_jsonify. rewrite eq_column_with_customer.
      apply (proj1 (Forall_forall _ rows) Own). exact H'.
Qed.

Lemma gateway_lists_the_callers_invoices_only_witness :
  prop Sample.user "org_id" = Normal (Str "org-1")
  /\ exists request reply result,
       published (log (snd (get_invoices Sample.production Sample.user Undefined
                              (Some 1%Z) (Some 10%Z) [Reply (data reply)] Sample.idle)))
       = [request]
       /\ for_await (invoice_get_request (handleGetInvoice (Some 1%Z) (Some 10%Z) None))
            [request] Sample.invoice_svc
          = (Waiting, emit (EPublish reply) Sample.invoice_svc)
       /\ fst (get_invoices Sample.production Sample.user Undefined (Some 1%Z) (Some 10%Z)
                 [Reply (data reply)] Sample.idle)
          = mkResponse 200 result
       /\ Forall (fun invoice => eq_column "organization_id" (Str "org-1") invoice = true)
            (invoices_of result).
Proof.
  split; [reflexivity|].
  pose proof (gateway_lists_the_callers_invoices_only Sample.production Sample.user
                Undefined (Some 1%Z) (Some 10%Z) None "org-1" Sample.idle
                Sample.invoice_svc)
    as T.
  repeat match type of T with
         | ?A -> _ =>
             let h := fresh in
             assert A as h by (first [reflexivity | discriminate]);
             specialize (T h); clear h
         end.
  destruct T as [request [reply [result [H0 [H1 [_ [H2 H3]]]]]]].
  exists request, reply, result.
  exact (conj (H0 [Reply (data reply)]) (conj H1 (conj H2 H3))).
Defined.

End Listing.
